(** * sails-hook-sequelize: the hook of [src/index.js], embedded and verified

    The hook binds Sequelize model definitions to database connections and
    converges the schema of every owned connection at start-up.  This file
    embeds the methods of the hook object of [src/index.js] as Rocq functions
    and settles the properties that its specification states about them.

    Conventions of the embedding.
    - A JavaScript object that is used as a dictionary and iterated with
      [for ... in] ([datastores], [models]) is an association list in
      enumeration order; one that is only read and written by key
      ([sails.models], the [connections] map) is a [gmap string _].
    - An optional property is an [option]; [None] is [undefined].  A string
      is falsy exactly when it is absent or empty ([truthy]).
    - A function that may throw returns a [Completion]; a promise is
      represented by the [Completion] it settles to.
    - The database behind a connection is an oracle ([Db]); every call that
      the hook issues on a connection is appended to a log of [DbCall]s.
    - The constructor of a connection is code of the library, an oracle too
      ([newSequelize]): it may throw, and it may write to the [options]
      object that it is given, which is the one of the configuration entry.
      Every configuration entry has an [options] object of its own.
    - A [gmap] holds the own properties of a plain object.  Where the hook
      calls a method on the value that it read by key, a name that is not
      an own property but one of [Object.prototype] gives a value without
      that method, not [undefined] ([getProperty]).
    - Verbose logging and the exposure of values on [global] are not part
      of the model. *)

From Stdlib Require Import Ascii String.
From stdpp Require Import base option list strings gmap.

Open Scope string_scope.

(** ** JavaScript values used by the hook *)

Record JsError := mkError {
  err_name : string;
  err_message : string;
  err_parent : option string      (* [e.parent.message], when [e.parent] is set *)
}.

Definition TypeError (msg : string) : JsError := mkError "TypeError" msg None.
Definition PlainError (msg : string) : JsError := mkError "Error" msg None.

Inductive Completion (A : Type) : Type :=
| Normal (v : A)
| Throw (e : JsError).
Arguments Normal {A} v.
Arguments Throw {A} e.

Global Instance completion_ret : MRet Completion := fun A v => Normal v.

Global Instance completion_bind : MBind Completion := fun A B k c =>
  match c with
  | Normal v => k v
  | Throw e => Throw e
  end.

(** [x] as a condition, for an optional string property. *)
Definition truthy (x : option string) : bool :=
  match x with
  | Some s => negb (String.eqb s "")
  | None => false
  end.

(** [a || d], where [a] is an optional string and [d] a string. *)
Definition or_default (a : option string) (d : string) : string :=
  if truthy a then default d a else d.

(** *** [String.prototype.toLowerCase], on ASCII identifiers *)

Definition lower_ascii (c : ascii) : ascii :=
  let n := nat_of_ascii c in
  if (65 <=? n)%nat && (n <=? 90)%nat then ascii_of_nat (n + 32) else c.

Fixpoint toLowerCase (s : string) : string :=
  match s with
  | EmptyString => EmptyString
  | String c r => String (lower_ascii c) (toLowerCase r)
  end.

(** *** [Array.prototype.join] *)

Fixpoint join (sep : string) (l : list string) : string :=
  match l with
  | [] => ""
  | [x] => x
  | x :: r => x +:+ sep +:+ join sep r
  end.

(** *** [JSON.stringify] on an array of strings

    [QuoteJSONString]: the quote and the backslash are escaped, the control
    characters below 0x20 are written as a short escape or as [\u00xx], and
    every other code unit stands for itself. *)

Definition hex_digit (n : nat) : ascii :=
  if (n <? 10)%nat then ascii_of_nat (48 + n) else ascii_of_nat (87 + n).

Definition backslash : ascii := ascii_of_nat 92.
Definition dquote : ascii := ascii_of_nat 34.

Definition json_escape (c : ascii) : string :=
  let n := nat_of_ascii c in
  match n with
  | 8 => String backslash "b"
  | 9 => String backslash "t"
  | 10 => String backslash "n"
  | 12 => String backslash "f"
  | 13 => String backslash "r"
  | 34 => String backslash (String dquote "")
  | 92 => String backslash (String backslash "")
  | _ =>
      if (n <? 32)%nat
      then String backslash
             (String "u" (String "0" (String "0"
                (String (hex_digit (n / 16)) (String (hex_digit (n mod 16)) "")))))
      else String c ""
  end.

Fixpoint json_escape_all (s : string) : string :=
  match s with
  | EmptyString => ""
  | String c r => json_escape c +:+ json_escape_all r
  end.

Definition json_quote (s : string) : string :=
  String dquote (json_escape_all s +:+ String dquote "").

Fixpoint json_elements (l : list string) : string :=
  match l with
  | [] => ""
  | [x] => json_quote x
  | x :: r => json_quote x +:+ "," +:+ json_elements r
  end.

Definition JSON_stringify_array (l : list string) : string :=
  "[" +:+ json_elements l +:+ "]".

(** [JSON.stringify(x)] where [x] may be [undefined]: the result is then
    [undefined] too. *)
Definition JSON_stringify (fields : option (list string)) : option string :=
  JSON_stringify_array <$> fields.

(** [a === b] on two results of [JSON.stringify]. *)
Definition strict_eq_ostring (a b : option string) : bool :=
  match a, b with
  | Some x, Some y => String.eqb x y
  | None, None => true
  | _, _ => false
  end.

(** ** Data model *)

(** An entry of [options.indexes] or of a model's [_indexes]. *)
Record IndexSpec := mkIndex {
  idx_name : option string;
  idx_fields : option (list string);
  idx_unique : option bool
}.

Definition Method := string.

(** [modelDef.options]. *)
Record ModelOptions := mkOptions {
  tableName : option string;
  schema : option string;
  indexes : option (list IndexSpec);
  classMethods : list (string * Method);
  instanceMethods : list (string * Method)
}.

Definition emptyOptions : ModelOptions := mkOptions None None None [] [].

(** The object form of [through] in a [belongsToMany] call. *)
Inductive ThroughModel :=
| TmUndefined
| TmString (s : string)
| TmClass (name : string).          (* a model class; [name] is its [.name] *)

Record ThroughObject := mkThrough {
  through_model : ThroughModel;
  through_unique : option bool
}.

Inductive Through :=
| ThUndefined
| ThString (s : string)
| ThClass (name : string)
| ThObject (o : ThroughObject).

Inductive UniqueKey :=
| UkUnset
| UkName (s : string)
| UkFalse.

(** The options object handed to [belongsToMany]. *)
Record AssocOptions := mkAssocOptions {
  through : Through;
  uniqueKey : UniqueKey;
  assoc_as : option string
}.

(** What an [associations] function does, as far as the hook can observe:
    it calls [belongsToMany] on model classes, and it may throw. *)
Inductive AssocStep :=
| CallBelongsToMany (source target : string) (opts : AssocOptions)
| ThrowStep (e : JsError).

Inductive Associations :=
| AssocUndefined
| AssocNull
| AssocFunction (body : list AssocStep)
| AssocOther.

Definition Scope := string.
Definition emptyScope : Scope := "{}".

Inductive DefaultScope :=
| ScopeUndefined
| ScopeNull
| ScopeFunction (result : option Scope)   (* [None]: the function returns a falsy value *)
| ScopeOther.

Definition Attributes := list (string * string).

(** A model definition as the module loader delivers it.  [options] is
    either absent or an object, so [typeof options === 'undefined'] and
    [!options] are both [options = None]. *)
Record ModelDef := mkModelDef {
  globalId : string;
  attributes : Attributes;
  options : option ModelOptions;
  associations : Associations;
  defaultScope : DefaultScope;
  connection : option string;
  datastore : option string
}.

(** ** [configure]: the overridden module loader (lines 28-44) *)

(** The test of line 36. *)
Definition isWaterlineModel (model : ModelDef) : bool :=
  match options model with
  | None => true
  | Some o => match tableName o with None => true | Some _ => false end
  end.

(** [Object.entries(modelDefs).forEach(...)] filling [models]. *)
Fixpoint detectWaterline (modelDefs : list (string * ModelDef)) : list (string * ModelDef) :=
  match modelDefs with
  | [] => []
  | (key, model) :: rest =>
      if isWaterlineModel model
      then (key, model) :: detectWaterline rest
      else detectWaterline rest
  end.

(** The callback given to [originalLoadModels]: what it passes to [cb]. *)
Definition load (err : option JsError) (modelDefs : list (string * ModelDef))
  : option JsError * list (string * ModelDef) :=
  (err, detectWaterline modelDefs).

(** ** Plain objects used as maps

    [connections] (line 88) and [sails.models] are plain objects, read with
    [obj[name]]: a name that is not an own property is looked up in
    [Object.prototype], so that the value read is [undefined] only for a
    name that is not inherited either. *)

(** The property names of [Object.prototype]. *)
Definition objectPrototypeNames : list string :=
  ["constructor"; "hasOwnProperty"; "isPrototypeOf"; "propertyIsEnumerable";
   "toLocaleString"; "toString"; "valueOf"; "__proto__";
   "__defineGetter__"; "__defineSetter__"; "__lookupGetter__"; "__lookupSetter__"].

Definition inheritedName (name : string) : bool :=
  existsb (String.eqb name) objectPrototypeNames.

(** The value of [obj[name]]: an own property, a value inherited from
    [Object.prototype] (a function, or [Object.prototype] itself), or
    [undefined]. *)
Inductive Property (A : Type) : Type :=
| Own (a : A)
| Inherited
| Undefined.
Arguments Own {A} a.
Arguments Inherited {A}.
Arguments Undefined {A}.

Definition getProperty {A : Type} (obj : gmap string A) (name : string) : Property A :=
  match obj !! name with
  | Some a => Own a
  | None => if inheritedName name then Inherited else Undefined
  end.

(** The TypeError of the call [callee.method(...)] when [callee] is not an
    own property: reading [method] of [undefined] throws, and an inherited
    value has no such method. *)
Definition notCallable (callee method : string) (inherited : bool) : JsError :=
  if inherited then TypeError (callee +:+ "." +:+ method +:+ " is not a function")
  else TypeError ("Cannot read properties of undefined (reading '" +:+ method +:+ "')").

(** ** Connection configuration and [initConnections] (lines 87-128) *)

Inductive Logging :=
| LogLevel (level : string)        (* a string: the name of a sails log level *)
| LogFunction (f : string)         (* a function *)
| LogOff.                          (* [false] *)

(** [connection.options]. *)
Record ConnOptions := mkConnOptions {
  co_dialect : option string;
  co_logging : option Logging
}.

Definition emptyConnOptions : ConnOptions := mkConnOptions None None.

(** An entry of [sails.config.connections] / [sails.config.datastores]. *)
Record ConnectionConfig := mkConnectionConfig {
  adapter : option string;
  dialect : option string;
  conn_options : option ConnOptions;
  url : option string;
  database : option string;
  user : option string;
  password : option string
}.

Definition Datastores := list (string * ConnectionConfig).

(** The part of [sails.config] that the hook reads. *)
Record SailsConfig := mkSailsConfig {
  config_connections : option Datastores;     (* sails.config.connections *)
  config_datastores : option Datastores;      (* sails.config.datastores *)
  models_connection : option string;          (* sails.config.models.connection *)
  models_datastore : option string;           (* sails.config.models.datastore *)
  migrate : option string;                    (* sails.config.models.migrate *)
  smartMigrate : bool;
  dryRun : bool
}.

(** [sails.config.connections || sails.config.datastores]. *)
Definition datastoresOf (cfg : SailsConfig) : option Datastores :=
  match config_connections cfg with
  | Some ds => Some ds
  | None => config_datastores cfg
  end.

(** The configuration after the entries of the selected map were replaced
    (the loop of [initConnections] writes to them in place). *)
Definition withDatastores (cfg : SailsConfig) (ds : Datastores) : SailsConfig :=
  match config_connections cfg with
  | Some _ =>
      mkSailsConfig (Some ds) (config_datastores cfg) (models_connection cfg)
        (models_datastore cfg) (migrate cfg) (smartMigrate cfg) (dryRun cfg)
  | None =>
      mkSailsConfig None (Some ds) (models_connection cfg)
        (models_datastore cfg) (migrate cfg) (smartMigrate cfg) (dryRun cfg)
  end.

(** [sails.config.models.connection || sails.config.models.datastore || 'default']. *)
Definition defaultConnectionName (cfg : SailsConfig) : string :=
  or_default (models_connection cfg) (or_default (models_datastore cfg) "default").

(** [Object.prototype.hasOwnProperty.call(datastores, name)]. *)
Definition hasOwnProperty (ds : Datastores) (name : string) : bool :=
  existsb (fun entry => String.eqb (fst entry) name) ds.

(** A live connection: the arguments its constructor received. *)
Inductive Connection :=
| SequelizeUrl (url : string) (opts : ConnOptions)
| SequelizeParts (database user password : option string) (opts : ConnOptions).

(** Lines 104 and 340-347.  [connection.adapter || !(connection.dialect ||
    connection.options.dialect)] decides whether the entry is skipped;
    [Normal None] is "skip", [Normal (Some d)] is an owned entry of dialect
    [d].  Reading [.dialect] of an absent [options] throws. *)
Definition ownership (c : ConnectionConfig) : Completion (option string) :=
  if truthy (adapter c) then Normal None
  else if truthy (dialect c) then Normal (dialect c)
  else match conn_options c with
       | None => Throw (TypeError "Cannot read properties of undefined (reading 'dialect')")
       | Some o => Normal (if truthy (co_dialect o) then co_dialect o else None)
       end.

Section Connections.

(** [sails.log[level]]: the logging function of that level, if any. *)
Variable sails_log : string -> option Logging.

(** Lines 113-115. *)
Definition normalizeLogging (o : ConnOptions) : ConnOptions :=
  match co_logging o with
  | Some (LogLevel level) =>
      if String.eqb level "" then o
      else mkConnOptions (co_dialect o) (sails_log level)
  | _ => o
  end.

(** [new Sequelize(...)] is code of the Sequelize library.  It is given
    the entry's own [options] object, to which it may write (with a
    connection string it stores the dialect that it read from the string),
    and it may throw (with four arguments it does when [options] names no
    dialect).  For a call with the arguments [k], [newSequelize k] is the
    [options] object as the constructor leaves it, and the error that the
    constructor throws, if it throws. *)
Variable newSequelize : Connection -> ConnOptions * option JsError.

(** Lines 108-124 for one owned entry: the entry as the loop leaves it,
    and the connection constructed from it, unless the constructor throws. *)
Definition construct (c : ConnectionConfig) : ConnectionConfig * Completion Connection :=
  let o := normalizeLogging (default emptyConnOptions (conn_options c)) in
  let k := if truthy (url c)
           then SequelizeUrl (default "" (url c)) o
           else SequelizeParts (database c) (user c) (password c) o in
  let '(o', thrown) := newSequelize k in
  (mkConnectionConfig (adapter c) (dialect c) (Some o') (url c)
     (database c) (user c) (password c),
   match thrown with
   | Some e => Throw e
   | None => Normal k
   end).

(** The state of one run of [initConnections]. *)
Record InitRun := mkInitRun {
  init_datastores : Datastores;                (* the entries, after the writes *)
  init_connections : gmap string Connection;   (* [connections] *)
  init_thrown : option JsError
}.

(** The loop of lines 100-125. *)
Fixpoint initLoop (ds : Datastores) (connections : gmap string Connection) : InitRun :=
  match ds with
  | [] => mkInitRun [] connections None
  | (connectionName, c) :: rest =>
      match ownership c with
      | Throw e => mkInitRun ds connections (Some e)
      | Normal None =>
          let r := initLoop rest connections in
          mkInitRun ((connectionName, c) :: init_datastores r)
            (init_connections r) (init_thrown r)
      | Normal (Some _) =>
          match construct c with
          | (c', Throw e) => mkInitRun ((connectionName, c') :: rest) connections (Some e)
          | (c', Normal k) =>
              let r := initLoop rest (<[connectionName := k]> connections) in
              mkInitRun ((connectionName, c') :: init_datastores r)
                (init_connections r) (init_thrown r)
          end
      end
  end.

Definition defaultNotFound (name : string) : JsError :=
  PlainError ("Default connection '" +:+ name +:+ "' not found in config/connections").

Definition initRun (cfg : SailsConfig) : InitRun :=
  match datastoresOf cfg with
  | None =>
      mkInitRun [] ∅ (Some (TypeError "Cannot convert undefined or null to object"))
  | Some ds =>
      if hasOwnProperty ds (defaultConnectionName cfg)
      then initLoop ds ∅
      else mkInitRun ds ∅ (Some (defaultNotFound (defaultConnectionName cfg)))
  end.

(** [initConnections()]: the map it returns, or what it throws. *)
Definition initConnections (cfg : SailsConfig) : Completion (gmap string Connection) :=
  let r := initRun cfg in
  match init_thrown r with
  | Some e => Throw e
  | None => Normal (init_connections r)
  end.

(** [sails.config] after [initConnections] returned. *)
Definition configAfterInit (cfg : SailsConfig) : SailsConfig :=
  match datastoresOf cfg with
  | None => cfg
  | Some _ => withDatastores cfg (init_datastores (initRun cfg))
  end.

End Connections.

(** ** Bound models and [sails.models] *)

(** The value of [model.getTableName()]: a string, or (for a model with a
    schema) an object, of which only its conversion to a string is used. *)
Inductive TableName :=
| TableString (s : string)
| TableObject (rendered : string).

(** [`${tableName}`]. *)
Definition renderTableName (t : TableName) : string :=
  match t with
  | TableString s => s
  | TableObject rendered => rendered
  end.

(** An entry of [sails.models], with the properties that the hook reads or
    writes.  An entry of another data layer has no [options]. *)
Record SailsModel := mkModel {
  model_name : string;
  model_connection : option Connection;
  model_attributes : Attributes;
  model_options : option ModelOptions;        (* [model.options] *)
  _indexes : option (list IndexSpec);         (* [model._indexes] *)
  getTableName : TableName;                   (* [model.getTableName()] *)
  model_statics : gmap string Method;
  model_prototype : gmap string Method;
  model_scope : option Scope                  (* the scope added as 'defaultScope' *)
}.

Definition setIndexes (m : SailsModel) (ixs : option (list IndexSpec)) : SailsModel :=
  mkModel (model_name m) (model_connection m) (model_attributes m) (model_options m)
    ixs (getTableName m) (model_statics m) (model_prototype m) (model_scope m).

Definition setStatics (m : SailsModel) (s : gmap string Method) : SailsModel :=
  mkModel (model_name m) (model_connection m) (model_attributes m) (model_options m)
    (_indexes m) (getTableName m) s (model_prototype m) (model_scope m).

Definition setPrototype (m : SailsModel) (p : gmap string Method) : SailsModel :=
  mkModel (model_name m) (model_connection m) (model_attributes m) (model_options m)
    (_indexes m) (getTableName m) (model_statics m) p (model_scope m).

(** [model.addScope('defaultScope', scope, { override: true })]. *)
Definition addDefaultScope (m : SailsModel) (scope : Scope) : SailsModel :=
  mkModel (model_name m) (model_connection m) (model_attributes m) (model_options m)
    (_indexes m) (getTableName m) (model_statics m) (model_prototype m) (Some scope).

(** [Sequelize.Model.belongsToMany]: the method of the library, or the
    function of lines 224-252 closing over the method it replaced. *)
Inductive BelongsToManyImpl :=
| SequelizeBelongsToMany
| Intercepting (originalBelongsToMany : BelongsToManyImpl).

(** A call that reached the method of the library. *)
Record AssociationCall := mkCall {
  call_source : string;
  call_target : string;
  call_options : AssocOptions
}.

(** The mutable state that [defineModels] works on. *)
Record Sails := mkSails {
  sails_models : gmap string SailsModel;          (* sails.models *)
  belongsToMany : BelongsToManyImpl;              (* Sequelize.Model.belongsToMany *)
  association_calls : list AssociationCall        (* in the order they were made *)
}.

Definition isFalse (b : option bool) : bool :=
  match b with
  | Some false => true
  | _ => false
  end.

(** ** [setAssociation] (lines 215-261) *)

(** Lines 233-237. *)
Definition hasNonUniqueIndex (ixs : list IndexSpec) : bool :=
  existsb (fun idx =>
             isFalse (idx_unique idx) &&
             match idx_fields idx with
             | Some fields => (length fields =? 2)%nat
             | None => false
             end) ixs.

Definition suppressUniqueKey (o : AssocOptions) : AssocOptions :=
  mkAssocOptions (through o) UkFalse (assoc_as o).

(** Lines 229-242, once [throughModelName] is a string. *)
Definition suppressForThrough (models : gmap string SailsModel)
    (throughModelName : string) (o : AssocOptions) : AssocOptions :=
  match models !! toLowerCase throughModelName with
  | Some throughModelDef =>
      match model_options throughModelDef with
      | Some opts =>
          match indexes opts with
          | Some ixs => if hasNonUniqueIndex ixs then suppressUniqueKey o else o
          | None => o
          end
      | None => o
      end
  | None => o
  end.

(** Lines 226-249: what the replacement does to [options] before it calls
    the method it replaced. *)
Definition intercept (models : gmap string SailsModel) (o : AssocOptions)
  : Completion AssocOptions :=
  match through o with
  | ThObject t =>
      o1 ← match through_model t with
           | TmUndefined => Normal o
           | TmString s =>
               if String.eqb s "" then Normal o
               else Normal (suppressForThrough models s o)
           | TmClass name =>
               if String.eqb name ""
               then Throw (TypeError "throughModelName.toLowerCase is not a function")
               else Normal (suppressForThrough models name o)
           end;
      Normal (if isFalse (through_unique t) then suppressUniqueKey o1 else o1)
  | _ => Normal o
  end.

(** A call [source.belongsToMany(target, options)] with [impl] installed:
    the call that reaches the library, if no replacement throws before. *)
Fixpoint invokeBelongsToMany (impl : BelongsToManyImpl) (models : gmap string SailsModel)
    (source target : string) (o : AssocOptions) : Completion AssociationCall :=
  match impl with
  | SequelizeBelongsToMany => Normal (mkCall source target o)
  | Intercepting original =>
      o' ← intercept models o;
      invokeBelongsToMany original models source target o'
  end.

(** Line 255: the body of an [associations] function, run in state [s]. *)
Fixpoint runAssociations (s : Sails) (body : list AssocStep) : Sails * option JsError :=
  match body with
  | [] => (s, None)
  | ThrowStep e :: _ => (s, Some e)
  | CallBelongsToMany source target o :: rest =>
      match invokeBelongsToMany (belongsToMany s) (sails_models s) source target o with
      | Throw e => (s, Some e)
      | Normal call =>
          runAssociations
            (mkSails (sails_models s) (belongsToMany s) (association_calls s ++ [call])%list)
            rest
      end
  end.

Definition setBelongsToMany (s : Sails) (impl : BelongsToManyImpl) : Sails :=
  mkSails (sails_models s) impl (association_calls s).

Definition setAssociation (s : Sails) (modelDef : ModelDef) : Sails * option JsError :=
  match associations modelDef with
  | AssocFunction body =>
      let originalBelongsToMany := belongsToMany s in
      let s1 := setBelongsToMany s (Intercepting originalBelongsToMany) in
      match runAssociations s1 body with
      | (s2, Some e) => (s2, Some e)
      | (s2, None) => (setBelongsToMany s2 originalBelongsToMany, None)
      end
  | _ => (s, None)
  end.

(** ** [setDefaultScope] (lines 263-271) *)

Definition setDefaultScope (modelDef : ModelDef) (model : Property SailsModel)
  : Completion (option SailsModel) :=
  match defaultScope modelDef with
  | ScopeFunction result =>
      match model with
      | Own m => Normal (Some (addDefaultScope m (default emptyScope result)))
      | Inherited => Throw (notCallable "model" "addScope" true)
      | Undefined => Throw (notCallable "model" "addScope" false)
      end
  | _ => Normal (match model with Own m => Some m | _ => None end)
  end.

(** ** [defineModels] (lines 136-213) *)

(** A [for ... in] loop whose body may throw: the state reached, and the
    error that ended the loop early, if any. *)
Fixpoint forIn {S A : Type} (body : S -> A -> S * option JsError) (s : S) (l : list A)
  : S * option JsError :=
  match l with
  | [] => (s, None)
  | x :: rest =>
      match body s x with
      | (s', Some e) => (s', Some e)
      | (s', None) => forIn body s' rest
      end
  end.

Definition setModels (s : Sails) (models : gmap string SailsModel) : Sails :=
  mkSails models (belongsToMany s) (association_calls s).

(** [for (k in methods) target[k] = methods[k]]. *)
Definition assignAll (methods : list (string * Method)) (target : gmap string Method)
  : gmap string Method :=
  fold_left (fun acc entry => <[fst entry := snd entry]> acc) methods target.

(** Lines 198-210: one entry of [options.indexes] against the pending list
    [model._indexes]. *)
Definition queueIndex (pending : option (list IndexSpec)) (index : IndexSpec)
  : option (list IndexSpec) :=
  if isFalse (idx_unique index) &&
     match idx_fields index with
     | Some fields => (2 <=? length fields)%nat
     | None => false
     end
  then
    let current := default [] pending in
    let exists_ :=
      existsb (fun idx =>
                 strict_eq_ostring (JSON_stringify (idx_fields idx))
                                   (JSON_stringify (idx_fields index))) current in
    if exists_ then Some current else Some (current ++ [index])%list
  else pending.

(** Line 153: [modelDef.connection || modelDef.datastore || defaultConnection]. *)
Definition connectionNameOf (defaultConnection : string) (modelDef : ModelDef) : string :=
  or_default (connection modelDef) (or_default (datastore modelDef) defaultConnection).

Section Models.

(** [connection.define(name, attributes, options)], the schema-definition
    capability of the ORM. *)
Variable define : Connection -> string -> Attributes -> ModelOptions -> SailsModel.

(** [parseInt(Sequelize.version.split('.')[0], 10)]. *)
Variable sequelizeMajVersion : nat.

(** Lines 158-166. *)
Definition mergeMethods (opts : ModelOptions) (modelClass : SailsModel) : SailsModel :=
  if (4 <=? sequelizeMajVersion)%nat
  then setPrototype
         (setStatics modelClass (assignAll (classMethods opts) (model_statics modelClass)))
         (assignAll (instanceMethods opts) (model_prototype modelClass))
  else modelClass.

(** First pass, lines 145-172. *)
Definition defineModel (defaultConnection : string)
    (connections : gmap string Connection) (s : Sails) (modelDef : ModelDef)
  : Sails * option JsError :=
  match options modelDef with
  | None => (s, None)
  | Some opts =>
      let connectionName := connectionNameOf defaultConnection modelDef in
      match getProperty connections connectionName with
      | Undefined => (s, Some (notCallable "connections[connectionName]" "define" false))
      | Inherited => (s, Some (notCallable "connections[connectionName]" "define" true))
      | Own c =>
          let modelClass :=
            mergeMethods opts
              (define c (globalId modelDef) (attributes modelDef) opts) in
          (setModels s (<[toLowerCase (globalId modelDef) := modelClass]> (sails_models s)),
           None)
      end
  end.

(** Second pass, lines 177-185. *)
Definition associate (s : Sails) (modelDef : ModelDef) : Sails * option JsError :=
  match options modelDef with
  | None => (s, None)
  | Some _ =>
      match setAssociation s modelDef with
      | (s1, Some e) => (s1, Some e)
      | (s1, None) =>
          let key := toLowerCase (globalId modelDef) in
          match setDefaultScope modelDef (getProperty (sails_models s1) key) with
          | Throw e => (s1, Some e)
          | Normal (Some m) => (setModels s1 (<[key := m]> (sails_models s1)), None)
          | Normal None => (s1, None)
          end
      end
  end.

(** Third pass, lines 190-211. *)
Definition accumulateIndexes (s : Sails) (modelDef : ModelDef) : Sails :=
  match options modelDef with
  | None => s
  | Some opts =>
      match indexes opts with
      | None => s
      | Some ixs =>
          let key := toLowerCase (globalId modelDef) in
          match sails_models s !! key with
          | None => s
          | Some model =>
              setModels s
                (<[key := setIndexes model (fold_left queueIndex ixs (_indexes model))]>
                   (sails_models s))
          end
      end
  end.

Definition firstPass (defaultConnection : string) (connections : gmap string Connection)
    (s : Sails) (models : list (string * ModelDef)) : Sails * option JsError :=
  forIn (fun s entry => defineModel defaultConnection connections s (snd entry)) s models.

Definition secondPass (s : Sails) (models : list (string * ModelDef))
  : Sails * option JsError :=
  forIn (fun s entry => associate s (snd entry)) s models.

Definition thirdPass (s : Sails) (models : list (string * ModelDef)) : Sails :=
  fold_left (fun s entry => accumulateIndexes s (snd entry)) models s.

Definition defineModels (cfg : SailsConfig) (models : list (string * ModelDef))
    (connections : gmap string Connection) (s : Sails) : Sails * option JsError :=
  match firstPass (defaultConnectionName cfg) connections s models with
  | (s1, Some e) => (s1, Some e)
  | (s1, None) =>
      match secondPass s1 models with
      | (s2, Some e) => (s2, Some e)
      | (s2, None) => (thirdPass s2 models, None)
      end
  end.

End Models.

(** ** The database behind the connections *)

(** A call issued on the connection registered under the name [cn]. *)
Inductive DbCall :=
| CallQuery (cn sql : string)
| CallShowAllSchemas (cn : string)
| CallCreateSchema (cn schemaName : string)
| CallSync (cn : string) (force alter : bool).

(** A row of a catalog query; a column that the result lacks is [None]. *)
Record Row := mkRow {
  indexname : option string;
  indexdef : option string;
  Key_name : option string;
  Column_name : option string;
  Non_unique : option nat
}.

(** An element of the list that [deduplicateIndexes] returns. *)
Record ExistingIndex := mkExisting {
  ex_name : option string;
  ex_definition : option string;
  ex_columns : option string;
  ex_unique : option bool
}.

(** What the database answers: each promise is given by the completion it
    settles to ([Throw] for a rejection). *)
Record Db := mkDb {
  db_query : string -> string -> Completion (list Row);         (* connection.query(sql) *)
  db_showAllSchemas : string -> Completion (list string);       (* connection.showAllSchemas() *)
  db_sync : string -> bool -> bool -> Completion unit           (*
      connection.sync({force, alter}) *)
}.

(** ** [deduplicateIndexes] (lines 273-302) *)

Definition postgresIndexQuery (tableName : string) : string :=
  "SELECT indexname, indexdef FROM pg_indexes WHERE tablename = '"
    +:+ toLowerCase tableName +:+ "'".

Definition mysqlIndexQuery (tableName : TableName) : string :=
  "SHOW INDEX FROM " +:+ renderTableName tableName.

Definition ofPostgresRow (idx : Row) : ExistingIndex :=
  mkExisting (indexname idx) (indexdef idx) None None.

Definition ofMysqlRow (idx : Row) : ExistingIndex :=
  mkExisting (Key_name idx) None (Column_name idx)
    (Some (match Non_unique idx with Some 0 => true | _ => false end)).

Section Database.

Variable db : Db.

(** The body of the [try] block: the calls it issues, and how it ends. *)
Definition deduplicateIndexes_try (cn : string) (tableName : TableName) (dialect : string)
  : list DbCall * Completion (list ExistingIndex) :=
  if String.eqb dialect "postgres" then
    match tableName with
    | TableObject _ => ([], Throw (TypeError "tableName.toLowerCase is not a function"))
    | TableString t =>
        let sql := postgresIndexQuery t in
        ([CallQuery cn sql], result ← db_query db cn sql; Normal (map ofPostgresRow result))
    end
  else if String.eqb dialect "mysql" then
    let sql := mysqlIndexQuery tableName in
    ([CallQuery cn sql], result ← db_query db cn sql; Normal (map ofMysqlRow result))
  else ([], Normal []).

(** The whole function: an error of the [try] block is caught and
    answered by the empty list. *)
Definition deduplicateIndexes (cn : string) (tableName : TableName) (dialect : string)
  : list DbCall * Completion (list ExistingIndex) :=
  match deduplicateIndexes_try cn tableName dialect with
  | (calls, Throw _) => (calls, Normal [])
  | (calls, Normal existingIndexes) => (calls, Normal existingIndexes)
  end.

(** ** [migrateSchema] (lines 304-443) *)

(** Line 314: [migrate === 'safe']. *)
Definition isSafe (migrate : option string) : bool :=
  match migrate with
  | Some m => String.eqb m "safe"
  | None => false
  end.

(** Lines 317-329. *)
Definition syncFlags (migrate : option string) : bool * bool :=
  match migrate with
  | Some m =>
      if String.eqb m "drop" then (true, false)
      else if String.eqb m "alter" then (false, true)
      else (false, false)
  | None => (false, false)
  end.

(** Line 380: [idx.name || `${tableName}_${idx.fields.join('_')}`]. *)
Definition indexNameOf (tableName : TableName) (idx : IndexSpec) : Completion string :=
  if truthy (idx_name idx) then Normal (default "" (idx_name idx))
  else match idx_fields idx with
       | Some fields => Normal (renderTableName tableName +:+ "_" +:+ join "_" fields)
       | None => Throw (TypeError "Cannot read properties of undefined (reading 'join')")
       end.

(** Lines 381-383. *)
Definition existsNamed (existingIndexes : list ExistingIndex) (indexName : string) : bool :=
  existsb (fun existing =>
             match ex_name existing with
             | Some n => String.eqb n indexName
             | None => false
             end) existingIndexes.

(** Lines 377-388: the loop that builds [newIndexes]. *)
Fixpoint newIndexesOf (tableName : TableName) (existingIndexes : list ExistingIndex)
    (pending : list IndexSpec) : Completion (list IndexSpec) :=
  match pending with
  | [] => Normal []
  | idx :: rest =>
      indexName ← indexNameOf tableName idx;
      newIndexes ← newIndexesOf tableName existingIndexes rest;
      Normal (if existsNamed existingIndexes indexName then newIndexes
              else idx :: newIndexes)
  end.

(** Lines 376-396. *)
Definition filterPending (tableName : TableName) (existingIndexes : list ExistingIndex)
    (pending : option (list IndexSpec)) : Completion (option (list IndexSpec)) :=
  match pending with
  | Some (idx :: rest) =>
      newIndexes ← newIndexesOf tableName existingIndexes (idx :: rest);
      Normal (Some (if (0 <? length newIndexes)%nat then newIndexes else []))
  | _ => Normal pending
  end.

(** The state of a run of [migrateSchema]. *)
Record Run := mkRun {
  run_models : gmap string SailsModel;    (* sails.models *)
  run_calls : list DbCall;                (* calls issued so far, oldest first *)
  run_reports : list string               (* sails.log.info / sails.log.error *)
}.

Definition issue (r : Run) (calls : list DbCall) : Run :=
  mkRun (run_models r) (run_calls r ++ calls)%list (run_reports r).

Definition report (r : Run) (line : string) : Run :=
  mkRun (run_models r) (run_calls r) (run_reports r ++ [line])%list.

(** Lines 361-396: the body of the loop over [models] in the function of
    line 356. *)
Definition dedupModel (cn dialect : string) (r : Run) (modelDef : ModelDef)
  : Run * option JsError :=
  match options modelDef with
  | None => (r, None)
  | Some _ =>
      let key := toLowerCase (globalId modelDef) in
      match getProperty (run_models r) key with
      | Undefined => (r, None)
      | Inherited => (r, Some (notCallable "model" "getTableName" true))
      | Own model =>
          let tableName := getTableName model in
          let '(calls, answer) := deduplicateIndexes cn tableName dialect in
          let r1 := issue r calls in
          match answer with
          | Throw e => (r1, Some e)
          | Normal existingIndexes =>
              match filterPending tableName existingIndexes (_indexes model) with
              | Throw e => (r1, Some e)
              | Normal pending =>
                  (mkRun (<[key := setIndexes model pending]> (run_models r1))
                     (run_calls r1) (run_reports r1), None)
              end
          end
      end
  end.

(** Lines 356-400: what a call of the function of line 356 would do.
    [migrateSchema] stores this function and never calls it. *)
Definition smartMigrateBody (connections : gmap string Connection)
    (models : list (string * ModelDef)) (flags : bool * bool) (cn dialect : string)
    (r : Run) : Run * Completion unit :=
  match getProperty connections cn with
  | Undefined => (r, Throw (notCallable "connection" "getQueryInterface" false))
  | Inherited => (r, Throw (notCallable "connection" "getQueryInterface" true))
  | Own _ =>
      match forIn (fun r entry => dedupModel cn dialect r (snd entry)) r models with
      | (r1, Some e) => (r1, Throw e)
      | (r1, None) =>
          (issue r1 [CallSync cn (fst flags) (snd flags)],
           db_sync db cn (fst flags) (snd flags))
      end
  end.

(** An element of [syncTasks]. *)
Inductive SyncTask :=
| SmartFunction (cn dialect : string)
    (* the [async () => ...] of line 356: a function, not a promise *)
| SchemaPromise (cn : string) (schemas : Completion (list string))
    (* [showAllSchemas().then(...)], line 402 *)
| SyncPromise (cn : string) (settled : Completion unit).
    (* the promise returned by [sync], line 417 *)

(** Lines 405-413: the loop of the callback of line 402. *)
Fixpoint createSchemas (cn : string) (models : list (string * ModelDef))
    (schemas : list string) (r : Run) : Run * option JsError :=
  match models with
  | [] => (r, None)
  | (_, modelDef) :: rest =>
      match options modelDef with
      | None =>
          (r, Some (TypeError "Cannot read properties of undefined (reading 'schema')"))
      | Some opts =>
          let tableSchema := or_default (schema opts) "" in
          if negb (String.eqb tableSchema "") &&
             negb (existsb (String.eqb tableSchema) schemas)
          then createSchemas cn rest (schemas ++ [tableSchema])%list
                 (issue r [CallCreateSchema cn tableSchema])
          else createSchemas cn rest schemas r
      end
  end.

(** Lines 402-415: the callback given to [then], for a listing that
    resolved with [schemas]. *)
Definition afterShowAllSchemas (models : list (string * ModelDef)) (flags : bool * bool)
    (cn : string) (schemas : list string) (r : Run) : Run * Completion unit :=
  match createSchemas cn models schemas r with
  | (r1, Some e) => (r1, Throw e)
  | (r1, None) =>
      (issue r1 [CallSync cn (fst flags) (snd flags)],
       db_sync db cn (fst flags) (snd flags))
  end.

(** [`${flag}`] for a boolean. *)
Definition showBool (b : bool) : string := if b then "true" else "false".

(** The TypeError of [connections[syncConnectionName].method(...)] when
    [connections] has no own property of that name. *)
Definition undefinedConnection (method connectionName : string) : JsError :=
  notCallable "connections[syncConnectionName]" method (inheritedName connectionName).

(** Lines 335-422: the function of line 335 applied to one entry of
    [datastores].  The state is the run and [syncTasks]. *)
Definition visitConnection (cfg : SailsConfig) (connections : gmap string Connection)
    (flags : bool * bool) (st : Run * list SyncTask)
    (entry : string * ConnectionConfig) : (Run * list SyncTask) * option JsError :=
  let '(r, syncTasks) := st in
  let '(connectionName, connectionDescription) := entry in
  match ownership connectionDescription with
  | Throw e => (st, Some e)
  | Normal None => (st, None)
  | Normal (Some dialect) =>
      if dryRun cfg then
        ((report r ("DRY RUN - Would sync database with force=" +:+ showBool (fst flags)
                      +:+ ", alter=" +:+ showBool (snd flags)), syncTasks), None)
      else if smartMigrate cfg && snd flags then
        ((r, syncTasks ++ [SmartFunction connectionName dialect])%list, None)
      else if String.eqb dialect "postgres" then
        match connections !! connectionName with
        | None => (st, Some (undefinedConnection "showAllSchemas" connectionName))
        | Some _ =>
            ((issue r [CallShowAllSchemas connectionName],
              syncTasks ++ [SchemaPromise connectionName
                              (db_showAllSchemas db connectionName)])%list, None)
        end
      else
        match connections !! connectionName with
        | None => (st, Some (undefinedConnection "sync" connectionName))
        | Some _ =>
            ((issue r [CallSync connectionName (fst flags) (snd flags)],
              syncTasks ++ [SyncPromise connectionName
                              (db_sync db connectionName (fst flags) (snd flags))])%list,
             None)
        end
  end.

(** How [Promise.all] sees one element of [syncTasks].  A promise is
    waited for, and its callback runs; any other value, such as a
    function, counts as already resolved and nothing is run. *)
Definition settle (models : list (string * ModelDef)) (flags : bool * bool)
    (task : SyncTask) (r : Run) : Run * Completion unit :=
  match task with
  | SmartFunction _ _ => (r, Normal ())
  | SchemaPromise cn (Normal schemas) => afterShowAllSchemas models flags cn schemas r
  | SchemaPromise cn (Throw e) => (r, Throw e)
  | SyncPromise _ settled => (r, settled)
  end.

(** [Promise.all(syncTasks)]: every task settles (none is cancelled);
    the result is the first rejection, if there is one.  The callbacks
    run in the order of [syncTasks]. *)
Fixpoint promiseAll (models : list (string * ModelDef)) (flags : bool * bool)
    (syncTasks : list SyncTask) (r : Run) : Run * option JsError :=
  match syncTasks with
  | [] => (r, None)
  | task :: rest =>
      let '(r1, c) := settle models flags task r in
      let '(r2, later) := promiseAll models flags rest r1 in
      (r2, match c with Throw e => Some e | Normal _ => later end)
  end.

(** How a call of [migrateSchema] ends: it throws, or it calls [next]. *)
Inductive Outcome :=
| Threw (e : JsError)
| Next (err : option JsError).

Record MigrateResult := mkResult {
  outcome : Outcome;
  syncTasks_built : list SyncTask;
  final : Run
}.

(** Lines 435-441. *)
Definition reportFailure (r : Run) (e : JsError) : Run :=
  let r1 := report r ("Database migration failed: " +:+ err_message e) in
  match err_parent e with
  | Some detail =>
      if String.eqb (err_name e) "SequelizeDatabaseError"
      then report r1 ("Database error details: " +:+ detail)
      else r1
  | None => r1
  end.

Definition migrateSchema (cfg : SailsConfig) (connections : gmap string Connection)
    (models : list (string * ModelDef)) (sailsModels : gmap string SailsModel)
  : MigrateResult :=
  let r0 := mkRun sailsModels [] [] in
  if isSafe (migrate cfg) then mkResult (Next None) [] r0
  else
    let flags := syncFlags (migrate cfg) in
    let datastores := default [] (datastoresOf cfg) in
    match forIn (visitConnection cfg connections flags) (r0, []) datastores with
    | ((r, syncTasks), Some e) => mkResult (Threw e) syncTasks r
    | ((r, syncTasks), None) =>
        if dryRun cfg then
          mkResult (Next None) syncTasks
            (report r "DRY RUN completed - no changes made to database")
        else
          match promiseAll models flags syncTasks r with
          | (r1, None) =>
              mkResult (Next None) syncTasks
                (report r1 "Database migration completed successfully")
          | (r1, Some e) => mkResult (Next (Some e)) syncTasks (reportFailure r1 e)
          end
    end.

End Database.

(** ** [reload] (lines 60-79) *)

Section Reload.

Variable sails_log : string -> option Logging.
Variable newSequelize : Connection -> ConnOptions * option JsError.
Variable define : Connection -> string -> Attributes -> ModelOptions -> SailsModel.
Variable sequelizeMajVersion : nat.
Variable db : Db.

(** [loaded] is what [originalLoadModels] passes to its callback. *)
Definition reload (cfg : SailsConfig) (loaded : option JsError * list (string * ModelDef))
    (s : Sails) : MigrateResult :=
  let untouched := mkRun (sails_models s) [] [] in
  match initConnections sails_log newSequelize cfg with
  | Throw e => mkResult (Threw e) [] untouched
  | Normal connections =>
      let cfg' := configAfterInit sails_log newSequelize cfg in
      match loaded with
      | (Some err, _) => mkResult (Next (Some err)) [] untouched
      | (None, models) =>
          match defineModels define sequelizeMajVersion cfg' models connections s with
          | (s', Some e) => mkResult (Threw e) [] (mkRun (sails_models s') [] [])
          | (s', None) => migrateSchema db cfg' connections models (sails_models s')
          end
      end
  end.

End Reload.

(** ** Concrete configurations, used to run the model *)

Definition sampleLog (level : string) : option Logging := Some (LogFunction level).

(** The scheme of a connection string: what precedes the first colon. *)
Fixpoint urlScheme (u : string) : option string :=
  match u with
  | EmptyString => None
  | String c rest =>
      if Ascii.eqb c ":" then Some ""
      else option_map (String c) (urlScheme rest)
  end.

(** A constructor that does, with the arguments used below, what the one
    of Sequelize 6 does: given a connection string, it stores the scheme of
    the string as [options.dialect]; given four arguments, it throws when
    [options] names no dialect. *)
Definition sampleSequelize (k : Connection) : ConnOptions * option JsError :=
  match k with
  | SequelizeUrl u o =>
      match urlScheme u with
      | Some d => (mkConnOptions (Some d) (co_logging o), None)
      | None => (o, Some (TypeError "Cannot read properties of null (reading 'replace')"))
      end
  | SequelizeParts _ _ _ o =>
      (o, if truthy (co_dialect o) then None
          else Some (PlainError "Dialect needs to be explicitly supplied as of v4.0.0"))
  end.

(** A schema-definition capability that keeps the options as they are
    given and starts with no pending index. *)
Definition defineVerbatim (c : Connection) (name : string) (attrs : Attributes)
    (opts : ModelOptions) : SailsModel :=
  mkModel name (Some c) attrs (Some opts) None
    (if truthy (schema opts)
     then TableObject (or_default (schema opts) "" +:+ "." +:+ or_default (tableName opts) name)
     else TableString (or_default (tableName opts) name))
    ∅ ∅ None.

(** A database with no table and no schema namespace, on which every
    structural call succeeds. *)
Definition freshDb : Db :=
  mkDb (fun _ _ => Normal []) (fun _ => Normal []) (fun _ _ _ => Normal ()).

Definition postgresMain : ConnectionConfig :=
  mkConnectionConfig None (Some "postgres") None (Some "postgres://localhost/app")
    None None None.

Definition mainConnections : gmap string Connection :=
  {[ "main" := SequelizeUrl "postgres://localhost/app" emptyConnOptions ]}.

Definition configOf (ds : Datastores) (migrate : option string) (smart dry : bool)
  : SailsConfig :=
  mkSailsConfig None (Some ds) (Some "main") None migrate smart dry.

(** Scenario A of the specification. *)
Definition scenarioA : SailsConfig :=
  configOf [("main", postgresMain)] (Some "alter") true false.

Definition modelNamed (name : string) (opts : option ModelOptions) : ModelDef :=
  mkModelDef name [] opts AssocUndefined ScopeUndefined None None.

Definition userModels : list (string * ModelDef) :=
  [("user", modelNamed "User" (Some emptyOptions))].

Definition freshSails : Sails := mkSails ∅ SequelizeBelongsToMany [].

(** [sails.models] after [defineModels] on [userModels]. *)
Definition userRegistry : gmap string SailsModel :=
  sails_models (fst (defineModels defineVerbatim 6 scenarioA userModels mainConnections
                       freshSails)).

Definition mainConnection : Connection :=
  SequelizeUrl "postgres://localhost/app" emptyConnOptions.

Definition membersOptions : ModelOptions := mkOptions (Some "members") None None [] [].

(** Two owned definitions whose global identifiers differ only in case. *)
Definition collidingModels : list (string * ModelDef) :=
  [("user", modelNamed "User" (Some emptyOptions));
   ("member", modelNamed "USER" (Some membersOptions))].

(** A database in which every catalog query fails, as for a table that
    does not exist. *)
Definition missingTable : JsError :=
  mkError "SequelizeDatabaseError" "Table 'app.user' doesn't exist"
    (Some "ER_NO_SUCH_TABLE").

Definition missingTableDb : Db :=
  mkDb (fun _ _ => Throw missingTable) (fun _ => Normal []) (fun _ _ _ => Normal ()).

(** An entry that gives only a connection string: no adapter, no dialect
    and no [options]. *)
Definition replicaByUrl : ConnectionConfig :=
  mkConnectionConfig None None None (Some "postgres://replica/app") None None None.

Definition withReplica : SailsConfig :=
  configOf [("main", postgresMain); ("replica", replicaByUrl)] (Some "alter") false false.

(** Scenario D of the specification: a junction model with a declared
    non-unique index on its two key columns, named as [through] in a
    many-to-many association. *)
Definition userRoleIndex : IndexSpec :=
  mkIndex None (Some ["userId"; "roleId"]) (Some false).

Definition userRoleOptions : ModelOptions :=
  mkOptions (Some "user_roles") None (Some [userRoleIndex]) [] [].

Definition throughUserRole : AssocOptions :=
  mkAssocOptions (ThObject (mkThrough (TmClass "UserRole") None)) UkUnset (Some "roles").

Definition userWithRoles : ModelDef :=
  mkModelDef "User" [] (Some emptyOptions)
    (AssocFunction [CallBelongsToMany "User" "Role" throughUserRole])
    ScopeUndefined None None.

Definition scenarioD : list (string * ModelDef) :=
  [("user", userWithRoles);
   ("role", modelNamed "Role" (Some emptyOptions));
   ("userrole", modelNamed "UserRole" (Some userRoleOptions))].

(** The state after the first pass on [scenarioD]. *)
Definition scenarioD_defined : Sails :=
  fst (firstPass defineVerbatim 6 "main" mainConnections freshSails scenarioD).

(** [sails.models] after [defineModels] on [scenarioD]. *)
Definition scenarioD_bound : gmap string SailsModel :=
  sails_models (fst (defineModels defineVerbatim 6 scenarioA scenarioD mainConnections
                       freshSails)).

(** A definition whose [associations] function throws after its call of
    [belongsToMany]. *)
Definition brokenAssociation : JsError :=
  PlainError "User.hasMany called with something that's not a subclass of Sequelize.Model".

Definition userWithBrokenAssociations : ModelDef :=
  mkModelDef "User" [] (Some emptyOptions)
    (AssocFunction [CallBelongsToMany "User" "Role" throughUserRole;
                    ThrowStep brokenAssociation])
    ScopeUndefined None None.

Definition scenarioD_broken : list (string * ModelDef) :=
  [("user", userWithBrokenAssociations);
   ("role", modelNamed "Role" (Some emptyOptions));
   ("userrole", modelNamed "UserRole" (Some userRoleOptions))].

(** The state in which [setAssociation] leaves that throw. *)
Definition afterBrokenAssociation : Sails :=
  fst (setAssociation scenarioD_defined userWithBrokenAssociations).

(** Scenario B of the specification: scenario A as a dry run. *)
Definition scenarioB : SailsConfig :=
  configOf [("main", postgresMain)] (Some "alter") true true.

(** A dry run over the map of [withReplica]. *)
Definition dryWithReplica : SailsConfig :=
  configOf [("main", postgresMain); ("replica", replicaByUrl)] (Some "alter") false true.

(** A MySQL connection given in four parts, with the strategy 'drop'. *)
Definition mysqlOptions : ConnOptions := mkConnOptions (Some "mysql") None.

Definition mysqlMain : ConnectionConfig :=
  mkConnectionConfig None None (Some mysqlOptions) None
    (Some "app") (Some "root") (Some "secret").

Definition mysqlConnections : gmap string Connection :=
  {[ "main" := SequelizeParts (Some "app") (Some "root") (Some "secret") mysqlOptions ]}.

Definition dropConfig : SailsConfig :=
  configOf [("main", mysqlMain)] (Some "drop") false false.

Definition safeConfig : SailsConfig :=
  configOf [("main", mysqlMain)] (Some "safe") true false.

(** The strategy 'alter' without smart migration, on the Postgres
    connection, with a model definition of another data layer (no
    [options]) next to an owned one. *)
Definition alterConfig : SailsConfig :=
  configOf [("main", postgresMain)] (Some "alter") false false.

Definition legacyModels : list (string * ModelDef) :=
  [("user", modelNamed "User" (Some emptyOptions));
   ("legacy", modelNamed "Legacy" None)].

(** A MySQL connection whose [options] ask for logging at a named level,
    next to the store of another data layer. *)
Definition verboseMain : ConnectionConfig :=
  mkConnectionConfig None None (Some (mkConnOptions (Some "mysql") (Some (LogLevel "verbose"))))
    None (Some "app") (Some "root") (Some "secret").

(** An entry owned through its top-level [dialect], given in four parts and
    without [options]. *)
Definition bareMysql : ConnectionConfig :=
  mkConnectionConfig None (Some "mysql") None None (Some "app") (Some "root") (Some "secret").

Definition diskStore : ConnectionConfig :=
  mkConnectionConfig (Some "sails-disk") None None None None None None.

Definition verboseConfig : SailsConfig :=
  configOf [("disk", diskStore); ("main", verboseMain)] (Some "alter") false false.

(** ** Reading back one escape of [JSON.stringify]

    [json_unescape1] reads the escape of one code unit at the head of a
    string; it is the tool for showing that [JSON.stringify] is injective
    on arrays of strings. *)

Definition hex_value (c : ascii) : option nat :=
  let n := nat_of_ascii c in
  if (48 <=? n)%nat && (n <=? 57)%nat then Some (n - 48)
  else if (97 <=? n)%nat && (n <=? 102)%nat then Some (n - 87)
  else None.

Definition json_unescape1 (s : string) : option (ascii * string) :=
  match s with
  | EmptyString => None
  | String c r =>
      if Ascii.eqb c backslash then
        match r with
        | String e r' =>
            if Ascii.eqb e "b" then Some (ascii_of_nat 8, r')
            else if Ascii.eqb e "t" then Some (ascii_of_nat 9, r')
            else if Ascii.eqb e "n" then Some (ascii_of_nat 10, r')
            else if Ascii.eqb e "f" then Some (ascii_of_nat 12, r')
            else if Ascii.eqb e "r" then Some (ascii_of_nat 13, r')
            else if Ascii.eqb e dquote then Some (dquote, r')
            else if Ascii.eqb e backslash then Some (backslash, r')
            else if Ascii.eqb e "u" then
              match r' with
              | String _ (String _ (String h (String l r''))) =>
                  match hex_value h, hex_value l with
                  | Some a, Some b => Some (ascii_of_nat (16 * a + b), r'')
                  | _, _ => None
                  end
              | _ => None
              end
            else None
        | EmptyString => None
        end
      else Some (c, r)
  end.

(** What follows the first element in the text of an array. *)
Definition json_tail (l : list string) : string :=
  match l with
  | [] => ""
  | _ => "," +:+ json_elements l
  end.

(** ** The specification's notion of equal index entries

    The data model of the specification calls two index entries equal when
    their ordered fields and their unique flags agree. *)
Definition specEqual (a b : IndexSpec) : Prop :=
  idx_fields a = idx_fields b /\ idx_unique a = idx_unique b.

(** ** Definitions whose connection exists

    A definition without [options] is skipped by the first pass; one with
    [options] needs the connection that it names. *)
Definition resolves (defaultConnection : string) (connections : gmap string Connection)
    (modelDef : ModelDef) : Prop :=
  options modelDef = None \/
  is_Some (connections !! connectionNameOf defaultConnection modelDef).

(** ** The call of the constructor for an owned entry *)

(** The [options] that lines 108-115 hand to the constructor: the entry's
    own (an empty object when it has none), in which a logging level given
    as a non-empty string stands replaced by what [sails.log] has under that
    name. *)
Definition optionsHanded (sails_log : string -> option Logging) (c : ConnectionConfig)
  : ConnOptions :=
  match conn_options c with
  | None => mkConnOptions None None
  | Some o =>
      mkConnOptions (co_dialect o)
        match co_logging o with
        | Some (LogLevel level) =>
            if bool_decide (level = "") then Some (LogLevel level) else sails_log level
        | other => other
        end
  end.

(** The arguments of the constructor, lines 117-124: the connection string
    and the options when [url] is a non-empty string, else database, user,
    password and the options. *)
Definition callFor (sails_log : string -> option Logging) (c : ConnectionConfig)
  : Connection :=
  match url c with
  | Some u =>
      if bool_decide (u = "")
      then SequelizeParts (database c) (user c) (password c) (optionsHanded sails_log c)
      else SequelizeUrl u (optionsHanded sails_log c)
  | None => SequelizeParts (database c) (user c) (password c) (optionsHanded sails_log c)
  end.

(** ** Owned connections and the connection of a task *)

(** [cn] names an entry of [ds] that the test of lines 340-341 lets pass. *)
Definition ownedIn (ds : Datastores) (cn : string) : Prop :=
  exists c d, (cn, c) ∈ ds /\ ownership c = Normal (Some d).

Definition taskConnection (task : SyncTask) : string :=
  match task with
  | SmartFunction cn _ => cn
  | SchemaPromise cn _ => cn
  | SyncPromise cn _ => cn
  end.

(** A registry in which another data layer has registered a model. *)
Definition waterlineRegistry : gmap string SailsModel :=
  {[ "pet" := mkModel "pet" None [] None None (TableString "pet") ∅ ∅ None ]}.

(** ** Notions used to state further properties *)

(** The connection on which a call is issued. *)
Definition callConnection (call : DbCall) : string :=
  match call with
  | CallQuery cn _ => cn
  | CallShowAllSchemas cn => cn
  | CallCreateSchema cn _ => cn
  | CallSync cn _ _ => cn
  end.

(** The owned entries of a map of connections, in enumeration order, each
    with its dialect. *)
Fixpoint ownedEntries (ds : Datastores) : list (string * string) :=
  match ds with
  | [] => []
  | (cn, c) :: rest =>
      match ownership c with
      | Normal (Some d) => (cn, d) :: ownedEntries rest
      | _ => ownedEntries rest
      end
  end.

(** The element of [syncTasks] that lines 354-421 push for an owned
    connection outside a dry run. *)
Definition taskFor (db : Db) (cfg : SailsConfig) (flags : bool * bool)
    (entry : string * string) : SyncTask :=
  if smartMigrate cfg && snd flags then SmartFunction (fst entry) (snd entry)
  else if String.eqb (snd entry) "postgres"
       then SchemaPromise (fst entry) (db_showAllSchemas db (fst entry))
       else SyncPromise (fst entry) (db_sync db (fst entry) (fst flags) (snd flags)).

(** The condition of line 198 on an entry of [options.indexes]. *)
Definition isJunctionIndex (index : IndexSpec) : bool :=
  isFalse (idx_unique index) &&
  match idx_fields index with
  | Some fields => (2 <=? length fields)%nat
  | None => false
  end.

(** Every entry of [ixs] that passes line 198 has its fields in the pending
    list already, so that the third pass has nothing to add for [ixs]. *)
Definition covered (ixs : list IndexSpec) (pending : option (list IndexSpec)) : Prop :=
  forall index, index ∈ ixs -> isJunctionIndex index = true ->
    exists current p, pending = Some current /\ p ∈ current /\
                      idx_fields p = idx_fields index.

(** Two registry entries that differ at most in [_indexes]. *)
Definition sameButIndexes (m m' : SailsModel) : Prop :=
  m' = setIndexes m (_indexes m').

(** Two registry entries that differ at most in the default scope. *)
Definition sameButScope (m m' : SailsModel) : Prop :=
  m' = mkModel (model_name m) (model_connection m) (model_attributes m) (model_options m)
         (_indexes m) (getTableName m) (model_statics m) (model_prototype m)
         (model_scope m').

(** [m'] is [m] with a pending list that starts with the pending list of
    [m] and goes on with entries that pass line 198. *)
Definition extendsPending (m m' : SailsModel) : Prop :=
  sameButIndexes m m' /\
  exists added,
    default [] (_indexes m') = (default [] (_indexes m) ++ added)%list /\
    Forall (fun index => isJunctionIndex index = true) added.

(** The third pass has nothing to add for [modelDef] in the state [s]. *)
Definition settled (s : Sails) (modelDef : ModelDef) : Prop :=
  forall opts ixs m,
    options modelDef = Some opts ->
    indexes opts = Some ixs ->
    sails_models s !! toLowerCase (globalId modelDef) = Some m ->
    covered ixs (_indexes m).

(** The calls that lines 354-421 issue at once for an owned connection
    outside a dry run: none on the smart-migrate path, the schema listing for
    'postgres', [sync] for any other dialect. *)
Definition callsFor (cfg : SailsConfig) (flags : bool * bool) (entry : string * string)
  : list DbCall :=
  if smartMigrate cfg && snd flags then []
  else if String.eqb (snd entry) "postgres" then [CallShowAllSchemas (fst entry)]
  else [CallSync (fst entry) (fst flags) (snd flags)].

(** How an element of [syncTasks] settles, as [Promise.all] sees it. *)
Definition settles (db : Db) (models : list (string * ModelDef)) (flags : bool * bool)
    (task : SyncTask) : Completion unit :=
  snd (settle db models flags task (mkRun ∅ [] [])).

(** [m'] is [m] with a pending list out of which entries were taken: an
    absent list stays absent. *)
Definition narrowsPending (m m' : SailsModel) : Prop :=
  sameButIndexes m m' /\
  match _indexes m with
  | None => _indexes m' = None
  | Some pending => exists kept, _indexes m' = Some kept /\ kept `sublist_of` pending
  end.

(** [name] is a property that every object inherits. *)
Definition inheritedByEveryObject (name : string) : Prop :=
  name ∈ ["constructor"; "hasOwnProperty"; "isPrototypeOf"; "propertyIsEnumerable";
           "toLocaleString"; "toString"; "valueOf"; "__proto__";
           "__defineGetter__"; "__defineSetter__"; "__lookupGetter__"; "__lookupSetter__"].

(** What makes the loop of lines 360-397 throw [e] at the definition
    [modelDef], for the registry [models]: the definition has [options],
    and either a pending index of its model has neither a name nor fields,
    or the registry has no entry for it while every object inherits a
    property of that name. *)
Definition rejectsAt (models : gmap string SailsModel) (modelDef : ModelDef) (e : JsError)
  : Prop :=
  options modelDef <> None /\
  ((e = TypeError "Cannot read properties of undefined (reading 'join')" /\
    exists m pending idx,
      models !! toLowerCase (globalId modelDef) = Some m /\
      _indexes m = Some pending /\
      idx ∈ pending /\
      truthy (idx_name idx) = false /\
      idx_fields idx = None) \/
   (e = TypeError "model.getTableName is not a function" /\
    models !! toLowerCase (globalId modelDef) = None /\
    inheritedByEveryObject (toLowerCase (globalId modelDef)))).

(** The line that a dry run reports for an owned connection (line 350). *)
Definition dryRunLine (flags : bool * bool) : string :=
  "DRY RUN - Would sync database with force=" +:+ showBool (fst flags)
    +:+ ", alter=" +:+ showBool (snd flags).

(** ** Tactics *)

(** The case of a body of which no step ran to its end. *)
Local Ltac nothing_ran :=
  cbn [fst snd];
  split; [reflexivity | split; [reflexivity |]];
  exists [], [];
  split; [apply prefix_nil | split; [| split; [now rewrite app_nil_r | constructor]]].

(** The cases of [visitConnection] for an entry [(cn, c)]. *)
Local Ltac visit_cases cfg connections cn c :=
  unfold visitConnection;
  destruct (ownership c) as [[?d|] | ?e] eqn:?Hown;
  [ destruct (dryRun cfg) eqn:?Hdry;
    [ | destruct (smartMigrate cfg && _) eqn:?Hsmart;
        [ | destruct (String.eqb _ "postgres") eqn:?Hpg;
            destruct (connections !! cn) as [?k|] eqn:?Hconn ] ]
  | | ];
  cbn [fst snd report issue run_calls run_models run_reports].

(** * Properties *)

(** ** [JSON.stringify] is injective on arrays of strings *)

(** stdpp keeps [simpl] from unfolding [String.append]; the proofs about
    the text of [JSON.stringify] need it to compute on a known head. *)
Local Arguments String.append !_ _ / : simpl nomatch.

Lemma append_assoc (a b c : string) : (a +:+ b) +:+ c = a +:+ (b +:+ c).
Proof. induction a as [|x a IH]; simpl; congruence. Qed.

Lemma json_unescape1_escape (c : ascii) (x : string) :
  json_unescape1 (json_escape c +:+ x) = Some (c, x).
Proof.
  destruct c as [[] [] [] [] [] [] [] []]; reflexivity.
Qed.

Lemma json_escape_head (c : ascii) :
  exists a r, json_escape c = String a r /\ a <> dquote.
Proof.
  destruct c as [[] [] [] [] [] [] [] []];
    eexists; eexists; (split; [reflexivity | discriminate]).
Qed.

Lemma json_escape_all_inj (s1 : string) :
  forall s2 r1 r2,
    json_escape_all s1 +:+ String dquote r1 = json_escape_all s2 +:+ String dquote r2 ->
    s1 = s2 /\ r1 = r2.
Proof.
  induction s1 as [|c1 s1 IH]; intros [|c2 s2] r1 r2 H;
    cbn [json_escape_all] in H; rewrite ?append_assoc in H.
  - injection H as ->. auto.
  - destruct (json_escape_head c2) as (a & r & E & Ha). rewrite E in H.
    simpl in H. congruence.
  - destruct (json_escape_head c1) as (a & r & E & Ha). rewrite E in H.
    simpl in H. congruence.
  - apply (f_equal json_unescape1) in H.
    rewrite !json_unescape1_escape in H.
    injection H as -> H.
    destruct (IH _ _ _ H) as [-> ->]. auto.
Qed.

Lemma append_nil_r (a : string) : a +:+ "" = a.
Proof. induction a as [|x a IH]; simpl; congruence. Qed.

Lemma json_elements_cons (x : string) (l : list string) :
  json_elements (x :: l) = json_quote x +:+ json_tail l.
Proof.
  destruct l; [| reflexivity].
  unfold json_tail. now rewrite append_nil_r.
Qed.

Lemma json_elements_inj (l1 : list string) :
  forall l2 r1 r2,
    json_elements l1 +:+ String "]" r1 = json_elements l2 +:+ String "]" r2 ->
    l1 = l2 /\ r1 = r2.
Proof.
  induction l1 as [|x l1 IH]; intros [|y l2] r1 r2 H.
  - simpl in H. injection H as ->. auto.
  - rewrite json_elements_cons in H. simpl in H. discriminate.
  - rewrite json_elements_cons in H. simpl in H. discriminate.
  - rewrite !json_elements_cons in H. unfold json_quote in H.
    simpl in H. injection H as H.
    rewrite !append_assoc in H. simpl in H.
    apply json_escape_all_inj in H as [-> H].
    destruct l1 as [|x1 l1], l2 as [|y1 l2]; unfold json_tail in H.
    + change (String "]" r1 = String "]" r2) in H. injection H as ->. auto.
    + change (String "]" r1
              = String "," (json_elements (y1 :: l2) +:+ String "]" r2)) in H.
      discriminate.
    + change (String "," (json_elements (x1 :: l1) +:+ String "]" r1)
              = String "]" r2) in H.
      discriminate.
    + change (String "," (json_elements (x1 :: l1) +:+ String "]" r1)
              = String "," (json_elements (y1 :: l2) +:+ String "]" r2)) in H.
      injection H as H. destruct (IH (y1 :: l2) r1 r2 H) as [-> ->]. auto.
Qed.

Lemma JSON_stringify_array_inj (l1 l2 : list string) :
  JSON_stringify_array l1 = JSON_stringify_array l2 -> l1 = l2.
Proof.
  unfold JSON_stringify_array. intros H. simpl in H. injection H as H.
  now apply json_elements_inj in H.
Qed.

(** The test of lines 203-205, [JSON.stringify(idx.fields) ===
    JSON.stringify(index.fields)], for an [index] that has fields: it holds
    exactly when the two lists of fields are the same, element by element
    and in the same order. *)
Lemma same_fields_iff (idx_fs : option (list string)) (fields : list string) :
  strict_eq_ostring (JSON_stringify idx_fs) (JSON_stringify (Some fields)) = true
  <-> idx_fs = Some fields.
Proof.
  destruct idx_fs as [fs|].
  - change (String.eqb (JSON_stringify_array fs) (JSON_stringify_array fields) = true
            <-> Some fs = Some fields).
    rewrite String.eqb_eq. split.
    + intros H. f_equal. now apply JSON_stringify_array_inj.
    + now intros [= ->].
  - split; discriminate.
Qed.

(** ** The module loader *)

Lemma isWaterlineModel_iff (model : ModelDef) :
  isWaterlineModel model = true <->
  options model = None \/ exists o, options model = Some o /\ tableName o = None.
Proof.
  unfold isWaterlineModel. destruct (options model) as [o|].
  - destruct (tableName o) eqn:E; split.
    + discriminate.
    + intros [H | (o' & [= <-] & H)]; congruence.
    + intros _. right. eauto.
    + reflexivity.
  - split; auto.
Qed.

Lemma detectWaterline_elem (modelDefs : list (string * ModelDef)) key model :
  (key, model) ∈ detectWaterline modelDefs <->
  (key, model) ∈ modelDefs /\ isWaterlineModel model = true.
Proof.
  induction modelDefs as [|[k m] rest IH]; simpl.
  - rewrite elem_of_nil. tauto.
  - destruct (isWaterlineModel m) eqn:E; rewrite !elem_of_cons, IH.
    + split.
      * intros [[= -> ->] | [H1 H2]]; auto.
      * intros [[[= -> ->] | H1] H2]; auto.
    + split.
      * intros [H1 H2]; auto.
      * intros [[[= -> ->] | H1] H2]; [congruence | auto].
Qed.

Lemma detectWaterline_sublist (modelDefs : list (string * ModelDef)) :
  detectWaterline modelDefs `sublist_of` modelDefs.
Proof.
  induction modelDefs as [|[k m] rest IH]; simpl.
  - constructor.
  - destruct (isWaterlineModel m); now constructor.
Qed.



(** ** The junction-index accumulation pass *)

Lemma existsb_same_fields (current : list IndexSpec) (fields : list string) :
  existsb (fun idx =>
             strict_eq_ostring (JSON_stringify (idx_fields idx))
                               (JSON_stringify (Some fields))) current = true
  <-> exists p, p ∈ current /\ idx_fields p = Some fields.
Proof.
  rewrite existsb_exists. split.
  - intros (p & Hin & H). exists p. split.
    + now apply list_elem_of_In.
    + now apply same_fields_iff.
  - intros (p & Hin & H). exists p. split.
    + now apply list_elem_of_In.
    + now apply same_fields_iff.
Qed.

Lemma queueIndex_junction (pending : option (list IndexSpec)) (index : IndexSpec)
    (fields : list string) :
  idx_unique index = Some false ->
  idx_fields index = Some fields ->
  2 <= length fields ->
  queueIndex pending index =
    if existsb (fun idx =>
                  strict_eq_ostring (JSON_stringify (idx_fields idx))
                                    (JSON_stringify (Some fields))) (default [] pending)
    then Some (default [] pending)
    else Some (default [] pending ++ [index])%list.
Proof.
  intros Hu Hf Hlen. unfold queueIndex. rewrite Hu, Hf.
  cbn [isFalse andb].
  destruct (Nat.leb_spec 2 (length fields)) as [_ | Hlt]; [reflexivity | lia].
Qed.

(** C6, as the code has it.  In the third pass an entry of [options.indexes]
    with [unique: false] and at least two fields is appended to the pending
    list of the model if and only if no pending index has the same ordered
    list of fields; the unique flag and the name of the pending index play no
    part.  When a pending index has the same fields the list is left as it
    is.  The pass applies this to the entries of [options.indexes] one after
    the other, starting from the model's [_indexes]. *)
Theorem queueIndex_appends_iff_fields_not_pending :
  forall (pending : option (list IndexSpec)) (index : IndexSpec) (fields : list string),
    idx_unique index = Some false ->
    idx_fields index = Some fields ->
    2 <= length fields ->
    (queueIndex pending index = Some (default [] pending ++ [index])%list <->
     forall p, p ∈ default [] pending -> idx_fields p <> Some fields) /\
    ((exists p, p ∈ default [] pending /\ idx_fields p = Some fields) ->
     queueIndex pending index = Some (default [] pending)) /\
    (forall s modelDef opts ixs model,
        options modelDef = Some opts ->
        indexes opts = Some ixs ->
        sails_models s !! toLowerCase (globalId modelDef) = Some model ->
        sails_models (accumulateIndexes s modelDef) !! toLowerCase (globalId modelDef) =
          Some (setIndexes model (fold_left queueIndex ixs (_indexes model)))).
Proof.
  intros pending index fields Hu Hf Hlen.
  rewrite (queueIndex_junction pending index fields Hu Hf Hlen).
  destruct (existsb _ (default [] pending)) eqn:E.
  - apply existsb_same_fields in E as (p & Hin & Hp). split; [| split].
    + split.
      * intros [= H]. apply (f_equal length) in H.
        rewrite length_app in H. simpl in H. lia.
      * intros H. destruct (H p Hin Hp).
    + reflexivity.
    + intros s modelDef opts ixs model Ho Hi Hm.
      unfold accumulateIndexes. rewrite Ho, Hi, Hm. cbn [sails_models setModels].
      apply lookup_insert_eq.
  - split; [| split].
    + split; [| reflexivity].
      intros _ p Hin Hp.
      assert (existsb (fun idx =>
                strict_eq_ostring (JSON_stringify (idx_fields idx))
                                  (JSON_stringify (Some fields))) (default [] pending) = true)
        as E' by (apply existsb_same_fields; eauto).
      congruence.
    + intros H. apply existsb_same_fields in H. congruence.
    + intros s modelDef opts ixs model Ho Hi Hm.
      unfold accumulateIndexes. rewrite Ho, Hi, Hm. cbn [sails_models setModels].
      apply lookup_insert_eq.
Qed.

Lemma queueIndex_appends_iff_fields_not_pending_witness :
  queueIndex (Some [mkIndex (Some "by_user") (Some ["userId"; "orgId"]) (Some false)])
     (mkIndex None (Some ["userId"; "roleId"]) (Some false)) =
  Some [mkIndex (Some "by_user") (Some ["userId"; "orgId"]) (Some false);
        mkIndex None (Some ["userId"; "roleId"]) (Some false)].
Proof.
  destruct (queueIndex_appends_iff_fields_not_pending
              (Some [mkIndex (Some "by_user") (Some ["userId"; "orgId"]) (Some false)])
              (mkIndex None (Some ["userId"; "roleId"]) (Some false))
              ["userId"; "roleId"]) as [H _].
  - reflexivity.
  - reflexivity.
  - simpl. lia.
  - apply H. intros p Hin.
    apply list_elem_of_singleton in Hin. subst p. simpl. discriminate.
Defined.

(** C6 as the specification states it fails: a pending unique index on the
    same fields is not equal to the entry in the sense of the data model
    ([specEqual] compares the unique flag too), and yet the entry is not
    appended. *)
Lemma queueIndex_not_keyed_by_unique_flag :
  let pending := [mkIndex None (Some ["userId"; "roleId"]) (Some true)] in
  let index := mkIndex None (Some ["userId"; "roleId"]) (Some false) in
  idx_unique index = Some false /\
  (exists fields, idx_fields index = Some fields /\ 2 <= length fields) /\
  (forall p, p ∈ pending -> ~ specEqual p index) /\
  queueIndex (Some pending) index <> Some (pending ++ [index])%list /\
  queueIndex (Some pending) index = Some pending.
Proof.
  cbn zeta. split; [reflexivity |]. split; [eexists; split; [reflexivity | simpl; lia] |].
  split; [| split].
  - intros p Hin [_ Hu]. apply list_elem_of_singleton in Hin. subst p. discriminate.
  - vm_compute. discriminate.
  - vm_compute. reflexivity.
Qed.

(** ** Loops *)

Lemma forIn_app {S A : Type} (body : S -> A -> S * option JsError) (s : S) (l1 l2 : list A) :
  forIn body s (l1 ++ l2) =
    match forIn body s l1 with
    | (s', Some e) => (s', Some e)
    | (s', None) => forIn body s' l2
    end.
Proof.
  revert s. induction l1 as [|x l1 IH]; intros s; simpl; [reflexivity |].
  destruct (body s x) as [s' [e|]]; [reflexivity | apply IH].
Qed.

(** A loop none of whose steps throws runs to its end, and a property that
    every step preserves holds of the final state. *)
Lemma forIn_invariant {S A : Type} (body : S -> A -> S * option JsError)
    (Inv : S -> Prop) (l : list A) :
  (forall s x, x ∈ l -> Inv s -> Inv (fst (body s x))) ->
  forall s, Inv s -> Inv (fst (forIn body s l)).
Proof.
  induction l as [|x l IH]; intros Hstep s Hs; simpl; [exact Hs |].
  pose proof (Hstep s x (list_elem_of_here _ _) Hs) as H1.
  destruct (body s x) as [s' [e|]]; [exact H1 |].
  apply IH; [| exact H1].
  intros s0 y Hy. apply Hstep. now apply list_elem_of_further.
Qed.

(** ** The model-definition pass *)

Lemma defineModel_owned define version defaultConnection connections s modelDef opts c :
  options modelDef = Some opts ->
  connections !! connectionNameOf defaultConnection modelDef = Some c ->
  defineModel define version defaultConnection connections s modelDef =
    (setModels s
       (<[toLowerCase (globalId modelDef) :=
            mergeMethods version opts
              (define c (globalId modelDef) (attributes modelDef) opts)]>
          (sails_models s)), None).
Proof.
  intros Ho Hc. unfold defineModel, getProperty. rewrite Ho. cbn zeta. now rewrite Hc.
Qed.

Lemma defineModel_foreign define version defaultConnection connections s modelDef :
  options modelDef = None ->
  defineModel define version defaultConnection connections s modelDef = (s, None).
Proof. intros Ho. unfold defineModel. now rewrite Ho. Qed.

Lemma firstPass_resolved define version defaultConnection connections models :
  Forall (fun entry => resolves defaultConnection connections (snd entry)) models ->
  forall s, snd (firstPass define version defaultConnection connections s models) = None.
Proof.
  unfold firstPass.
  induction 1 as [|[k d] rest [Hnone | [c Hc]] _ IH]; intros s; simpl; [reflexivity | |].
  - rewrite defineModel_foreign by exact Hnone. apply IH.
  - destruct (options d) as [opts|] eqn:Ho.
    + rewrite (defineModel_owned _ _ _ _ _ _ opts c Ho Hc). apply IH.
    + rewrite defineModel_foreign by exact Ho. apply IH.
Qed.

(** Definitions that resolve to other identifiers leave an entry alone. *)
Lemma firstPass_other_keys define version defaultConnection connections key models :
  Forall (fun entry =>
            options (snd entry) <> None ->
            toLowerCase (globalId (snd entry)) <> key) models ->
  forall s,
    sails_models (fst (firstPass define version defaultConnection connections s models))
      !! key = sails_models s !! key.
Proof.
  unfold firstPass.
  induction 1 as [|[k d] rest Hd _ IH]; intros s; simpl; [reflexivity |].
  unfold defineModel at 1. cbn [snd] in *.
  destruct (options d) as [opts|] eqn:Ho; [| apply IH].
  cbn zeta.
  destruct (getProperty connections (connectionNameOf defaultConnection d)) as [c| |];
    [| reflexivity | reflexivity].
  rewrite IH. cbn [sails_models setModels].
  apply lookup_insert_ne. apply Hd. discriminate.
Qed.




(** ** Index introspection *)

(** C9.  [deduplicateIndexes] never propagates an error: its promise always
    resolves with a list.  For a dialect other than 'postgres' and 'mysql'
    it issues no query and resolves with the empty list; and whenever the
    body of its [try] block throws, in particular when the catalog query on
    a supported dialect is rejected, it resolves with the empty list. *)
Theorem deduplicateIndexes_never_rejects :
  forall (db : Db) (cn : string) (tableName : TableName) (dialect : string),
    (exists existingIndexes,
        snd (deduplicateIndexes db cn tableName dialect) = Normal existingIndexes) /\
    (dialect <> "postgres" -> dialect <> "mysql" ->
     deduplicateIndexes db cn tableName dialect = ([], Normal [])) /\
    (forall e,
        snd (deduplicateIndexes_try db cn tableName dialect) = Throw e ->
        snd (deduplicateIndexes db cn tableName dialect) = Normal []) /\
    (forall sql e,
        dialect = "postgres" \/ dialect = "mysql" ->
        CallQuery cn sql ∈ fst (deduplicateIndexes db cn tableName dialect) ->
        db_query db cn sql = Throw e ->
        snd (deduplicateIndexes db cn tableName dialect) = Normal []).
Proof.
  intros db cn tableName dialect. unfold deduplicateIndexes, deduplicateIndexes_try.
  destruct (String.eqb_spec dialect "postgres") as [-> | Hpg].
  - destruct tableName as [t | rendered]; cbn [fst snd].
    + destruct (db_query db cn (postgresIndexQuery t)) as [rows | e0] eqn:Q;
        cbn [mbind completion_bind fst snd].
      * repeat split; eauto; try congruence.
        intros sql e _ Hin Hq. apply list_elem_of_singleton in Hin.
        injection Hin as ->. congruence.
      * repeat split; eauto; congruence.
    + repeat split; eauto; try congruence.
  - destruct (String.eqb_spec dialect "mysql") as [-> | Hmy]; cbn [fst snd].
    + destruct (db_query db cn (mysqlIndexQuery tableName)) as [rows | e0] eqn:Q;
        cbn [mbind completion_bind fst snd].
      * repeat split; eauto; try congruence.
        intros sql e _ Hin Hq. apply list_elem_of_singleton in Hin.
        injection Hin as ->. congruence.
      * repeat split; eauto; congruence.
    + repeat split; eauto.
Qed.

Lemma deduplicateIndexes_never_rejects_witness :
  deduplicateIndexes missingTableDb "main" (TableString "user") "sqlite" = ([], Normal []) /\
  snd (deduplicateIndexes missingTableDb "main" (TableString "user") "mysql") = Normal [].
Proof.
  destruct (deduplicateIndexes_never_rejects missingTableDb "main" (TableString "user")
              "sqlite") as (_ & H1 & _).
  destruct (deduplicateIndexes_never_rejects missingTableDb "main" (TableString "user")
              "mysql") as (_ & _ & _ & H2).
  split.
  - apply H1; discriminate.
  - apply (H2 "SHOW INDEX FROM user" missingTable).
    + right. reflexivity.
    + apply list_elem_of_here.
    + reflexivity.
Defined.

(** ** Names inherited from [Object.prototype] *)

Lemma inheritedName_elem (name : string) :
  inheritedName name = true /\ name ∈ objectPrototypeNames \/
  inheritedName name = false /\ name ∉ objectPrototypeNames.
Proof.
  unfold inheritedName. induction objectPrototypeNames as [|n l IH]; cbn [existsb].
  - right. split; [reflexivity | apply not_elem_of_nil].
  - destruct (String.eqb_spec name n) as [-> | Hne]; cbn [orb].
    + left. split; [reflexivity | apply list_elem_of_here].
    + destruct IH as [[-> Hin] | [-> Hnot]]; [left | right]; split; try reflexivity.
      * now apply list_elem_of_further.
      * apply not_elem_of_cons. auto.
Qed.

Lemma getProperty_own {A : Type} (obj : gmap string A) (name : string) (a : A) :
  obj !! name = Some a -> getProperty obj name = Own a.
Proof. intros H. unfold getProperty. now rewrite H. Qed.

(** ** Connection building *)

(** What [construct] does, in the words of [optionsHanded] and [callFor]:
    the constructor is called with [callFor], the entry keeps the [options]
    object as the constructor leaves it, and the connection is the one of
    that call unless the constructor throws. *)
Lemma construct_callFor sails_log newSequelize (c : ConnectionConfig) :
  construct sails_log newSequelize c =
    (mkConnectionConfig (adapter c) (dialect c)
       (Some (fst (newSequelize (callFor sails_log c)))) (url c)
       (database c) (user c) (password c),
     match snd (newSequelize (callFor sails_log c)) with
     | Some e => Throw e
     | None => Normal (callFor sails_log c)
     end).
Proof.
  assert (normalizeLogging sails_log (default emptyConnOptions (conn_options c))
          = optionsHanded sails_log c) as Ho.
  { unfold normalizeLogging, optionsHanded, emptyConnOptions.
    destruct (conn_options c) as [[d l]|]; cbn; [| reflexivity].
    destruct l as [[level | f |] |]; try reflexivity.
    destruct (String.eqb_spec level "") as [-> | Hne].
    - now rewrite bool_decide_eq_true_2.
    - now rewrite bool_decide_eq_false_2. }
  assert ((if truthy (url c)
           then SequelizeUrl (default "" (url c)) (optionsHanded sails_log c)
           else SequelizeParts (database c) (user c) (password c)
                  (optionsHanded sails_log c)) = callFor sails_log c) as Hk.
  { unfold callFor, truthy. destruct (url c) as [u|]; [| reflexivity]. cbn.
    destruct (String.eqb_spec u "") as [-> | Hne].
    - now rewrite bool_decide_eq_true_2.
    - now rewrite bool_decide_eq_false_2. }
  unfold construct. rewrite Ho, Hk.
  now destruct (newSequelize (callFor sails_log c)) as [o' [e|]].
Qed.

(** An entry that the loop has handled has an [options] object, whatever
    the constructor wrote: the ownership test does not throw on it. *)
Lemma ownership_construct sails_log newSequelize (c : ConnectionConfig) :
  exists o, ownership (fst (construct sails_log newSequelize c)) = Normal o.
Proof.
  rewrite construct_callFor. unfold ownership. cbn [fst adapter dialect conn_options].
  destruct (truthy (adapter c)); [eauto |].
  destruct (truthy (dialect c)); eauto.
Qed.

Lemma initLoop_cons sails_log newSequelize name c rest connections :
  initLoop sails_log newSequelize ((name, c) :: rest) connections =
    match ownership c with
    | Throw e => mkInitRun ((name, c) :: rest) connections (Some e)
    | Normal None =>
        let r := initLoop sails_log newSequelize rest connections in
        mkInitRun ((name, c) :: init_datastores r) (init_connections r) (init_thrown r)
    | Normal (Some _) =>
        match snd (construct sails_log newSequelize c) with
        | Throw e =>
            mkInitRun ((name, fst (construct sails_log newSequelize c)) :: rest)
              connections (Some e)
        | Normal k =>
            let r := initLoop sails_log newSequelize rest (<[name := k]> connections) in
            mkInitRun ((name, fst (construct sails_log newSequelize c)) :: init_datastores r)
              (init_connections r) (init_thrown r)
        end
    end.
Proof.
  cbn [initLoop]. destruct (ownership c) as [[d|] | e]; try reflexivity.
  now destruct (construct sails_log newSequelize c) as [c' [k | e]].
Qed.

(** When the loop does not throw, no entry makes the ownership test throw,
    before or after the writes, an entry that the loop skipped is as it
    was, and every owned entry has its connection in the map. *)
Lemma initLoop_returns sails_log newSequelize (ds : Datastores) :
  forall connections,
    init_thrown (initLoop sails_log newSequelize ds connections) = None ->
    Forall2 (fun before after =>
               fst before = fst after /\
               exists o o', ownership (snd before) = Normal o /\
                            ownership (snd after) = Normal o' /\
                            (o = None -> o' = None))
      ds (init_datastores (initLoop sails_log newSequelize ds connections)) /\
    (forall name, is_Some (connections !! name) ->
                  is_Some (init_connections (initLoop sails_log newSequelize ds connections)
                             !! name)) /\
    (forall name c d, (name, c) ∈ ds -> ownership c = Normal (Some d) ->
                      is_Some (init_connections
                                 (initLoop sails_log newSequelize ds connections) !! name)).
Proof.
  induction ds as [|[name c] rest IH]; intros connections Hret.
  - repeat split; [constructor | auto |].
    intros ? ? ? Hin. now apply elem_of_nil in Hin.
  - rewrite initLoop_cons in Hret |- *.
    destruct (ownership c) as [[d|] | e] eqn:Ho; [| | discriminate].
    + destruct (ownership_construct sails_log newSequelize c) as [o' Ho'].
      destruct (snd (construct sails_log newSequelize c)) as [k | e]; [| discriminate].
      cbn [init_thrown init_datastores init_connections] in Hret |- *.
      destruct (IH _ Hret) as (H1 & H2 & H3).
      assert (is_Some (init_connections
                         (initLoop sails_log newSequelize rest (<[name := k]> connections))
                         !! name))
        as Hname by (apply H2; rewrite lookup_insert_eq; eauto).
      repeat split.
      * constructor; [| exact H1]. cbn [fst snd]. split; [reflexivity |].
        exists (Some d), o'. split; [exact Ho | split; [exact Ho' | discriminate]].
      * intros n Hn. apply H2.
        destruct (decide (name = n)) as [-> | Hne];
          [rewrite lookup_insert_eq; eauto | now rewrite lookup_insert_ne].
      * intros n c0 d0 Hin Hown. apply elem_of_cons in Hin as [[= -> ->] | Hin]; eauto.
    + cbn [init_thrown init_datastores init_connections] in Hret |- *.
      destruct (IH _ Hret) as (H1 & H2 & H3).
      repeat split; auto.
      * constructor; [| exact H1]. cbn [fst snd]. split; [reflexivity |].
        exists None, None. split; [exact Ho | split; [exact Ho | reflexivity]].
      * intros n c0 d0 Hin Hown. apply elem_of_cons in Hin as [[= -> ->] | Hin]; eauto.
        congruence.
Qed.

(** The map holds nothing but connections of owned entries. *)
Lemma initLoop_only_owned sails_log newSequelize (ds : Datastores) :
  forall connections name,
    is_Some (init_connections (initLoop sails_log newSequelize ds connections) !! name) ->
    is_Some (connections !! name) \/
    exists c d, (name, c) ∈ ds /\ ownership c = Normal (Some d).
Proof.
  induction ds as [|[n c] rest IH]; intros connections name H; [auto |].
  rewrite initLoop_cons in H.
  destruct (ownership c) as [[d|] | e] eqn:Ho; [| | auto].
  - destruct (snd (construct sails_log newSequelize c)) as [k | e]; [| auto].
    cbn [init_connections] in H.
    destruct (IH _ _ H) as [Hs | (c0 & d0 & Hin & Hown)].
    + destruct (decide (n = name)) as [-> | Hne].
      * right. exists c, d. split; [apply list_elem_of_here | exact Ho].
      * rewrite lookup_insert_ne in Hs by exact Hne. auto.
    + right. exists c0, d0. split; [now apply list_elem_of_further | exact Hown].
  - cbn [init_connections] in H.
    destruct (IH _ _ H) as [Hs | (c0 & d0 & Hin & Hown)]; [auto |].
    right. exists c0, d0. split; [now apply list_elem_of_further | exact Hown].
Qed.

(** The loop throws only at an entry on which the ownership test throws or
    whose construction throws. *)
Lemma initLoop_classified sails_log newSequelize (ds : Datastores) :
  Forall (fun entry => exists o, ownership (snd entry) = Normal o) ds ->
  (forall name c d, (name, c) ∈ ds -> ownership c = Normal (Some d) ->
                    snd (newSequelize (callFor sails_log c)) = None) ->
  forall connections, init_thrown (initLoop sails_log newSequelize ds connections) = None.
Proof.
  induction 1 as [|[name c] rest [o Ho] _ IH]; intros Hacc connections; [reflexivity |].
  rewrite initLoop_cons. cbn [snd] in Ho. rewrite Ho.
  assert (forall n c0 d0, (n, c0) ∈ rest -> ownership c0 = Normal (Some d0) ->
                          snd (newSequelize (callFor sails_log c0)) = None) as Hrest.
  { intros n c0 d0 Hin. apply (Hacc n). now apply list_elem_of_further. }
  destruct o as [d|]; [| cbn [init_thrown]; now apply IH].
  rewrite construct_callFor. cbn [snd].
  rewrite (Hacc name c d (list_elem_of_here _ _) Ho). cbn [init_thrown]. now apply IH.
Qed.

(** The fatal configuration error: without the default connection name in
    the map, [initConnections] throws before it constructs anything. *)
Lemma initConnections_default_absent sails_log newSequelize (cfg : SailsConfig)
    (ds : Datastores) :
  datastoresOf cfg = Some ds ->
  hasOwnProperty ds (defaultConnectionName cfg) = false ->
  initConnections sails_log newSequelize cfg =
    Throw (defaultNotFound (defaultConnectionName cfg)) /\
  init_connections (initRun sails_log newSequelize cfg) = ∅.
Proof.
  intros Hds Hno. unfold initConnections, initRun. rewrite Hds, Hno. auto.
Qed.

(** With the default name present, every entry carrying an adapter marker,
    a dialect or an [options] object, and a constructor that accepts every
    owned entry, [initConnections] returns a map whose keys are exactly the
    names of the owned entries. *)
Lemma initConnections_classified sails_log newSequelize (cfg : SailsConfig)
    (ds : Datastores) :
  datastoresOf cfg = Some ds ->
  hasOwnProperty ds (defaultConnectionName cfg) = true ->
  Forall (fun entry => exists o, ownership (snd entry) = Normal o) ds ->
  (forall name c d, (name, c) ∈ ds -> ownership c = Normal (Some d) ->
                    snd (newSequelize (callFor sails_log c)) = None) ->
  exists connections,
    initConnections sails_log newSequelize cfg = Normal connections /\
    forall name,
      is_Some (connections !! name) <->
      exists c d, (name, c) ∈ ds /\ ownership c = Normal (Some d).
Proof.
  intros Hds Hdef Hcl Hacc.
  pose proof (initLoop_classified sails_log newSequelize ds Hcl Hacc ∅) as Hret.
  exists (init_connections (initLoop sails_log newSequelize ds ∅)). split.
  - unfold initConnections, initRun. rewrite Hds, Hdef. now rewrite Hret.
  - intros name. split.
    + intros H. apply initLoop_only_owned in H as [H | H]; [| exact H].
      rewrite lookup_empty in H. now destruct H.
    + intros (c & d & Hin & Hown).
      destruct (initLoop_returns sails_log newSequelize ds ∅ Hret) as (_ & _ & H). eauto.
Qed.

(** C7, at a configuration on which the code departs from it.  The default
    connection name 'main' is in the map, and yet [initConnections] throws:
    the entry 'replica' has neither an adapter marker, nor a dialect, nor an
    [options] object, and the test of line 104 reads [options.dialect] of
    it.  The throw comes after the connection for 'main' was constructed. *)
Theorem initConnections_throws_with_default_present :
  datastoresOf withReplica = Some [("main", postgresMain); ("replica", replicaByUrl)] /\
  hasOwnProperty [("main", postgresMain); ("replica", replicaByUrl)]
    (defaultConnectionName withReplica) = true /\
  initConnections sampleLog sampleSequelize withReplica =
    Throw (TypeError "Cannot read properties of undefined (reading 'dialect')") /\
  init_connections (initRun sampleLog sampleSequelize withReplica) !! "main" = Some mainConnection.
Proof. repeat split; vm_compute; reflexivity. Qed.

(** ** Association wiring *)

Lemma hasNonUniqueIndex_iff (ixs : list IndexSpec) :
  hasNonUniqueIndex ixs = true <->
  exists idx, idx ∈ ixs /\ idx_unique idx = Some false /\
              exists fields, idx_fields idx = Some fields /\ length fields = 2.
Proof.
  unfold hasNonUniqueIndex. rewrite existsb_exists. split.
  - intros (idx & Hin & H). exists idx. apply list_elem_of_In in Hin.
    apply andb_true_iff in H as [Hu Hf]. split; [exact Hin |].
    destruct (idx_unique idx) as [[]|]; try discriminate. split; [reflexivity |].
    destruct (idx_fields idx) as [fields|]; [| discriminate].
    exists fields. split; [reflexivity |]. now apply Nat.eqb_eq.
  - intros (idx & Hin & Hu & fields & Hf & Hlen). exists idx.
    split; [now apply list_elem_of_In |].
    rewrite Hu, Hf. cbn [isFalse andb]. now apply Nat.eqb_eq.
Qed.

Lemma suppressForThrough_through models name o :
  through (suppressForThrough models name o) = through o.
Proof.
  unfold suppressForThrough.
  destruct (models !! toLowerCase name) as [m|]; [| reflexivity].
  destruct (model_options m) as [opts|]; [| reflexivity].
  destruct (indexes opts) as [ixs|]; [| reflexivity].
  destruct (hasNonUniqueIndex ixs); reflexivity.
Qed.

Lemma suppressForThrough_keeps_false models name o :
  uniqueKey o = UkFalse -> uniqueKey (suppressForThrough models name o) = UkFalse.
Proof.
  intros H. unfold suppressForThrough.
  destruct (models !! toLowerCase name) as [m|]; [| exact H].
  destruct (model_options m) as [opts|]; [| exact H].
  destruct (indexes opts) as [ixs|]; [| exact H].
  destruct (hasNonUniqueIndex ixs); [reflexivity | exact H].
Qed.

(** The replacement never touches [through], and never takes back a
    [uniqueKey] that is already [false]. *)
Lemma intercept_preserves models o o' :
  intercept models o = Normal o' ->
  through o' = through o /\ (uniqueKey o = UkFalse -> uniqueKey o' = UkFalse).
Proof.
  unfold intercept. destruct (through o) as [| | |t] eqn:Ht; try (intros [= <-]; auto).
  assert (forall o1, through o1 = through o ->
                     (uniqueKey o = UkFalse -> uniqueKey o1 = UkFalse) ->
                     Normal (if isFalse (through_unique t) then suppressUniqueKey o1 else o1)
                       = Normal o' ->
                     through o' = ThObject t /\ (uniqueKey o = UkFalse -> uniqueKey o' = UkFalse))
    as Hlast.
  { intros o1 H1 H2 [= <-]. destruct (isFalse (through_unique t)); cbn; split; auto;
      congruence. }
  destruct (through_model t) as [| name | name]; cbn [mbind completion_bind].
  - apply Hlast; auto.
  - destruct (String.eqb name ""); cbn [mbind completion_bind]; apply Hlast; auto.
    + apply suppressForThrough_through.
    + apply suppressForThrough_keeps_false.
  - destruct (String.eqb name ""); cbn [mbind completion_bind]; [discriminate |].
    apply Hlast.
    + apply suppressForThrough_through.
    + apply suppressForThrough_keeps_false.
Qed.

(** Lines 226-242: for an object-form [through] that resolves to a model of
    the registry whose options declare a non-unique index on two fields, the
    replacement turns [uniqueKey] off. *)
Lemma intercept_suppresses models o t name m opts ixs :
  through o = ThObject t ->
  through_model t = TmString name \/ through_model t = TmClass name ->
  name <> "" ->
  models !! toLowerCase name = Some m ->
  model_options m = Some opts ->
  indexes opts = Some ixs ->
  hasNonUniqueIndex ixs = true ->
  exists o', intercept models o = Normal o' /\ uniqueKey o' = UkFalse.
Proof.
  intros Ht Hm Hname Hlook Hopts Hixs Hnu.
  assert (uniqueKey (suppressForThrough models name o) = UkFalse) as Hs.
  { unfold suppressForThrough. now rewrite Hlook, Hopts, Hixs, Hnu. }
  apply String.eqb_neq in Hname.
  unfold intercept. rewrite Ht.
  destruct Hm as [-> | ->]; rewrite Hname; cbn [mbind completion_bind];
    (eexists; split; [reflexivity |]);
    destruct (isFalse (through_unique t)); auto.
Qed.

Lemma invokeBelongsToMany_preserves impl models source target :
  forall o call,
    invokeBelongsToMany impl models source target o = Normal call ->
    call_source call = source /\ call_target call = target /\
    through (call_options call) = through o /\
    (uniqueKey o = UkFalse -> uniqueKey (call_options call) = UkFalse).
Proof.
  induction impl as [|original IH]; intros o call H; cbn [invokeBelongsToMany] in H.
  - injection H as <-. auto.
  - destruct (intercept models o) as [o'|e] eqn:Hi; cbn [mbind completion_bind] in H;
      [| discriminate].
    apply intercept_preserves in Hi as [Ht Hu].
    destruct (IH _ _ H) as (H1 & H2 & H3 & H4).
    repeat split; auto; congruence.
Qed.

(** The calls of a body, as they reach the method of the library: the steps
    that ran ([executed], all of the body when it returns) and one call for
    each of them, appended to the log.  Nothing else changes. *)
Lemma runAssociations_calls (body : list AssocStep) :
  forall s,
    sails_models (fst (runAssociations s body)) = sails_models s /\
    belongsToMany (fst (runAssociations s body)) = belongsToMany s /\
    exists executed calls,
      executed `prefix_of` body /\
      (snd (runAssociations s body) = None -> executed = body) /\
      association_calls (fst (runAssociations s body)) = (association_calls s ++ calls)%list /\
      Forall2 (fun step call =>
                 exists source target o,
                   step = CallBelongsToMany source target o /\
                   invokeBelongsToMany (belongsToMany s) (sails_models s) source target o
                     = Normal call)
        executed calls.
Proof.
  induction body as [|[source target o | e] rest IH]; intros s; cbn [runAssociations].
  - nothing_ran. reflexivity.
  - destruct (invokeBelongsToMany (belongsToMany s) (sails_models s) source target o)
      as [call | e] eqn:Hcall.
    + destruct (IH (mkSails (sails_models s) (belongsToMany s)
                      (association_calls s ++ [call])%list))
        as (Hm & Hb & executed & calls & Hpre & Hall & Hlog & Hcalls).
      cbn [sails_models belongsToMany association_calls] in *.
      split; [exact Hm | split; [exact Hb |]].
      exists (CallBelongsToMany source target o :: executed), (call :: calls).
      split; [now apply prefix_cons | split; [| split]].
      * intros Hn. f_equal. auto.
      * rewrite Hlog. now rewrite <- app_assoc.
      * constructor; [| exact Hcalls]. eauto.
    + nothing_ran. discriminate.
  - nothing_ran. discriminate.
Qed.

(** When the [associations] function throws, line 258 is not reached and
    the replacement stays installed. *)
Lemma setAssociation_throw_keeps_replacement s modelDef body e :
  associations modelDef = AssocFunction body ->
  snd (setAssociation s modelDef) = Some e ->
  belongsToMany (fst (setAssociation s modelDef)) = Intercepting (belongsToMany s).
Proof.
  intros Ha. unfold setAssociation. rewrite Ha.
  pose proof (runAssociations_calls body
                (setBelongsToMany s (Intercepting (belongsToMany s)))) as (_ & Hb & _).
  destruct (runAssociations _ body) as [s2 [e'|]]; cbn [fst snd] in *; [| discriminate].
  intros _. exact Hb.
Qed.

(** While the [associations] function of a definition runs, every
    [belongsToMany] call that it makes reaches the method of the library
    with the same source, target and [through]; and when [through] is an
    object whose [model] resolves, by lower-cased name, to a model of the
    registry whose options declare an index with [unique: false] on exactly
    two fields, it reaches it with [uniqueKey] set to [false].  When the
    function has returned, [Sequelize.Model.belongsToMany] is again what it
    was before the call, so that later calls behave as before; the registry
    is not touched.  (Nothing is restored when the function throws: see
    [setAssociation_throw_keeps_replacement] and the theorem after this
    one.) *)
Theorem setAssociation_suppresses_uniqueKey_during_call :
  forall (s : Sails) (modelDef : ModelDef) (body : list AssocStep),
    associations modelDef = AssocFunction body ->
    (exists executed calls,
        executed `prefix_of` body /\
        (snd (setAssociation s modelDef) = None -> executed = body) /\
        association_calls (fst (setAssociation s modelDef)) =
          (association_calls s ++ calls)%list /\
        Forall2 (fun step call =>
                   exists source target o,
                     step = CallBelongsToMany source target o /\
                     call_source call = source /\
                     call_target call = target /\
                     through (call_options call) = through o /\
                     forall t name m opts ixs,
                       through o = ThObject t ->
                       through_model t = TmString name \/ through_model t = TmClass name ->
                       name <> "" ->
                       sails_models s !! toLowerCase name = Some m ->
                       model_options m = Some opts ->
                       indexes opts = Some ixs ->
                       (exists idx, idx ∈ ixs /\ idx_unique idx = Some false /\
                                    exists fields, idx_fields idx = Some fields /\
                                                   length fields = 2) ->
                       uniqueKey (call_options call) = UkFalse)
          executed calls) /\
    sails_models (fst (setAssociation s modelDef)) = sails_models s /\
    (snd (setAssociation s modelDef) = None ->
     belongsToMany (fst (setAssociation s modelDef)) = belongsToMany s /\
     forall source target o,
       invokeBelongsToMany (belongsToMany (fst (setAssociation s modelDef)))
         (sails_models (fst (setAssociation s modelDef))) source target o =
       invokeBelongsToMany (belongsToMany s) (sails_models s) source target o).
Proof.
  intros s modelDef body Ha. unfold setAssociation. rewrite Ha.
  pose proof (runAssociations_calls body
                (setBelongsToMany s (Intercepting (belongsToMany s))))
    as (Hm & Hb & executed & calls & Hpre & Hall & Hlog & Hcalls).
  cbn [setBelongsToMany sails_models belongsToMany association_calls] in *.
  assert (Forall2
            (fun step call =>
               exists source target o,
                 step = CallBelongsToMany source target o /\
                 call_source call = source /\
                 call_target call = target /\
                 through (call_options call) = through o /\
                 forall t name m opts ixs,
                   through o = ThObject t ->
                   through_model t = TmString name \/ through_model t = TmClass name ->
                   name <> "" ->
                   sails_models s !! toLowerCase name = Some m ->
                   model_options m = Some opts ->
                   indexes opts = Some ixs ->
                   (exists idx, idx ∈ ixs /\ idx_unique idx = Some false /\
                                exists fields, idx_fields idx = Some fields /\
                                               length fields = 2) ->
                   uniqueKey (call_options call) = UkFalse)
            executed calls) as Hspec.
  { eapply Forall2_impl; [exact Hcalls |].
    intros step call (source & target & o & -> & Hinv).
    exists source, target, o. split; [reflexivity |].
    cbn [invokeBelongsToMany] in Hinv.
    destruct (intercept (sails_models s) o) as [o'|e] eqn:Hi;
      cbn [mbind completion_bind] in Hinv; [| discriminate].
    destruct (invokeBelongsToMany_preserves _ _ _ _ _ _ Hinv) as (H1 & H2 & H3 & H4).
    destruct (intercept_preserves _ _ _ Hi) as [Ht _].
    repeat split; auto; [congruence |].
    intros t name m opts ixs Hthrough Hmodel Hname Hlook Hopts Hixs Hidx.
    apply hasNonUniqueIndex_iff in Hidx.
    destruct (intercept_suppresses _ _ _ _ _ _ _ Hthrough Hmodel Hname Hlook Hopts Hixs Hidx)
      as (o1 & Ho1 & Hfalse).
    apply H4. congruence. }
  destruct (runAssociations _ body) as [s2 [e|]]; cbn [fst snd] in *.
  - split; [| split]; [| exact Hm | discriminate].
    exists executed, calls. auto.
  - split; [| split].
    + exists executed, calls. auto.
    + exact Hm.
    + intros _. split; [reflexivity |]. intros.
      cbn [setBelongsToMany sails_models belongsToMany]. now rewrite Hm.
Qed.

Lemma setAssociation_suppresses_uniqueKey_during_call_witness :
  exists call,
    association_calls (fst (setAssociation scenarioD_defined userWithRoles)) = [call] /\
    uniqueKey (call_options call) = UkFalse /\
    belongsToMany (fst (setAssociation scenarioD_defined userWithRoles)) =
      SequelizeBelongsToMany.
Proof.
  destruct (setAssociation_suppresses_uniqueKey_during_call scenarioD_defined userWithRoles
              [CallBelongsToMany "User" "Role" throughUserRole] eq_refl)
    as ((executed & calls & _ & Hall & Hlog & Hcalls) & _ & Hret).
  assert (snd (setAssociation scenarioD_defined userWithRoles) = None) as Hnone
    by (vm_compute; reflexivity).
  rewrite (Hall Hnone) in Hcalls.
  inversion Hcalls as [| step call rest calls' Hstep Hrest]; subst.
  inversion Hrest; subst.
  destruct Hstep as (source & target & o & [= <- <- <-] & _ & _ & _ & Hkey).
  exists call. split; [exact Hlog | split].
  - apply (Hkey (mkThrough (TmClass "UserRole") None) "UserRole"
             (defineVerbatim mainConnection "UserRole" [] userRoleOptions)
             userRoleOptions [userRoleIndex]).
    + reflexivity.
    + right. reflexivity.
    + discriminate.
    + vm_compute. reflexivity.
    + reflexivity.
    + reflexivity.
    + exists userRoleIndex. split; [apply list_elem_of_here |].
      split; [reflexivity |]. exists ["userId"; "roleId"]. split; reflexivity.
  - destruct (Hret Hnone) as [-> _]. reflexivity.
Defined.

(** C5, at an input on which the code departs from it.  The [associations]
    function of 'User' calls [belongsToMany] and then throws.  Line 258,
    which restores [Sequelize.Model.belongsToMany], is not in a [finally]
    block and is not reached: the replacement stays installed although no
    [associations] function is executing any more.  A [belongsToMany] call
    made afterwards, outside any [associations] function, with the junction
    model 'UserRole' as [through], still reaches the library with
    [uniqueKey] set to [false], where the method of the library would have
    received the options as given; and a later [setAssociation] that returns
    restores the replacement, not the method of the library.  The same holds
    of [defineModels] as a whole. *)
Theorem setAssociation_throw_leaves_belongsToMany_replaced :
  belongsToMany scenarioD_defined = SequelizeBelongsToMany /\
  setAssociation scenarioD_defined userWithBrokenAssociations =
    (afterBrokenAssociation, Some brokenAssociation) /\
  belongsToMany afterBrokenAssociation = Intercepting SequelizeBelongsToMany /\
  invokeBelongsToMany (belongsToMany afterBrokenAssociation)
    (sails_models afterBrokenAssociation) "Role" "User" throughUserRole =
    Normal (mkCall "Role" "User"
              (mkAssocOptions (through throughUserRole) UkFalse (assoc_as throughUserRole))) /\
  invokeBelongsToMany SequelizeBelongsToMany
    (sails_models afterBrokenAssociation) "Role" "User" throughUserRole =
    Normal (mkCall "Role" "User" throughUserRole) /\
  uniqueKey throughUserRole = UkUnset /\
  snd (setAssociation afterBrokenAssociation userWithRoles) = None /\
  belongsToMany (fst (setAssociation afterBrokenAssociation userWithRoles)) =
    Intercepting SequelizeBelongsToMany /\
  snd (defineModels defineVerbatim 6 scenarioA scenarioD_broken mainConnections freshSails) =
    Some brokenAssociation /\
  belongsToMany
    (fst (defineModels defineVerbatim 6 scenarioA scenarioD_broken mainConnections
            freshSails)) = Intercepting SequelizeBelongsToMany.
Proof. repeat split; vm_compute; reflexivity. Qed.

(** ** Convergence: what [initConnections] leaves behind *)

Lemma datastoresOf_withDatastores (cfg : SailsConfig) (ds ds' : Datastores) :
  datastoresOf cfg = Some ds ->
  datastoresOf (withDatastores cfg ds') = Some ds' /\
  migrate (withDatastores cfg ds') = migrate cfg /\
  smartMigrate (withDatastores cfg ds') = smartMigrate cfg /\
  dryRun (withDatastores cfg ds') = dryRun cfg.
Proof.
  unfold datastoresOf, withDatastores.
  destruct (config_connections cfg) as [d0|]; cbn; auto.
Qed.

(** When [initConnections] has returned [connections], the configuration
    that [migrateSchema] then reads has a map of entries none of which makes
    the ownership test throw, and [connections] has a connection for every
    owned entry. *)
Lemma initConnections_returned sails_log newSequelize (cfg : SailsConfig)
    (connections : gmap string Connection) :
  initConnections sails_log newSequelize cfg = Normal connections ->
  migrate (configAfterInit sails_log newSequelize cfg) = migrate cfg /\
  smartMigrate (configAfterInit sails_log newSequelize cfg) = smartMigrate cfg /\
  dryRun (configAfterInit sails_log newSequelize cfg) = dryRun cfg /\
  exists ds,
    datastoresOf (configAfterInit sails_log newSequelize cfg) = Some ds /\
    Forall (fun entry =>
              exists o, ownership (snd entry) = Normal o /\
                        (o <> None -> is_Some (connections !! fst entry))) ds.
Proof.
  unfold initConnections, configAfterInit, initRun.
  destruct (datastoresOf cfg) as [ds|] eqn:Hds; [| discriminate].
  destruct (hasOwnProperty ds (defaultConnectionName cfg)); [| discriminate].
  destruct (init_thrown (initLoop sails_log newSequelize ds ∅)) eqn:Hret; [discriminate |].
  intros [= <-].
  destruct (datastoresOf_withDatastores cfg ds
      (init_datastores (initLoop sails_log newSequelize ds ∅)) Hds)
    as (H1 & H2 & H3 & H4).
  repeat (split; [assumption |]).
  exists (init_datastores (initLoop sails_log newSequelize ds ∅)). split; [exact H1 |].
  destruct (initLoop_returns sails_log newSequelize ds ∅ Hret) as (HF & _ & Hown).
  clear - HF Hown. revert Hown.
  generalize (init_connections (initLoop sails_log newSequelize ds ∅)) as connections.
  intros connections.
  induction HF as [|[n c] [n' c'] rest rest' (Hn & o & o' & Ho & Ho' & Hskip) _ IH];
    intros Hown; constructor.
  - cbn [fst snd] in *. subst n'. exists o'. split; [exact Ho' |].
    intros Hsome. destruct o as [d|]; [| now destruct Hsome; apply Hskip].
    apply (Hown n c d); [apply list_elem_of_here | exact Ho].
  - apply IH. intros name c0 d0 Hin. apply Hown. now apply list_elem_of_further.
Qed.

(** ** Convergence: the dry run *)

Lemma visitConnection_dryRun db cfg connections flags r syncTasks entry o :
  dryRun cfg = true ->
  ownership (snd entry) = Normal o ->
  exists r',
    visitConnection db cfg connections flags (r, syncTasks) entry = ((r', syncTasks), None) /\
    run_calls r' = run_calls r /\ run_models r' = run_models r.
Proof.
  intros Hdry Ho. destruct entry as [cn c]. cbn [snd] in Ho.
  unfold visitConnection. rewrite Ho, Hdry.
  destruct o as [d|]; eexists; (split; [reflexivity |]); auto.
Qed.

Lemma visitAll_dryRun db cfg connections flags (ds : Datastores) :
  dryRun cfg = true ->
  Forall (fun entry => exists o, ownership (snd entry) = Normal o) ds ->
  forall r syncTasks,
    exists r',
      forIn (visitConnection db cfg connections flags) (r, syncTasks) ds
        = ((r', syncTasks), None) /\
      run_calls r' = run_calls r /\ run_models r' = run_models r.
Proof.
  intros Hdry. induction 1 as [|entry rest [o Ho] _ IH]; intros r syncTasks.
  - exists r. auto.
  - destruct (visitConnection_dryRun db cfg connections flags r syncTasks entry o Hdry Ho)
      as (r1 & Hv & Hc & Hm).
    destruct (IH r1 syncTasks) as (r2 & Hl & Hc2 & Hm2).
    exists r2. cbn [forIn]. rewrite Hv. split; [exact Hl |]. split; congruence.
Qed.

Lemma isSafe_false (m : option string) : m <> Some "safe" -> isSafe m = false.
Proof.
  intros H. destruct m as [s|]; [| reflexivity].
  cbn [isSafe]. apply String.eqb_neq. congruence.
Qed.

(** Whenever convergence runs with [dryRun] set and a strategy other than
    'safe' on the configuration that [initConnections] left when it returned
    the connections, it calls [next] without an error, it builds no
    synchronization task, and it issues no call at all on any connection:
    no [sync], no [createSchema], no [showAllSchemas] and no catalog query.
    The registry is left as it is, and the last line reported says that the
    dry run completed. *)
Theorem migrateSchema_dryRun_touches_nothing :
  forall sails_log newSequelize (db : Db) (cfg : SailsConfig) (connections : gmap string Connection)
         (models : list (string * ModelDef)) (sailsModels : gmap string SailsModel),
    dryRun cfg = true ->
    migrate cfg <> Some "safe" ->
    initConnections sails_log newSequelize cfg = Normal connections ->
    let result :=
      migrateSchema db (configAfterInit sails_log newSequelize cfg) connections models
          sailsModels in
    outcome result = Next None /\
    syncTasks_built result = [] /\
    run_calls (final result) = [] /\
    run_models (final result) = sailsModels /\
    last (run_reports (final result)) =
      Some "DRY RUN completed - no changes made to database".
Proof.
  intros sails_log newSequelize db cfg connections models sailsModels Hdry Hsafe Hinit result.
  destruct (initConnections_returned sails_log newSequelize cfg connections Hinit)
    as (Hm & _ & Hd & ds & Hds & Hcl).
  subst result. unfold migrateSchema.
  rewrite Hm, (isSafe_false _ Hsafe), Hds, Hd, Hdry. cbn [default from_option id].
  assert (dryRun (configAfterInit sails_log newSequelize cfg) = true) as Hdry' by congruence.
  assert (Forall (fun entry => exists o, ownership (snd entry) = Normal o) ds) as Hcl'.
  { eapply Forall_impl; [exact Hcl |]. intros entry (o & Ho & _). eauto. }
  destruct (visitAll_dryRun db (configAfterInit sails_log newSequelize cfg) connections
              (syncFlags (migrate cfg)) ds Hdry' Hcl' (mkRun sailsModels [] []) [])
    as (r' & Hloop & Hcalls & Hmodels).
  rewrite Hloop. cbn [outcome syncTasks_built final report run_calls run_models run_reports].
  repeat split; auto. apply last_snoc.
Qed.

Lemma migrateSchema_dryRun_touches_nothing_witness :
  let result :=
    migrateSchema freshDb (configAfterInit sampleLog sampleSequelize scenarioB) mainConnections
        userModels
      userRegistry in
  outcome result = Next None /\
  syncTasks_built result = [] /\
  run_calls (final result) = [] /\
  run_models (final result) = userRegistry /\
  last (run_reports (final result)) =
    Some "DRY RUN completed - no changes made to database".
Proof.
  apply (migrateSchema_dryRun_touches_nothing sampleLog sampleSequelize freshDb scenarioB
      mainConnections
           userModels userRegistry).
  - reflexivity.
  - discriminate.
  - vm_compute. reflexivity.
Defined.

(** C2, at a configuration on which the code departs from it.  With
    [dryRun] set and the strategy 'alter', convergence on a map whose entry
    'replica' has neither an adapter marker, nor a dialect, nor an [options]
    object throws: the ownership test of lines 340-341 reads
    [options.dialect] of that entry, and it comes before the dry-run test of
    line 349.  The throw comes after the line of the entry 'main' was
    reported; [next] is not called and the completion of the dry run is not
    reported.  [reload] on this configuration does not reach convergence:
    the same test, at line 104, makes [initConnections] throw. *)
Theorem migrateSchema_dryRun_throws_at_entry_without_options :
  dryRun dryWithReplica = true /\
  migrate dryWithReplica = Some "alter" /\
  datastoresOf dryWithReplica = Some [("main", postgresMain); ("replica", replicaByUrl)] /\
  migrateSchema freshDb dryWithReplica mainConnections userModels userRegistry =
    mkResult
      (Threw (TypeError "Cannot read properties of undefined (reading 'dialect')"))
      []
      (mkRun userRegistry []
         ["DRY RUN - Would sync database with force=false, alter=true"]) /\
  reload sampleLog sampleSequelize defineVerbatim 6 freshDb dryWithReplica
    (None, userModels) freshSails =
    mkResult
      (Threw (TypeError "Cannot read properties of undefined (reading 'dialect')"))
      [] (mkRun ∅ [] []).
Proof. repeat split; vm_compute; reflexivity. Qed.

(** ** Convergence: the calls of the synchronization tasks *)

Lemma run_calls_issue r calls : run_calls (issue r calls) = (run_calls r ++ calls)%list.
Proof. reflexivity. Qed.

(** The loop of the Postgres callback issues [createSchema] calls only. *)
Lemma createSchemas_calls cn (models : list (string * ModelDef)) :
  forall schemas r,
    run_models (fst (createSchemas cn models schemas r)) = run_models r /\
    run_reports (fst (createSchemas cn models schemas r)) = run_reports r /\
    exists created,
      run_calls (fst (createSchemas cn models schemas r)) =
        (run_calls r ++ map (CallCreateSchema cn) created)%list.
Proof.
  induction models as [|[k d] rest IH]; intros schemas r; cbn [createSchemas].
  - repeat split. exists []. cbn. now rewrite app_nil_r.
  - destruct (options d) as [opts|].
    + destruct (negb (or_default (schema opts) "" =? "")%string &&
                negb (existsb (String.eqb (or_default (schema opts) "")) schemas)).
      * destruct (IH (schemas ++ [or_default (schema opts) ""])%list
                    (issue r [CallCreateSchema cn (or_default (schema opts) "")]))
          as (Hm & Hr & created & Hc).
        split; [exact Hm | split; [exact Hr |]].
        exists (or_default (schema opts) "" :: created).
        rewrite Hc, run_calls_issue. cbn [map]. now rewrite <- app_assoc.
      * apply IH.
    + repeat split. exists []. cbn. now rewrite app_nil_r.
Qed.

(** It runs to its end when every definition has [options]. *)
Lemma createSchemas_all_owned cn (models : list (string * ModelDef)) :
  Forall (fun entry => options (snd entry) <> None) models ->
  forall schemas r, snd (createSchemas cn models schemas r) = None.
Proof.
  induction 1 as [|[k d] rest Hd _ IH]; intros schemas r; cbn [createSchemas];
    [reflexivity |].
  cbn [snd] in Hd. destruct (options d) as [opts|]; [| congruence].
  destruct (_ && _); apply IH.
Qed.

(** It throws at the first definition without [options]. *)
Lemma createSchemas_foreign cn (before after : list (string * ModelDef)) key modelDef :
  Forall (fun entry => options (snd entry) <> None) before ->
  options modelDef = None ->
  forall schemas r,
    snd (createSchemas cn (before ++ (key, modelDef) :: after) schemas r) =
      Some (TypeError "Cannot read properties of undefined (reading 'schema')").
Proof.
  intros Hb Hnone. induction Hb as [|[k d] rest Hd _ IH]; intros schemas r;
    cbn [createSchemas app].
  - now rewrite Hnone.
  - cbn [snd] in Hd. destruct (options d) as [opts|]; [| congruence].
    destruct (_ && _); apply IH.
Qed.

Lemma settle_calls db models flags task r :
  run_models (fst (settle db models flags task r)) = run_models r /\
  (forall call, call ∈ run_calls r -> call ∈ run_calls (fst (settle db models flags task r))) /\
  (forall cn force alter,
      CallSync cn force alter ∈ run_calls (fst (settle db models flags task r)) ->
      CallSync cn force alter ∈ run_calls r \/
      ((force, alter) = flags /\ cn = taskConnection task)).
Proof.
  destruct task as [cn d | cn [schemas | e] | cn settled]; cbn [settle fst];
    try (repeat split; auto; fail).
  unfold afterShowAllSchemas.
  destruct (createSchemas_calls cn models schemas r) as (Hm & _ & created & Hc).
  destruct (createSchemas cn models schemas r) as [r1 [e|]]; cbn [fst] in *.
  - split; [exact Hm | split].
    + intros call Hin. rewrite Hc. apply elem_of_app. auto.
    + intros cn' f a Hin. rewrite Hc in Hin. apply elem_of_app in Hin as [Hin | Hin]; auto.
      apply list_elem_of_fmap in Hin as (x & Hx & _). discriminate.
  - split; [exact Hm | split].
    + intros call Hin. rewrite run_calls_issue, Hc. rewrite !elem_of_app. auto.
    + intros cn' f a Hin. rewrite run_calls_issue, Hc in Hin.
      rewrite !elem_of_app in Hin. destruct Hin as [[Hin | Hin] | Hin]; auto.
      * apply list_elem_of_fmap in Hin as (x & Hx & _). discriminate.
      * apply list_elem_of_singleton in Hin. injection Hin as -> -> ->.
        right. destruct flags. auto.
Qed.

Lemma promiseAll_calls db models flags (syncTasks : list SyncTask) :
  forall r,
    run_models (fst (promiseAll db models flags syncTasks r)) = run_models r /\
    (forall call, call ∈ run_calls r ->
                  call ∈ run_calls (fst (promiseAll db models flags syncTasks r))) /\
    (forall cn force alter,
        CallSync cn force alter ∈ run_calls (fst (promiseAll db models flags syncTasks r)) ->
        CallSync cn force alter ∈ run_calls r \/
        ((force, alter) = flags /\ exists task, task ∈ syncTasks /\ cn = taskConnection task)).
Proof.
  induction syncTasks as [|task rest IH]; intros r; cbn [promiseAll].
  - repeat split; auto.
  - destruct (settle_calls db models flags task r) as (Hm & Hmono & Hsync).
    destruct (settle db models flags task r) as [r1 c]. cbn [fst] in *.
    destruct (IH r1) as (Hm2 & Hmono2 & Hsync2).
    destruct (promiseAll db models flags rest r1) as [r2 later]. cbn [fst] in *.
    split; [congruence | split].
    + auto.
    + intros cn f a Hin. apply Hsync2 in Hin as [Hin | (Hf & t & Ht & Hcn)].
      * apply Hsync in Hin as [Hin | (Hf & Hcn)]; auto.
        right. split; [exact Hf |]. exists task. split; [apply list_elem_of_here | exact Hcn].
      * right. split; [exact Hf |]. exists t. split; [now apply list_elem_of_further | exact Hcn].
Qed.

(** The callback of a schema listing that resolved calls [sync] in the end,
    provided every definition has [options]. *)
Lemma promiseAll_schema_sync db models flags (syncTasks : list SyncTask) cn schemas :
  SchemaPromise cn (Normal schemas) ∈ syncTasks ->
  Forall (fun entry => options (snd entry) <> None) models ->
  forall r,
    CallSync cn (fst flags) (snd flags)
      ∈ run_calls (fst (promiseAll db models flags syncTasks r)).
Proof.
  intros Hin Hall. induction syncTasks as [|task rest IH]; intros r.
  - now apply elem_of_nil in Hin.
  - cbn [promiseAll].
    pose proof (promiseAll_calls db models flags rest) as Hrest.
    apply elem_of_cons in Hin as [<- | Hin].
    + cbn [settle]. unfold afterShowAllSchemas.
      pose proof (createSchemas_all_owned cn models Hall schemas r) as Hnone.
      destruct (createSchemas cn models schemas r) as [r1 res]. cbn [snd] in Hnone.
      subst res.
      destruct (Hrest (issue r1 [CallSync cn (fst flags) (snd flags)])) as (_ & Hmono & _).
      destruct (promiseAll db models flags rest _) as [r2 later]. cbn [fst] in *.
      apply Hmono. rewrite run_calls_issue. apply elem_of_app. right.
      apply list_elem_of_here.
    + destruct (settle db models flags task r) as [r1 c].
      specialize (IH Hin r1).
      destruct (promiseAll db models flags rest r1) as [r2 later]. exact IH.
Qed.

(** ** Convergence: the loop over the connections *)

(** Every [sync] call in the log carries the flags of the run and goes to
    an owned connection, and every task belongs to an owned connection. *)
Lemma visitConnection_sound db cfg connections flags ds r syncTasks cn c :
  (cn, c) ∈ ds ->
  (forall cn' force alter, CallSync cn' force alter ∈ run_calls r ->
                           (force, alter) = flags /\ ownedIn ds cn') ->
  (forall task, task ∈ syncTasks -> ownedIn ds (taskConnection task)) ->
  let st := fst (visitConnection db cfg connections flags (r, syncTasks) (cn, c)) in
  (forall cn' force alter, CallSync cn' force alter ∈ run_calls (fst st) ->
                           (force, alter) = flags /\ ownedIn ds cn') /\
  (forall task, task ∈ snd st -> ownedIn ds (taskConnection task)).
Proof.
  intros Hin Hcalls Htasks.
  assert (forall d, ownership c = Normal (Some d) -> ownedIn ds cn) as Howned
    by (intros d Hd; exists c, d; auto).
  visit_cases cfg connections cn c; (split; [| auto]); auto.
  - intros task Ht. apply elem_of_app in Ht as [Ht | Ht]; [auto |].
    apply list_elem_of_singleton in Ht. subst task. eauto.
  - intros cn' f a H. apply elem_of_app in H as [H | H]; [auto |].
    apply list_elem_of_singleton in H. discriminate.
  - intros task Ht. apply elem_of_app in Ht as [Ht | Ht]; [auto |].
    apply list_elem_of_singleton in Ht. subst task. eauto.
  - intros cn' f a H. apply elem_of_app in H as [H | H]; [auto |].
    apply list_elem_of_singleton in H. injection H as -> -> ->.
    split; [now destruct flags | eauto].
  - intros task Ht. apply elem_of_app in Ht as [Ht | Ht]; [auto |].
    apply list_elem_of_singleton in Ht. subst task. eauto.
Qed.

Lemma visitAll_sound db cfg connections flags (ds : Datastores) r syncTasks :
  let st := fst (forIn (visitConnection db cfg connections flags) (r, syncTasks) ds) in
  (forall cn force alter, CallSync cn force alter ∈ run_calls r ->
                          (force, alter) = flags /\ ownedIn ds cn) ->
  (forall task, task ∈ syncTasks -> ownedIn ds (taskConnection task)) ->
  (forall cn force alter, CallSync cn force alter ∈ run_calls (fst st) ->
                          (force, alter) = flags /\ ownedIn ds cn) /\
  (forall task, task ∈ snd st -> ownedIn ds (taskConnection task)).
Proof.
  intros st Hcalls Htasks. subst st.
  apply (forIn_invariant (visitConnection db cfg connections flags)
           (fun st =>
              (forall cn force alter, CallSync cn force alter ∈ run_calls (fst st) ->
                                      (force, alter) = flags /\ ownedIn ds cn) /\
              (forall task, task ∈ snd st -> ownedIn ds (taskConnection task)))).
  - intros [r0 ts0] [cn c] Hin [H1 H2].
    now apply (visitConnection_sound db cfg connections flags ds r0 ts0 cn c).
  - auto.
Qed.

(** Outside a dry run and outside the smart-migrate path, the loop visits
    every entry without throwing, keeps what was logged and queued, and for
    an owned entry either calls [sync] at once (any dialect but 'postgres')
    or queues the promise of the schema listing ('postgres'). *)
Lemma visitAll_complete db cfg connections flags (ds : Datastores) :
  dryRun cfg = false ->
  smartMigrate cfg && snd flags = false ->
  Forall (fun entry =>
            exists o, ownership (snd entry) = Normal o /\
                      (o <> None -> is_Some (connections !! fst entry))) ds ->
  forall r syncTasks,
    exists r' syncTasks',
      forIn (visitConnection db cfg connections flags) (r, syncTasks) ds
        = ((r', syncTasks'), None) /\
      (forall call, call ∈ run_calls r -> call ∈ run_calls r') /\
      (forall task, task ∈ syncTasks -> task ∈ syncTasks') /\
      (forall cn c d, (cn, c) ∈ ds -> ownership c = Normal (Some d) ->
                      if String.eqb d "postgres"
                      then SchemaPromise cn (db_showAllSchemas db cn) ∈ syncTasks'
                      else CallSync cn (fst flags) (snd flags) ∈ run_calls r').
Proof.
  intros Hdry Hsmart. induction 1 as [|[cn c] rest (o & Ho & Hc) _ IH]; intros r syncTasks.
  - exists r, syncTasks. repeat split; auto.
    intros ? ? ? Hin. now apply elem_of_nil in Hin.
  - cbn [fst snd] in Ho, Hc. cbn [forIn].
    unfold visitConnection at 1. rewrite Ho.
    destruct o as [d|].
    + rewrite Hdry, Hsmart.
      destruct (Hc ltac:(discriminate)) as [k Hk]. rewrite Hk.
      destruct (String.eqb d "postgres") eqn:Hpg.
      * destruct (IH (issue r [CallShowAllSchemas cn])
                    (syncTasks ++ [SchemaPromise cn (db_showAllSchemas db cn)])%list)
          as (r' & ts' & Hloop & Hmono & Hkeep & Hall).
        exists r', ts'. split; [exact Hloop |]. repeat split.
        -- intros call Hin. apply Hmono. rewrite run_calls_issue. apply elem_of_app. auto.
        -- intros task Hin. apply Hkeep. apply elem_of_app. auto.
        -- intros cn0 c0 d0 Hin Hown.
           apply elem_of_cons in Hin as [[= -> ->] | Hin];
             [| exact (Hall _ _ _ Hin Hown)].
           assert (d0 = d) as -> by congruence. rewrite Hpg.
           apply Hkeep. apply elem_of_app. right. apply list_elem_of_here.
      * destruct (IH (issue r [CallSync cn (fst flags) (snd flags)])
                    (syncTasks ++ [SyncPromise cn (db_sync db cn (fst flags) (snd flags))])%list)
          as (r' & ts' & Hloop & Hmono & Hkeep & Hall).
        exists r', ts'. split; [exact Hloop |]. repeat split.
        -- intros call Hin. apply Hmono. rewrite run_calls_issue. apply elem_of_app. auto.
        -- intros task Hin. apply Hkeep. apply elem_of_app. auto.
        -- intros cn0 c0 d0 Hin Hown.
           apply elem_of_cons in Hin as [[= -> ->] | Hin];
             [| exact (Hall _ _ _ Hin Hown)].
           assert (d0 = d) as -> by congruence. rewrite Hpg.
           apply Hmono. rewrite run_calls_issue. apply elem_of_app. right.
           apply list_elem_of_here.
    + destruct (IH r syncTasks) as (r' & ts' & Hloop & Hmono & Hkeep & Hall).
      exists r', ts'. split; [exact Hloop |]. repeat split; auto.
      intros cn0 c0 d0 Hin Hown.
      apply elem_of_cons in Hin as [[= -> ->] | Hin];
        [congruence | exact (Hall _ _ _ Hin Hown)].
Qed.

(** ** Convergence: the strategy and the flags *)

Lemma run_calls_reportFailure r e : run_calls (reportFailure r e) = run_calls r.
Proof.
  unfold reportFailure. destruct (err_parent e); [| reflexivity].
  destruct (String.eqb _ _); reflexivity.
Qed.

(** The calls of a run that is neither 'safe' nor a dry run and whose loop
    did not throw are those of the loop followed by those of the callbacks. *)
Lemma run_calls_final db models flags (syncTasks : list SyncTask) r :
  run_calls
    (final
       match promiseAll db models flags syncTasks r with
       | (r1, None) =>
           mkResult (Next None) syncTasks
             (report r1 "Database migration completed successfully")
       | (r1, Some e) => mkResult (Next (Some e)) syncTasks (reportFailure r1 e)
       end) = run_calls (fst (promiseAll db models flags syncTasks r)).
Proof.
  destruct (promiseAll db models flags syncTasks r) as [r1 [e|]]; cbn [final fst].
  - apply run_calls_reportFailure.
  - reflexivity.
Qed.

Lemma syncFlags_other (m : option string) :
  m <> Some "drop" -> m <> Some "alter" -> syncFlags m = (false, false).
Proof.
  intros Hd Ha. destruct m as [s|]; [| reflexivity]. cbn [syncFlags].
  destruct (String.eqb_spec s "drop") as [-> | _]; [congruence |].
  destruct (String.eqb_spec s "alter") as [-> | _]; [congruence | reflexivity].
Qed.

Lemma migrateSchema_sync_sound db cfg connections models sailsModels cn force alter :
  CallSync cn force alter
    ∈ run_calls (final (migrateSchema db cfg connections models sailsModels)) ->
  (force, alter) = syncFlags (migrate cfg) /\ ownedIn (default [] (datastoresOf cfg)) cn.
Proof.
  unfold migrateSchema.
  destruct (isSafe (migrate cfg)); cbn [final run_calls].
  { intros H. now apply elem_of_nil in H. }
  pose proof (visitAll_sound db cfg connections (syncFlags (migrate cfg))
                (default [] (datastoresOf cfg)) (mkRun sailsModels [] []) []) as Hloop.
  cbn zeta in Hloop.
  destruct Hloop as [Hcalls Htasks].
  { cbn [run_calls]. intros ? ? ? H. now apply elem_of_nil in H. }
  { intros ? H. now apply elem_of_nil in H. }
  destruct (forIn _ _ (default [] (datastoresOf cfg))) as [[r syncTasks] [e|]];
    cbn [fst snd final] in *.
  - apply Hcalls.
  - destruct (dryRun cfg); cbn [final report run_calls]; [apply Hcalls |].
    rewrite run_calls_final. intros H.
    apply (promiseAll_calls db models (syncFlags (migrate cfg)) syncTasks r)
      in H as [H | (Hf & task & Ht & ->)]; auto.
Qed.

(** C3.  The strategy 'safe' calls [next] at once, builds no task and
    issues no call.  Otherwise 'drop' gives the flags [force: true, alter:
    false], 'alter' gives [force: false, alter: true] and any other value
    gives both flags false; every [sync] call of the run carries that pair
    and goes to an owned connection; and, outside a dry run and outside the
    smart-migrate path, the [sync] of every owned connection is called with
    it (for 'postgres' once the schema listing has resolved, every model
    definition having [options]). *)
Theorem migrateSchema_strategy_flags :
  forall (db : Db) (cfg : SailsConfig) (connections : gmap string Connection)
         (models : list (string * ModelDef)) (sailsModels : gmap string SailsModel),
    (migrate cfg = Some "safe" ->
     migrateSchema db cfg connections models sailsModels =
       mkResult (Next None) [] (mkRun sailsModels [] [])) /\
    syncFlags (Some "drop") = (true, false) /\
    syncFlags (Some "alter") = (false, true) /\
    (forall m, m <> Some "drop" -> m <> Some "alter" -> syncFlags m = (false, false)) /\
    (forall cn force alter,
        CallSync cn force alter
          ∈ run_calls (final (migrateSchema db cfg connections models sailsModels)) ->
        (force, alter) = syncFlags (migrate cfg) /\
        ownedIn (default [] (datastoresOf cfg)) cn) /\
    (forall sails_log newSequelize cfg0 cn c d,
        initConnections sails_log newSequelize cfg0 = Normal connections ->
        cfg = configAfterInit sails_log newSequelize cfg0 ->
        migrate cfg <> Some "safe" ->
        dryRun cfg = false ->
        smartMigrate cfg && snd (syncFlags (migrate cfg)) = false ->
        (cn, c) ∈ default [] (datastoresOf cfg) ->
        ownership c = Normal (Some d) ->
        d <> "postgres" \/
        (exists schemas, db_showAllSchemas db cn = Normal schemas /\
                         Forall (fun entry => options (snd entry) <> None) models) ->
        CallSync cn (fst (syncFlags (migrate cfg))) (snd (syncFlags (migrate cfg)))
          ∈ run_calls (final (migrateSchema db cfg connections models sailsModels))).
Proof.
  intros db cfg connections models sailsModels.
  split; [| split; [reflexivity | split; [reflexivity | split; [| split]]]].
  - intros Hsafe. unfold migrateSchema. now rewrite Hsafe.
  - apply syncFlags_other.
  - intros cn force alter. apply migrateSchema_sync_sound.
  - intros sails_log newSequelize cfg0 cn c d Hinit -> Hsafe Hdry Hsmart Hin Hown Hcase.
    destruct (initConnections_returned sails_log newSequelize cfg0 connections Hinit)
      as (_ & _ & _ & ds & Hds & Hcl).
    rewrite Hds in Hin. cbn [default from_option id] in Hin.
    unfold migrateSchema. rewrite (isSafe_false _ Hsafe), Hds, Hdry.
    cbn [default from_option id].
    destruct (visitAll_complete db (configAfterInit sails_log newSequelize cfg0) connections
                (syncFlags (migrate (configAfterInit sails_log newSequelize cfg0))) ds Hdry
                    Hsmart Hcl
                (mkRun sailsModels [] []) [])
      as (r & syncTasks & Hloop & _ & _ & Hall).
    rewrite Hloop, run_calls_final.
    specialize (Hall cn c d Hin Hown).
    destruct (String.eqb_spec d "postgres") as [-> | Hne].
    + destruct Hcase as [Hcase | (schemas & Hlist & Hopts)]; [congruence |].
      rewrite Hlist in Hall. now apply (promiseAll_schema_sync _ _ _ _ cn schemas).
    + now apply promiseAll_calls.
Qed.

Lemma migrateSchema_strategy_flags_witness :
  migrateSchema freshDb safeConfig mysqlConnections userModels userRegistry =
    mkResult (Next None) [] (mkRun userRegistry [] []) /\
  syncFlags (Some "create") = (false, false) /\
  ((true, false) = syncFlags (migrate dropConfig) /\
   ownedIn (default [] (datastoresOf dropConfig)) "main") /\
  CallSync "main" true false
    ∈ run_calls (final (migrateSchema freshDb dropConfig mysqlConnections userModels
                          userRegistry)).
Proof.
  destruct (migrateSchema_strategy_flags freshDb safeConfig mysqlConnections userModels
              userRegistry) as (Hsafe & _ & _ & Hother & _ & _).
  destruct (migrateSchema_strategy_flags freshDb dropConfig mysqlConnections userModels
              userRegistry) as (_ & _ & _ & _ & Hsound & Hall).
  assert (CallSync "main" true false
            ∈ run_calls (final (migrateSchema freshDb dropConfig mysqlConnections userModels
                                  userRegistry))) as Hcall.
  { apply (Hall sampleLog sampleSequelize dropConfig "main" mysqlMain "mysql").
    - vm_compute. reflexivity.
    - vm_compute. reflexivity.
    - discriminate.
    - reflexivity.
    - reflexivity.
    - apply list_elem_of_here.
    - reflexivity.
    - left. discriminate. }
  split; [| split; [| split]].
  - apply Hsafe. reflexivity.
  - apply Hother; discriminate.
  - apply (Hsound "main" true false). exact Hcall.
  - exact Hcall.
Defined.

(** ** Convergence: the smart-migrate path *)

(** With smart migration and the strategy 'alter', each owned connection
    contributes the function of line 356 itself, and the loop issues no
    call. *)
Lemma visitAll_smart db cfg connections flags (ds : Datastores) :
  smartMigrate cfg && snd flags = true ->
  forall r syncTasks,
    let st := fst (forIn (visitConnection db cfg connections flags) (r, syncTasks) ds) in
    run_calls r = [] ->
    Forall (fun task => exists cn d, task = SmartFunction cn d) syncTasks ->
    run_calls (fst st) = [] /\
    run_models (fst st) = run_models r /\
    Forall (fun task => exists cn d, task = SmartFunction cn d) (snd st).
Proof.
  intros Hsmart r syncTasks st Hcalls Htasks. subst st.
  apply (forIn_invariant (visitConnection db cfg connections flags)
           (fun st => run_calls (fst st) = [] /\ run_models (fst st) = run_models r /\
                      Forall (fun task => exists cn d, task = SmartFunction cn d) (snd st)));
    [| cbn; auto].
  intros [r0 ts0] [cn c] _ (H1 & H2 & H3). cbn [fst snd] in *.
  unfold visitConnection. rewrite Hsmart.
  destruct (ownership c) as [[d|] | e]; [| cbn; auto | cbn; auto].
  destruct (dryRun cfg); cbn [fst snd report run_calls run_models]; repeat split; auto.
  apply Forall_app. split; [exact H3 |]. repeat constructor. eauto.
Qed.

(** [Promise.all] runs nothing for such tasks. *)
Lemma promiseAll_functions db models flags (syncTasks : list SyncTask) :
  Forall (fun task => exists cn d, task = SmartFunction cn d) syncTasks ->
  forall r, promiseAll db models flags syncTasks r = (r, None).
Proof.
  induction 1 as [|task rest (cn & d & ->) _ IH]; intros r; cbn [promiseAll settle];
    [reflexivity |].
  now rewrite IH.
Qed.

(** The defect behind C1, for every input: with [smartMigrate] set and the
    strategy 'alter', a run issues no call on any connection, neither a
    catalog query nor [sync], and never writes to a model's [_indexes]. *)
Lemma migrateSchema_smart_alter_issues_no_call db cfg connections models sailsModels :
  smartMigrate cfg = true ->
  migrate cfg = Some "alter" ->
  run_calls (final (migrateSchema db cfg connections models sailsModels)) = [] /\
  run_models (final (migrateSchema db cfg connections models sailsModels)) = sailsModels.
Proof.
  intros Hsmart Halter. unfold migrateSchema. rewrite Halter.
  change (isSafe (Some "alter")) with false. cbn iota.
  assert (smartMigrate cfg && snd (syncFlags (Some "alter")) = true) as Hs
    by (rewrite Hsmart; reflexivity).
  destruct (visitAll_smart db cfg connections (syncFlags (Some "alter"))
              (default [] (datastoresOf cfg)) Hs (mkRun sailsModels [] []) [] eq_refl
              (Forall_nil_2 _)) as (Hcalls & Hmodels & Htasks).
  destruct (forIn _ _ (default [] (datastoresOf cfg))) as [[r syncTasks] [e|]];
    cbn [fst snd final run_models] in *; [auto |].
  destruct (dryRun cfg); cbn [final report run_calls run_models]; [auto |].
  rewrite (promiseAll_functions db models _ syncTasks Htasks r).
  cbn [final report run_calls run_models]. auto.
Qed.

(** What the stored function computes for the pending list, had it been
    called: the indexes whose derived name is not among the existing ones. *)
Lemma newIndexesOf_filters tableName existingIndexes (pending : list IndexSpec) :
  Forall (fun idx => truthy (idx_name idx) = true \/ idx_fields idx <> None) pending ->
  exists names,
    Forall2 (fun idx name => indexNameOf tableName idx = Normal name) pending names /\
    newIndexesOf tableName existingIndexes pending =
      Normal (fst <$> List.filter (fun entry => negb (existsNamed existingIndexes (snd entry)))
                        (zip pending names)).
Proof.
  induction 1 as [|idx rest Hidx _ (names & Hnames & IH)].
  - exists []. split; [constructor | reflexivity].
  - assert (exists name, indexNameOf tableName idx = Normal name) as [name Hname].
    { unfold indexNameOf. destruct Hidx as [-> | Hf]; [eauto |].
      destruct (truthy (idx_name idx)); [eauto |].
      destruct (idx_fields idx); [eauto | congruence]. }
    exists (name :: names). split; [now constructor |].
    cbn [newIndexesOf zip zip_with List.filter snd]. rewrite Hname, IH.
    cbn [mbind completion_bind].
    destruct (existsNamed existingIndexes name); reflexivity.
Qed.

(** C1, at scenario A of the specification.  Connection building returns
    the connection 'main'; convergence then stores the function of line 356
    in [syncTasks] without calling it, [Promise.all] takes that function as
    an already resolved value, and [next] is called without an error after no
    call at all: no introspection and no [sync].  A call of the stored
    function would have issued the catalog query and then [sync] with
    [force: false, alter: true]. *)
Theorem migrateSchema_scenarioA_never_calls_sync :
  initConnections sampleLog sampleSequelize scenarioA = Normal mainConnections /\
  outcome (migrateSchema freshDb (configAfterInit sampleLog sampleSequelize scenarioA)
      mainConnections
             userModels userRegistry) = Next None /\
  syncTasks_built (migrateSchema freshDb (configAfterInit sampleLog sampleSequelize scenarioA)
                     mainConnections userModels userRegistry) =
    [SmartFunction "main" "postgres"] /\
  run_calls (final (migrateSchema freshDb (configAfterInit sampleLog sampleSequelize scenarioA)
                      mainConnections userModels userRegistry)) = [] /\
  run_calls (fst (smartMigrateBody freshDb mainConnections userModels (false, true)
                    "main" "postgres" (mkRun userRegistry [] []))) =
    [CallQuery "main" "SELECT indexname, indexdef FROM pg_indexes WHERE tablename = 'user'";
     CallSync "main" false true].
Proof. repeat split; vm_compute; reflexivity. Qed.

(** ** Definitions without [options] *)

Lemma forIn_skip {S A : Type} (body : S -> A -> S * option JsError) (x : A)
    (l1 l2 : list A) :
  (forall s, body s x = (s, None)) ->
  forall s, forIn body s (l1 ++ x :: l2) = forIn body s (l1 ++ l2).
Proof.
  intros Hskip s. rewrite !forIn_app.
  destruct (forIn body s l1) as [s1 [e|]]; [reflexivity |].
  cbn [forIn]. now rewrite Hskip.
Qed.

Lemma associate_foreign s modelDef :
  options modelDef = None -> associate s modelDef = (s, None).
Proof. intros H. unfold associate. now rewrite H. Qed.

Lemma accumulateIndexes_foreign s modelDef :
  options modelDef = None -> accumulateIndexes s modelDef = s.
Proof. intros H. unfold accumulateIndexes. now rewrite H. Qed.

Lemma dedupModel_foreign db cn dialect r modelDef :
  options modelDef = None -> dedupModel db cn dialect r modelDef = (r, None).
Proof. intros H. unfold dedupModel. now rewrite H. Qed.

(** The three passes of [defineModels] skip a definition without
    [options]: the outcome is that of the run without it. *)
Lemma defineModels_foreign define version cfg connections s before after key modelDef :
  options modelDef = None ->
  defineModels define version cfg (before ++ (key, modelDef) :: after) connections s =
  defineModels define version cfg (before ++ after) connections s.
Proof.
  intros Hnone. unfold defineModels, firstPass, secondPass, thirdPass.
  rewrite (forIn_skip _ (key, modelDef) before after)
    by (intros s0; cbn [snd]; now apply defineModel_foreign).
  destruct (forIn _ s (before ++ after)) as [s1 [e|]]; [reflexivity |].
  rewrite (forIn_skip _ (key, modelDef) before after)
    by (intros s0; cbn [snd]; now apply associate_foreign).
  destruct (forIn _ s1 (before ++ after)) as [s2 [e|]]; [reflexivity |].
  f_equal. rewrite !fold_left_app. cbn [fold_left snd].
  now rewrite accumulateIndexes_foreign.
Qed.

(** So would the function of the smart-migrate path, were it called. *)
Lemma smartMigrateBody_foreign db connections flags cn dialect r before after key modelDef :
  options modelDef = None ->
  smartMigrateBody db connections (before ++ (key, modelDef) :: after) flags cn dialect r =
  smartMigrateBody db connections (before ++ after) flags cn dialect r.
Proof.
  intros Hnone. unfold smartMigrateBody.
  destruct (getProperty connections cn); [| reflexivity | reflexivity].
  now rewrite (forIn_skip _ (key, modelDef) before after)
    by (intros r0; cbn [snd]; now apply dedupModel_foreign).
Qed.

(** The callback of the Postgres path does not: it throws at the first
    definition without [options], before it calls [sync]. *)
Lemma afterShowAllSchemas_foreign db flags cn schemas r before after key modelDef :
  Forall (fun entry => options (snd entry) <> None) before ->
  options modelDef = None ->
  snd (afterShowAllSchemas db (before ++ (key, modelDef) :: after) flags cn schemas r) =
    Throw (TypeError "Cannot read properties of undefined (reading 'schema')") /\
  forall force alter,
    CallSync cn force alter
      ∈ run_calls (fst (afterShowAllSchemas db (before ++ (key, modelDef) :: after)
                          flags cn schemas r)) ->
    CallSync cn force alter ∈ run_calls r.
Proof.
  intros Hb Hnone. unfold afterShowAllSchemas.
  pose proof (createSchemas_foreign cn before after key modelDef Hb Hnone schemas r) as Hthrow.
  destruct (createSchemas_calls cn (before ++ (key, modelDef) :: after) schemas r)
    as (_ & _ & created & Hcalls).
  destruct (createSchemas cn _ schemas r) as [r1 res]. cbn [fst snd] in *. subst res.
  cbn [fst snd]. split; [reflexivity |].
  intros force alter Hin. rewrite Hcalls in Hin.
  apply elem_of_app in Hin as [Hin | Hin]; [exact Hin |].
  apply list_elem_of_fmap in Hin as (x & Hx & _). discriminate.
Qed.

(** C4, at a configuration on which the code departs from it.  The
    definition 'Legacy' has no [options].  The three passes of
    [defineModels] skip it without an error.  Convergence on the Postgres
    connection, with the strategy 'alter' and no smart migration, lists the
    schema namespaces and then reads [options.schema] of every definition:
    that throws for 'Legacy', so the run ends with [next] called with a
    TypeError, and [sync] is never called. *)
Theorem migrateSchema_postgres_path_throws_on_foreign_model :
  options (modelNamed "Legacy" None) = None /\
  defineModels defineVerbatim 6 alterConfig legacyModels mainConnections freshSails =
    defineModels defineVerbatim 6 alterConfig userModels mainConnections freshSails /\
  snd (defineModels defineVerbatim 6 alterConfig legacyModels mainConnections freshSails)
    = None /\
  initConnections sampleLog sampleSequelize alterConfig = Normal mainConnections /\
  outcome (migrateSchema freshDb (configAfterInit sampleLog sampleSequelize alterConfig)
      mainConnections
             legacyModels userRegistry) =
    Next (Some (TypeError "Cannot read properties of undefined (reading 'schema')")) /\
  run_calls (final (migrateSchema freshDb (configAfterInit sampleLog sampleSequelize alterConfig)
                      mainConnections legacyModels userRegistry)) =
    [CallShowAllSchemas "main"] /\
  run_calls (final (migrateSchema freshDb (configAfterInit sampleLog sampleSequelize alterConfig)
                      mainConnections userModels userRegistry)) =
    [CallShowAllSchemas "main"; CallSync "main" false true].
Proof. repeat split; vm_compute; reflexivity. Qed.

(** ** [reload]: how convergence is reached *)

(** A throw of [initConnections] ends [reload] before the model loader is
    called: no model is bound, no task is built and no call is issued. *)
Lemma reload_initConnections_throws sails_log newSequelize define version db cfg loaded s e :
  initConnections sails_log newSequelize cfg = Throw e ->
  reload sails_log newSequelize define version db cfg loaded s =
    mkResult (Threw e) [] (mkRun (sails_models s) [] []).
Proof. intros H. unfold reload. now rewrite H. Qed.

(** Convergence runs exactly when [initConnections] has returned, the
    loader has delivered the definitions and [defineModels] has returned;
    it then works on the connections that [initConnections] built. *)
Lemma reload_reaches_migrateSchema sails_log newSequelize define version db cfg models s
    connections s' :
  initConnections sails_log newSequelize cfg = Normal connections ->
  defineModels define version (configAfterInit sails_log newSequelize cfg) models connections s
    = (s', None) ->
  reload sails_log newSequelize define version db cfg (None, models) s =
    migrateSchema db (configAfterInit sails_log newSequelize cfg) connections models
        (sails_models s').
Proof. intros Hi Hd. unfold reload. now rewrite Hi, Hd. Qed.

(** * Further properties of the hook *)

(** ** Connection building, entry by entry *)

Lemma initLoop_lookup_other sails_log newSequelize (ds : Datastores) :
  forall connections name,
    name ∉ ds.*1 ->
    init_connections (initLoop sails_log newSequelize ds connections) !! name
      = connections !! name.
Proof.
  induction ds as [|[n c] rest IH]; intros connections name Hnot; [reflexivity |].
  rewrite initLoop_cons. cbn [fmap list_fmap fst] in Hnot.
  apply not_elem_of_cons in Hnot as [Hne Hrest].
  destruct (ownership c) as [[d|] | e]; [| cbn [init_connections]; auto | reflexivity].
  destruct (snd (construct sails_log newSequelize c)) as [k | e]; [| reflexivity].
  cbn [init_connections]. rewrite IH by exact Hrest. now apply lookup_insert_ne.
Qed.

Lemma initLoop_lookup_owned sails_log newSequelize (ds : Datastores) :
  forall connections name c d,
    NoDup ds.*1 ->
    (name, c) ∈ ds ->
    ownership c = Normal (Some d) ->
    init_thrown (initLoop sails_log newSequelize ds connections) = None ->
    init_connections (initLoop sails_log newSequelize ds connections) !! name
      = Some (callFor sails_log c).
Proof.
  induction ds as [|[n c0] rest IH]; intros connections name c d Hnd Hin Hown Hret.
  - now apply elem_of_nil in Hin.
  - cbn [fmap list_fmap fst] in Hnd. apply NoDup_cons in Hnd as [Hfresh Hnd].
    rewrite initLoop_cons in Hret |- *.
    apply elem_of_cons in Hin as [[= -> ->] | Hin].
    + rewrite Hown in Hret |- *. rewrite construct_callFor in Hret |- *.
      cbn [fst snd] in Hret |- *.
      destruct (snd (newSequelize (callFor sails_log c0))); [discriminate |].
      cbn [init_connections init_thrown] in *.
      rewrite initLoop_lookup_other by exact Hfresh. apply lookup_insert_eq.
    + destruct (ownership c0) as [[d0|] | e]; [| | discriminate].
      * destruct (snd (construct sails_log newSequelize c0)) as [k | e]; [| discriminate].
        cbn [init_connections init_thrown] in *. eapply IH; eauto.
      * cbn [init_connections init_thrown] in *. eapply IH; eauto.
Qed.

(** What the loop writes to the entries: nothing but [options], and nothing
    at all to an entry that it skips. *)
Lemma initLoop_writes sails_log newSequelize (ds : Datastores) :
  forall connections,
    init_thrown (initLoop sails_log newSequelize ds connections) = None ->
    Forall2 (fun before after =>
               fst after = fst before /\
               adapter (snd after) = adapter (snd before) /\
               dialect (snd after) = dialect (snd before) /\
               url (snd after) = url (snd before) /\
               database (snd after) = database (snd before) /\
               user (snd after) = user (snd before) /\
               password (snd after) = password (snd before) /\
               (ownership (snd before) = Normal None -> snd after = snd before) /\
               (forall d, ownership (snd before) = Normal (Some d) ->
                          conn_options (snd after) =
                            Some (fst (newSequelize (callFor sails_log (snd before))))))
      ds (init_datastores (initLoop sails_log newSequelize ds connections)).
Proof.
  induction ds as [|[n c] rest IH]; intros connections Hret; [constructor |].
  rewrite initLoop_cons in Hret |- *.
  destruct (ownership c) as [[d|] | e] eqn:Ho; [| | discriminate].
  - rewrite construct_callFor in Hret |- *. cbn [fst snd] in Hret |- *.
    destruct (snd (newSequelize (callFor sails_log c))); [discriminate |].
    cbn [init_thrown init_datastores] in Hret |- *.
    constructor; [| now apply IH].
    cbn [fst snd adapter dialect url database user password conn_options].
    repeat split; auto; congruence.
  - cbn [init_thrown init_datastores] in Hret |- *.
    constructor; [| now apply IH]. cbn [fst snd]. repeat split; auto; congruence.
Qed.

(** X1.  When the default connection name is in the map, no two entries
    share a name, every entry carries an adapter marker, a dialect or an
    [options] object, and the constructor throws for no owned entry,
    [initConnections] returns a map whose keys are exactly the names of the
    owned entries.  The connection of an owned entry is constructed from its
    connection string when [url] is a non-empty string, and from database,
    user and password otherwise, in both cases with the entry's own options
    (an empty object when it has none), in which a logging level given as a
    non-empty string was replaced by what [sails.log] has under that
    name. *)
Theorem initConnections_returns_owned_connections :
  forall sails_log newSequelize (cfg : SailsConfig) (ds : Datastores),
    datastoresOf cfg = Some ds ->
    hasOwnProperty ds (defaultConnectionName cfg) = true ->
    NoDup ds.*1 ->
    "__proto__" ∉ ds.*1 ->
    Forall (fun entry => exists o, ownership (snd entry) = Normal o) ds ->
    Forall (fun entry =>
              forall d, ownership (snd entry) = Normal (Some d) ->
                        snd (newSequelize (callFor sails_log (snd entry))) = None) ds ->
    exists connections,
      initConnections sails_log newSequelize cfg = Normal connections /\
      (forall name, is_Some (connections !! name) <-> ownedIn ds name) /\
      (forall name c d,
          (name, c) ∈ ds -> ownership c = Normal (Some d) ->
          connections !! name =
            Some (let o :=
                    match conn_options c with
                    | None => mkConnOptions None None
                    | Some given =>
                        mkConnOptions (co_dialect given)
                          match co_logging given with
                          | Some (LogLevel level) =>
                              if bool_decide (level = "") then Some (LogLevel level)
                              else sails_log level
                          | other => other
                          end
                    end in
                  match url c with
                  | Some u =>
                      if bool_decide (u = "")
                      then SequelizeParts (database c) (user c) (password c) o
                      else SequelizeUrl u o
                  | None => SequelizeParts (database c) (user c) (password c) o
                  end)).
Proof.
  intros sails_log newSequelize cfg ds Hds Hdef Hnd _ Hcl Hacc.
  assert (forall name c d, (name, c) ∈ ds -> ownership c = Normal (Some d) ->
                           snd (newSequelize (callFor sails_log c)) = None) as Hacc'.
  { intros name c d Hin Hown. rewrite Forall_forall in Hacc.
    exact (Hacc (name, c) Hin d Hown). }
  destruct (initConnections_classified sails_log newSequelize cfg ds Hds Hdef Hcl Hacc')
    as (connections & Hret & Hkeys).
  exists connections. split; [exact Hret | split; [exact Hkeys |]].
  intros name c d Hin Hown.
  unfold initConnections, initRun in Hret. rewrite Hds, Hdef in Hret.
  destruct (init_thrown (initLoop sails_log newSequelize ds ∅)) eqn:Hthrown;
    [discriminate |].
  injection Hret as <-.
  now rewrite (initLoop_lookup_owned sails_log newSequelize ds ∅ name c d Hnd Hin Hown
                 Hthrown).
Qed.

Lemma initConnections_returns_owned_connections_witness :
  exists connections,
    initConnections sampleLog sampleSequelize verboseConfig = Normal connections /\
    (forall name,
        is_Some (connections !! name) <->
        ownedIn [("disk", diskStore); ("main", verboseMain)] name) /\
    (forall name c d,
        (name, c) ∈ [("disk", diskStore); ("main", verboseMain)] ->
        ownership c = Normal (Some d) ->
        connections !! name =
          Some (let o :=
                  match conn_options c with
                  | None => mkConnOptions None None
                  | Some given =>
                      mkConnOptions (co_dialect given)
                        match co_logging given with
                        | Some (LogLevel level) =>
                            if bool_decide (level = "") then Some (LogLevel level)
                            else sampleLog level
                        | other => other
                        end
                  end in
                match url c with
                | Some u =>
                    if bool_decide (u = "")
                    then SequelizeParts (database c) (user c) (password c) o
                    else SequelizeUrl u o
                | None => SequelizeParts (database c) (user c) (password c) o
                end)).
Proof.
  apply (initConnections_returns_owned_connections sampleLog sampleSequelize verboseConfig
           [("disk", diskStore); ("main", verboseMain)]).
  - reflexivity.
  - reflexivity.
  - apply (bool_decide_unpack _). vm_compute. exact I.
  - apply (bool_decide_unpack _). vm_compute. exact I.
  - constructor; [exists None; reflexivity |].
    constructor; [exists (Some "mysql"); reflexivity | constructor].
  - constructor; [discriminate |]. constructor; [reflexivity | constructor].
Defined.

Lemma initLoop_throws_at sails_log newSequelize name c d e (after : Datastores) :
  ownership c = Normal (Some d) ->
  snd (newSequelize (callFor sails_log c)) = Some e ->
  forall (before : Datastores) connections,
    Forall (fun entry => exists o, ownership (snd entry) = Normal o) before ->
    Forall (fun entry =>
              forall d, ownership (snd entry) = Normal (Some d) ->
                        snd (newSequelize (callFor sails_log (snd entry))) = None)
      before ->
    init_thrown (initLoop sails_log newSequelize (before ++ (name, c) :: after)%list connections)
      = Some e /\
    forall n,
      is_Some (init_connections
                 (initLoop sails_log newSequelize (before ++ (name, c) :: after)%list connections)
                 !! n) ->
      is_Some (connections !! n) \/ ownedIn before n.
Proof.
  intros Hown Hthrows.
  induction before as [|[n0 c0] rest IH]; intros connections Hcl Hacc.
  - cbn [app]. rewrite initLoop_cons, Hown, construct_callFor. cbn [snd].
    rewrite Hthrows. cbn [init_thrown init_connections]. auto.
  - apply Forall_cons in Hcl as [[o Ho] Hcl]. apply Forall_cons in Hacc as [Ha Hacc].
    cbn [snd] in Ho, Ha.
    assert (forall n, ownedIn rest n -> ownedIn ((n0, c0) :: rest) n) as Hlater.
    { intros n (c1 & d1 & Hin & Ho1). exists c1, d1.
      split; [now apply list_elem_of_further | exact Ho1]. }
    rewrite <- app_comm_cons, initLoop_cons, Ho. destruct o as [d0|].
    + rewrite construct_callFor. cbn [fst snd]. rewrite (Ha d0 Ho).
      cbn [init_thrown init_connections].
      destruct (IH (<[n0 := callFor sails_log c0]> connections) Hcl Hacc) as [Ht Hk].
      split; [exact Ht |]. intros n Hn. destruct (Hk n Hn) as [Hs | Hs]; [| auto].
      destruct (decide (n0 = n)) as [<- | Hne].
      * right. exists c0, d0. split; [apply list_elem_of_here | exact Ho].
      * rewrite lookup_insert_ne in Hs by exact Hne. auto.
    + cbn [init_thrown init_connections].
      destruct (IH connections Hcl Hacc) as [Ht Hk].
      split; [exact Ht |]. intros n Hn. destruct (Hk n Hn) as [Hs | Hs]; auto.
Qed.

(** X21.  What the constructor throws, [initConnections] throws: when the
    constructor throws for an owned entry, no earlier entry having made the
    ownership test or the constructor throw, [initConnections] ends with
    that error at that entry.  The connections constructed until then are
    those of earlier owned entries, and no later entry is looked at. *)
Theorem initConnections_rethrows_constructor_error :
  forall sails_log newSequelize (cfg : SailsConfig) (before after : Datastores)
         (name : string) (c : ConnectionConfig) (d : string) (e : JsError),
    datastoresOf cfg = Some (before ++ (name, c) :: after)%list ->
    hasOwnProperty (before ++ (name, c) :: after)%list (defaultConnectionName cfg) = true ->
    Forall (fun entry => exists o, ownership (snd entry) = Normal o) before ->
    Forall (fun entry =>
              forall d, ownership (snd entry) = Normal (Some d) ->
                        snd (newSequelize (callFor sails_log (snd entry))) = None)
      before ->
    ownership c = Normal (Some d) ->
    snd (newSequelize (callFor sails_log c)) = Some e ->
    initConnections sails_log newSequelize cfg = Throw e /\
    (forall n,
        is_Some (init_connections (initRun sails_log newSequelize cfg) !! n) ->
        ownedIn before n) /\
    forall define version db loaded s,
      reload sails_log newSequelize define version db cfg loaded s =
        mkResult (Threw e) [] (mkRun (sails_models s) [] []).
Proof.
  intros sails_log newSequelize cfg before after name c d e Hds Hdef Hcl Hacc Hown Hthrows.
  destruct (initLoop_throws_at sails_log newSequelize name c d e after Hown Hthrows
              before ∅ Hcl Hacc) as [Ht Hk].
  assert (initConnections sails_log newSequelize cfg = Throw e) as Hinit.
  { unfold initConnections, initRun. rewrite Hds, Hdef. now rewrite Ht. }
  split; [exact Hinit | split].
  - intros n. unfold initRun. rewrite Hds, Hdef. intros Hn.
    destruct (Hk n Hn) as [Hs | Hs]; [| exact Hs].
    rewrite lookup_empty in Hs. now destruct Hs.
  - intros define version db loaded s. unfold reload. now rewrite Hinit.
Qed.

Lemma initConnections_rethrows_constructor_error_witness :
  initConnections sampleLog sampleSequelize
    (configOf [("main", postgresMain); ("legacy", bareMysql)] (Some "alter") false false) =
    Throw (PlainError "Dialect needs to be explicitly supplied as of v4.0.0") /\
  (forall n,
      is_Some (init_connections
                 (initRun sampleLog sampleSequelize
                    (configOf [("main", postgresMain); ("legacy", bareMysql)]
                       (Some "alter") false false)) !! n) ->
      ownedIn [("main", postgresMain)] n) /\
  forall define version db loaded s,
    reload sampleLog sampleSequelize define version db
      (configOf [("main", postgresMain); ("legacy", bareMysql)] (Some "alter") false false)
      loaded s =
      mkResult (Threw (PlainError "Dialect needs to be explicitly supplied as of v4.0.0"))
        [] (mkRun (sails_models s) [] []).
Proof.
  apply (initConnections_rethrows_constructor_error sampleLog sampleSequelize
           (configOf [("main", postgresMain); ("legacy", bareMysql)] (Some "alter")
              false false)
           [("main", postgresMain)] [] "legacy" bareMysql "mysql").
  - reflexivity.
  - reflexivity.
  - constructor; [exists (Some "postgres"); reflexivity | constructor].
  - constructor; [reflexivity | constructor].
  - reflexivity.
  - reflexivity.
Defined.

(** X2.  When [initConnections] returns, it has left the entries of the map
    in their order and under their names; it has written to nothing but
    [options]; an entry that it skipped is exactly as it was; the [options]
    of an owned entry are the object that was handed to the constructor, as
    the constructor left it; and no entry makes the ownership test of
    [migrateSchema] throw. *)
Theorem initConnections_writes_only_options :
  forall sails_log newSequelize (cfg : SailsConfig) (ds : Datastores) connections,
    datastoresOf cfg = Some ds ->
    initConnections sails_log newSequelize cfg = Normal connections ->
    exists ds',
      datastoresOf (configAfterInit sails_log newSequelize cfg) = Some ds' /\
      Forall (fun entry => exists o, ownership (snd entry) = Normal o) ds' /\
      Forall2 (fun before after =>
                 fst after = fst before /\
                 adapter (snd after) = adapter (snd before) /\
                 dialect (snd after) = dialect (snd before) /\
                 url (snd after) = url (snd before) /\
                 database (snd after) = database (snd before) /\
                 user (snd after) = user (snd before) /\
                 password (snd after) = password (snd before) /\
                 (ownership (snd before) = Normal None -> snd after = snd before) /\
                 (forall d, ownership (snd before) = Normal (Some d) ->
                            conn_options (snd after) =
                              Some (fst (newSequelize (callFor sails_log (snd before))))))
        ds ds'.
Proof.
  intros sails_log newSequelize cfg ds connections Hds Hret.
  unfold initConnections, initRun in Hret. rewrite Hds in Hret.
  destruct (hasOwnProperty ds (defaultConnectionName cfg)) eqn:Hdef; [| discriminate].
  destruct (init_thrown (initLoop sails_log newSequelize ds ∅)) eqn:Hthrown;
    [discriminate |].
  exists (init_datastores (initLoop sails_log newSequelize ds ∅)).
  split; [| split].
  - unfold configAfterInit, initRun. rewrite Hds, Hdef.
    now apply (datastoresOf_withDatastores cfg ds).
  - destruct (initLoop_returns sails_log newSequelize ds ∅ Hthrown) as (HF & _).
    clear - HF.
    induction HF as [|[n c] [n' c'] rest rest' (Hn & o & o' & Ho & Ho' & _) _ IH];
      constructor; [cbn [snd]; eauto | exact IH].
  - now apply initLoop_writes.
Qed.

Lemma initConnections_writes_only_options_witness :
  exists ds',
    datastoresOf (configAfterInit sampleLog sampleSequelize scenarioA) = Some ds' /\
    Forall (fun entry => exists o, ownership (snd entry) = Normal o) ds' /\
    Forall2 (fun before after =>
               fst after = fst before /\
               adapter (snd after) = adapter (snd before) /\
               dialect (snd after) = dialect (snd before) /\
               url (snd after) = url (snd before) /\
               database (snd after) = database (snd before) /\
               user (snd after) = user (snd before) /\
               password (snd after) = password (snd before) /\
               (ownership (snd before) = Normal None -> snd after = snd before) /\
               (forall d, ownership (snd before) = Normal (Some d) ->
                          conn_options (snd after) =
                            Some (fst (sampleSequelize (callFor sampleLog (snd before))))))
      [("main", postgresMain)] ds'.
Proof.
  apply (initConnections_writes_only_options sampleLog sampleSequelize scenarioA
           [("main", postgresMain)] mainConnections).
  - reflexivity.
  - vm_compute. reflexivity.
Defined.

(** ** The three passes of [defineModels] and the registry *)

(** X3.  [defineModels] ignores a definition without [options]: with such
    a definition anywhere among the definitions, the registry, the calls
    made to [belongsToMany] and the error (if any) are those of the run
    without it. *)
Theorem defineModels_ignores_definitions_without_options :
  forall define version (cfg : SailsConfig) (connections : gmap string Connection)
         (s : Sails) (before after : list (string * ModelDef)) key (modelDef : ModelDef),
    options modelDef = None ->
    defineModels define version cfg (before ++ (key, modelDef) :: after) connections s =
    defineModels define version cfg (before ++ after) connections s.
Proof.
  intros define version cfg connections s before after key modelDef Hnone.
  unfold defineModels, firstPass, secondPass, thirdPass.
  rewrite (forIn_skip _ (key, modelDef) before after)
    by (intros s0; cbn [snd]; unfold defineModel; now rewrite Hnone).
  destruct (forIn _ s (before ++ after)) as [s1 [e|]]; [reflexivity |].
  rewrite (forIn_skip _ (key, modelDef) before after)
    by (intros s0; cbn [snd]; unfold associate; now rewrite Hnone).
  destruct (forIn _ s1 (before ++ after)) as [s2 [e|]]; [reflexivity |].
  f_equal. rewrite !fold_left_app. cbn [fold_left snd].
  unfold accumulateIndexes at 2. now rewrite Hnone.
Qed.

Lemma defineModels_ignores_definitions_without_options_witness :
  defineModels defineVerbatim 6 scenarioA
    (userModels ++ ("legacy", modelNamed "Legacy" None) :: scenarioD) mainConnections
    freshSails =
  defineModels defineVerbatim 6 scenarioA (userModels ++ scenarioD) mainConnections freshSails.
Proof.
  apply (defineModels_ignores_definitions_without_options defineVerbatim 6 scenarioA
           mainConnections freshSails userModels scenarioD "legacy"
           (modelNamed "Legacy" None)).
  reflexivity.
Defined.



Lemma setAssociation_registry s modelDef :
  sails_models (fst (setAssociation s modelDef)) = sails_models s.
Proof.
  unfold setAssociation. destruct (associations modelDef) as [| | body |]; try reflexivity.
  pose proof (runAssociations_calls body
                (setBelongsToMany s (Intercepting (belongsToMany s)))) as (Hm & _).
  destruct (runAssociations _ body) as [s2 [e|]]; exact Hm.
Qed.

Lemma associate_other_keys s modelDef key :
  (options modelDef <> None -> toLowerCase (globalId modelDef) <> key) ->
  sails_models (fst (associate s modelDef)) !! key = sails_models s !! key.
Proof.
  intros Hkey. unfold associate.
  destruct (options modelDef) as [opts|]; [| reflexivity].
  pose proof (setAssociation_registry s modelDef) as Hm.
  destruct (setAssociation s modelDef) as [s1 [e|]]; cbn [fst] in *; [now rewrite Hm |].
  destruct (setDefaultScope modelDef _) as [[m|] | e]; cbn [fst]; try now rewrite Hm.
  cbn [sails_models setModels]. rewrite lookup_insert_ne by (apply Hkey; discriminate).
  now rewrite Hm.
Qed.

Lemma accumulateIndexes_other_keys s modelDef key :
  (options modelDef <> None -> toLowerCase (globalId modelDef) <> key) ->
  sails_models (accumulateIndexes s modelDef) !! key = sails_models s !! key.
Proof.
  intros Hkey. unfold accumulateIndexes.
  destruct (options modelDef) as [opts|]; [| reflexivity].
  destruct (indexes opts); [| reflexivity].
  destruct (sails_models s !! toLowerCase (globalId modelDef)); [| reflexivity].
  cbn [sails_models setModels]. apply lookup_insert_ne. apply Hkey. discriminate.
Qed.

Lemma thirdPass_other_keys key (models : list (string * ModelDef)) :
  Forall (fun entry =>
            options (snd entry) <> None ->
            toLowerCase (globalId (snd entry)) <> key) models ->
  forall s, sails_models (thirdPass s models) !! key = sails_models s !! key.
Proof.
  unfold thirdPass. induction 1 as [|entry rest Hd _ IH]; intros s; [reflexivity |].
  cbn [fold_left]. rewrite IH. now apply accumulateIndexes_other_keys.
Qed.

(** X5.  [defineModels] leaves alone every entry of [sails.models] whose key
    is not the lower-cased global identifier of a definition with [options]:
    the models that another data layer registered are still there, unchanged,
    when it returns and also when it throws. *)
Theorem defineModels_keeps_other_entries :
  forall define version (cfg : SailsConfig) (connections : gmap string Connection)
         (s : Sails) (models : list (string * ModelDef)) (key : string),
    Forall (fun entry =>
              options (snd entry) <> None ->
              toLowerCase (globalId (snd entry)) <> key) models ->
    sails_models (fst (defineModels define version cfg models connections s)) !! key =
      sails_models s !! key.
Proof.
  intros define version cfg connections s models key Hkeys. unfold defineModels.
  pose proof (firstPass_other_keys define version (defaultConnectionName cfg) connections
                key models Hkeys s) as H1.
  destruct (firstPass _ _ _ _ s models) as [s1 [e|]]; cbn [fst] in *; [exact H1 |].
  assert (sails_models (fst (secondPass s1 models)) !! key = sails_models s1 !! key) as H2.
  { unfold secondPass.
    apply (forIn_invariant (fun s entry => associate s (snd entry))
             (fun s' => sails_models s' !! key = sails_models s1 !! key)); [| reflexivity].
    intros s0 entry Hin Hs0. rewrite associate_other_keys; [exact Hs0 |].
    rewrite Forall_forall in Hkeys. now apply Hkeys. }
  destruct (secondPass s1 models) as [s2 [e|]]; cbn [fst] in *; [congruence |].
  rewrite thirdPass_other_keys by exact Hkeys. congruence.
Qed.

Lemma defineModels_keeps_other_entries_witness :
  sails_models (fst (defineModels defineVerbatim 6 scenarioA scenarioD mainConnections
                       (mkSails waterlineRegistry SequelizeBelongsToMany []))) !! "pet" =
    waterlineRegistry !! "pet".
Proof.
  apply (defineModels_keeps_other_entries defineVerbatim 6 scenarioA mainConnections
           (mkSails waterlineRegistry SequelizeBelongsToMany []) scenarioD "pet").
  repeat constructor; intros _; discriminate.
Defined.

(** ** The association pass *)

Lemma sameButScope_refl m : sameButScope m m.
Proof. now destruct m. Qed.

Lemma sameButScope_trans m1 m2 m3 :
  sameButScope m1 m2 -> sameButScope m2 m3 -> sameButScope m1 m3.
Proof. unfold sameButScope. intros -> ->. reflexivity. Qed.

Lemma setAssociation_effect s modelDef :
  sails_models (fst (setAssociation s modelDef)) = sails_models s /\
  association_calls s `prefix_of` association_calls (fst (setAssociation s modelDef)) /\
  (snd (setAssociation s modelDef) = None ->
   belongsToMany (fst (setAssociation s modelDef)) = belongsToMany s).
Proof.
  unfold setAssociation. destruct (associations modelDef) as [| | body |];
    try (cbn [fst snd]; repeat split; reflexivity).
  pose proof (runAssociations_calls body
                (setBelongsToMany s (Intercepting (belongsToMany s))))
    as (Hm & _ & executed & calls & _ & _ & Hlog & _).
  cbn [setBelongsToMany sails_models association_calls] in *.
  destruct (runAssociations _ body) as [s2 [e|]]; cbn [fst snd] in *.
  - split; [exact Hm | split]; [| discriminate]. rewrite Hlog. now apply prefix_app_r.
  - cbn [setBelongsToMany sails_models association_calls belongsToMany].
    split; [exact Hm | split]; [| reflexivity]. rewrite Hlog. now apply prefix_app_r.
Qed.

Lemma associate_effect s modelDef :
  (forall key, option_Forall2 sameButScope (sails_models s !! key)
                 (sails_models (fst (associate s modelDef)) !! key)) /\
  association_calls s `prefix_of` association_calls (fst (associate s modelDef)) /\
  (snd (associate s modelDef) = None ->
   belongsToMany (fst (associate s modelDef)) = belongsToMany s).
Proof.
  assert (forall (m : gmap string SailsModel) key,
             option_Forall2 sameButScope (m !! key) (m !! key)) as Hrefl.
  { intros m key. destruct (m !! key); constructor. apply sameButScope_refl. }
  unfold associate. destruct (options modelDef) as [opts|];
    [| cbn [fst snd]; repeat split; auto].
  destruct (setAssociation_effect s modelDef) as (Hm & Hcalls & Hbtm).
  destruct (setAssociation s modelDef) as [s1 [e|]]; cbn [fst snd] in *.
  { split; [| split]; [| exact Hcalls | discriminate]. intros key. rewrite Hm. apply Hrefl. }
  unfold setDefaultScope, getProperty.
  destruct (sails_models s1 !! toLowerCase (globalId modelDef)) as [m|] eqn:Hlook;
    [| destruct (inheritedName (toLowerCase (globalId modelDef)))];
    destruct (defaultScope modelDef) as [| | result |]; cbn [fst snd sails_models setModels
      belongsToMany association_calls];
    (split; [| split]; [| exact Hcalls | auto; try discriminate]);
    intros key; rewrite <- Hm;
    try apply Hrefl;
    (destruct (decide (toLowerCase (globalId modelDef) = key)) as [<- | Hne];
     [rewrite lookup_insert_eq, Hlook; constructor | rewrite lookup_insert_ne by exact Hne;
                                                     apply Hrefl]);
    try apply sameButScope_refl.
  reflexivity.
Qed.

(** X6.  The association pass changes nothing of a registered model but its
    default scope, removes and adds no entry of the registry, and keeps the
    calls already made to [belongsToMany]; and when the pass returns,
    [Sequelize.Model.belongsToMany] is again the method that was installed
    before the pass: the replacement made for one definition never outlives
    the pass. *)
Theorem secondPass_restores_belongsToMany :
  forall (s : Sails) (models : list (string * ModelDef)),
    (forall key, option_Forall2 sameButScope (sails_models s !! key)
                   (sails_models (fst (secondPass s models)) !! key)) /\
    association_calls s `prefix_of` association_calls (fst (secondPass s models)) /\
    (snd (secondPass s models) = None ->
     belongsToMany (fst (secondPass s models)) = belongsToMany s).
Proof.
  intros s models. unfold secondPass. revert s.
  induction models as [|entry rest IH]; intros s; cbn [forIn].
  - cbn [fst snd]. repeat split; auto. intros key.
    destruct (sails_models s !! key); constructor. apply sameButScope_refl.
  - destruct (associate_effect s (snd entry)) as (Hm & Hcalls & Hbtm).
    destruct (associate s (snd entry)) as [s1 [e|]]; cbn [fst snd] in *.
    + split; [exact Hm | split; [exact Hcalls | discriminate]].
    + destruct (IH s1) as (Hm2 & Hcalls2 & Hbtm2).
      split; [| split].
      * intros key. specialize (Hm key). specialize (Hm2 key).
        destruct Hm as [m1 m2 H12 |]; inversion Hm2 as [m2' m3 H23 |]; subst;
          constructor. eapply sameButScope_trans; eauto.
      * etrans; eauto.
      * intros Hnone. rewrite (Hbtm2 Hnone). auto.
Qed.

(** ** The accumulation pass: growth and idempotence *)

Lemma queueIndex_cases (pending : option (list IndexSpec)) (index : IndexSpec) :
  (isJunctionIndex index = false /\ queueIndex pending index = pending) \/
  (isJunctionIndex index = true /\
   (((exists p, p ∈ default [] pending /\ idx_fields p = idx_fields index) /\
     queueIndex pending index = Some (default [] pending)) \/
    ((forall p, p ∈ default [] pending -> idx_fields p <> idx_fields index) /\
     queueIndex pending index = Some (default [] pending ++ [index])%list))).
Proof.
  unfold queueIndex, isJunctionIndex.
  destruct (isFalse (idx_unique index)); [| left; auto].
  destruct (idx_fields index) as [fields|] eqn:Hf; [| left; auto].
  cbn [andb].
  destruct ((2 <=? length fields)%nat); [| left; auto].
  right. split; [reflexivity |].
  destruct (existsb _ (default [] pending)) eqn:E.
  - left. split; [| reflexivity]. now apply existsb_same_fields.
  - right. split; [| reflexivity]. intros p Hin Hp.
    assert (existsb (fun idx =>
              strict_eq_ostring (JSON_stringify (idx_fields idx))
                                (JSON_stringify (Some fields))) (default [] pending) = true)
      as E' by (apply existsb_same_fields; eauto).
    congruence.
Qed.

Lemma queueIndex_extends pending index :
  exists added,
    default [] (queueIndex pending index) = (default [] pending ++ added)%list /\
    Forall (fun i => isJunctionIndex i = true) added.
Proof.
  destruct (queueIndex_cases pending index) as [[_ ->] | [Hj [[_ ->] | [_ ->]]]].
  - exists []. split; [now rewrite app_nil_r | constructor].
  - exists []. split; [now rewrite app_nil_r | constructor].
  - exists [index]. split; [reflexivity | now repeat constructor].
Qed.

Lemma fold_queueIndex_extends (ixs : list IndexSpec) :
  forall pending,
    exists added,
      default [] (fold_left queueIndex ixs pending) = (default [] pending ++ added)%list /\
      Forall (fun i => isJunctionIndex i = true) added.
Proof.
  induction ixs as [|index rest IH]; intros pending; cbn [fold_left].
  - exists []. split; [now rewrite app_nil_r | constructor].
  - destruct (queueIndex_extends pending index) as (a1 & H1 & F1).
    destruct (IH (queueIndex pending index)) as (a2 & H2 & F2).
    exists (a1 ++ a2)%list. split; [| now apply Forall_app].
    rewrite H2, H1. now rewrite <- app_assoc.
Qed.

Lemma extendsPending_refl m : extendsPending m m.
Proof.
  split; [now destruct m |]. exists []. split; [now rewrite app_nil_r | constructor].
Qed.

Lemma extendsPending_trans m1 m2 m3 :
  extendsPending m1 m2 -> extendsPending m2 m3 -> extendsPending m1 m3.
Proof.
  intros [H12 (a1 & E1 & F1)] [H23 (a2 & E2 & F2)]. split.
  - unfold sameButIndexes in *. rewrite H23 at 1. rewrite H12. reflexivity.
  - exists (a1 ++ a2)%list. split; [| now apply Forall_app].
    rewrite E2, E1. now rewrite <- app_assoc.
Qed.

Lemma accumulateIndexes_effect s modelDef :
  belongsToMany (accumulateIndexes s modelDef) = belongsToMany s /\
  association_calls (accumulateIndexes s modelDef) = association_calls s /\
  forall key, option_Forall2 extendsPending (sails_models s !! key)
                (sails_models (accumulateIndexes s modelDef) !! key).
Proof.
  assert (forall key, option_Forall2 extendsPending (sails_models s !! key)
                        (sails_models s !! key)) as Hrefl.
  { intros key. destruct (sails_models s !! key); constructor. apply extendsPending_refl. }
  unfold accumulateIndexes. destruct (options modelDef) as [opts|]; [| auto].
  destruct (indexes opts) as [ixs|]; [| auto].
  destruct (sails_models s !! toLowerCase (globalId modelDef)) as [m|] eqn:Hlook; [| auto].
  cbn [belongsToMany association_calls sails_models setModels].
  split; [reflexivity | split; [reflexivity |]]. intros key.
  destruct (decide (toLowerCase (globalId modelDef) = key)) as [<- | Hne].
  - rewrite lookup_insert_eq, Hlook. constructor. split; [reflexivity |].
    apply fold_queueIndex_extends.
  - rewrite lookup_insert_ne by exact Hne. apply Hrefl.
Qed.

(** X7.  The accumulation pass only ever appends to pending lists: it adds
    and removes no entry of the registry, it changes nothing of a model but
    [_indexes], the pending list of every model after the pass starts with
    the pending list it had before (an absent list counting as empty), and
    every index that the pass appended has [unique: false] and at least two
    fields.  The pass leaves [belongsToMany] and the calls made to it alone. *)
Theorem thirdPass_only_appends :
  forall (s : Sails) (models : list (string * ModelDef)),
    belongsToMany (thirdPass s models) = belongsToMany s /\
    association_calls (thirdPass s models) = association_calls s /\
    forall key, option_Forall2 extendsPending (sails_models s !! key)
                  (sails_models (thirdPass s models) !! key).
Proof.
  intros s models. unfold thirdPass. revert s.
  induction models as [|entry rest IH]; intros s; cbn [fold_left].
  - repeat split. intros key. destruct (sails_models s !! key); constructor.
    apply extendsPending_refl.
  - destruct (accumulateIndexes_effect s (snd entry)) as (Hb & Hc & Hm).
    destruct (IH (accumulateIndexes s (snd entry))) as (Hb2 & Hc2 & Hm2).
    split; [congruence | split; [congruence |]].
    intros key. specialize (Hm key). specialize (Hm2 key).
    destruct Hm as [m1 m2 H12 |]; inversion Hm2 as [m2' m3 H23 |]; subst; constructor.
    eapply extendsPending_trans; eauto.
Qed.

Lemma queueIndex_stable pending index :
  (isJunctionIndex index = true ->
   exists current p, pending = Some current /\ p ∈ current /\
                     idx_fields p = idx_fields index) ->
  queueIndex pending index = pending.
Proof.
  intros H. destruct (queueIndex_cases pending index) as [[_ E] | [Hj [[_ E] | [Hno E]]]];
    [exact E | |]; destruct (H Hj) as (current & p & -> & Hin & Hp); [exact E |].
  destruct (Hno p Hin Hp).
Qed.

Lemma queueIndex_keeps pending index current p :
  pending = Some current -> p ∈ current ->
  exists current', queueIndex pending index = Some current' /\ p ∈ current'.
Proof.
  intros -> Hin. destruct (queueIndex_cases (Some current) index)
    as [[_ ->] | [_ [[_ ->] | [_ ->]]]]; eexists; (split; [reflexivity |]); auto.
  apply elem_of_app. auto.
Qed.

Lemma covered_queueIndex ixs pending index :
  covered ixs pending -> covered ixs (queueIndex pending index).
Proof.
  intros H i Hin Hj. destruct (H i Hin Hj) as (current & p & Hp & Hpin & Hf).
  destruct (queueIndex_keeps pending index current p Hp Hpin) as (current' & -> & Hin').
  eauto.
Qed.

Lemma covered_fold ixs (l : list IndexSpec) :
  forall pending, covered ixs pending -> covered ixs (fold_left queueIndex l pending).
Proof.
  induction l as [|index rest IH]; intros pending H; cbn [fold_left]; [exact H |].
  apply IH. now apply covered_queueIndex.
Qed.

Lemma fold_queueIndex_covers (ixs : list IndexSpec) :
  forall pending, covered ixs (fold_left queueIndex ixs pending).
Proof.
  induction ixs as [|index rest IH]; intros pending; cbn [fold_left].
  - intros i Hin. now apply elem_of_nil in Hin.
  - intros i Hin Hj. apply elem_of_cons in Hin as [-> | Hin].
    + apply (covered_fold [index] rest (queueIndex pending index));
        [| apply list_elem_of_here | exact Hj].
      intros i Hi Hji. apply list_elem_of_singleton in Hi. subst i.
      destruct (queueIndex_cases pending index)
        as [[Hn _] | [_ [[(p & Hp & Hf) ->] | [_ ->]]]]; [congruence | eauto |].
      exists (default [] pending ++ [index])%list, index.
      split; [reflexivity | split; [| reflexivity]].
      apply elem_of_app. right. apply list_elem_of_here.
    + now apply (IH (queueIndex pending index)).
Qed.

Lemma fold_queueIndex_stable (ixs : list IndexSpec) pending :
  covered ixs pending -> fold_left queueIndex ixs pending = pending.
Proof.
  induction ixs as [|index rest IH]; intros H; cbn [fold_left]; [reflexivity |].
  rewrite queueIndex_stable.
  - apply IH. intros i Hin. apply H. now apply list_elem_of_further.
  - apply H. apply list_elem_of_here.
Qed.

Lemma settled_self s modelDef : settled (accumulateIndexes s modelDef) modelDef.
Proof.
  intros opts ixs m Ho Hi. unfold accumulateIndexes. rewrite Ho, Hi.
  destruct (sails_models s !! toLowerCase (globalId modelDef)) as [m0|] eqn:Hlook.
  - cbn [sails_models setModels]. rewrite lookup_insert_eq. intros [= <-].
    cbn [_indexes setIndexes]. apply fold_queueIndex_covers.
  - congruence.
Qed.

Lemma settled_step s modelDef other :
  settled s modelDef -> settled (accumulateIndexes s other) modelDef.
Proof.
  intros H opts ixs m Ho Hi. unfold accumulateIndexes.
  destruct (options other) as [opts'|]; [| exact (H opts ixs m Ho Hi)].
  destruct (indexes opts') as [ixs'|]; [| exact (H opts ixs m Ho Hi)].
  destruct (sails_models s !! toLowerCase (globalId other)) as [m0|] eqn:Hlook;
    [| exact (H opts ixs m Ho Hi)].
  cbn [sails_models setModels].
  destruct (decide (toLowerCase (globalId other) = toLowerCase (globalId modelDef)))
    as [E | Hne].
  - rewrite E, lookup_insert_eq. intros [= <-]. cbn [_indexes setIndexes].
    apply covered_fold. apply (H opts ixs m0 Ho Hi). now rewrite <- E.
  - rewrite lookup_insert_ne by exact Hne. exact (H opts ixs m Ho Hi).
Qed.

Lemma settled_thirdPass modelDef (models : list (string * ModelDef)) :
  forall s, settled s modelDef -> settled (thirdPass s models) modelDef.
Proof.
  unfold thirdPass. induction models as [|entry rest IH]; intros s H; cbn [fold_left];
    [exact H |].
  apply IH. now apply settled_step.
Qed.

Lemma settled_fixpoint s modelDef : settled s modelDef -> accumulateIndexes s modelDef = s.
Proof.
  intros H. unfold accumulateIndexes.
  destruct (options modelDef) as [opts|] eqn:Ho; [| reflexivity].
  destruct (indexes opts) as [ixs|] eqn:Hi; [| reflexivity].
  destruct (sails_models s !! toLowerCase (globalId modelDef)) as [m|] eqn:Hlook;
    [| reflexivity].
  rewrite (fold_queueIndex_stable ixs (_indexes m) (H opts ixs m Ho Hi Hlook)).
  destruct s as [registry impl calls]. cbn [sails_models] in Hlook. unfold setModels.
  cbn [sails_models belongsToMany association_calls]. f_equal.
  apply insert_id. rewrite Hlook. now destruct m.
Qed.

(** X8.  The accumulation pass is idempotent: run once more on the state
    that it produced, over the same definitions, it changes nothing, so no
    index is ever queued twice, however many definitions share a registry
    key. *)
Theorem thirdPass_idempotent :
  forall (s : Sails) (models : list (string * ModelDef)),
    thirdPass (thirdPass s models) models = thirdPass s models.
Proof.
  intros s models.
  assert (Forall (fun entry => settled (thirdPass s models) (snd entry)) models) as Hall.
  { revert s. induction models as [|entry rest IH]; intros s; constructor.
    - change (thirdPass s (entry :: rest))
        with (thirdPass (accumulateIndexes s (snd entry)) rest).
      apply settled_thirdPass, settled_self.
    - apply (IH (accumulateIndexes s (snd entry))). }
  generalize dependent (thirdPass s models). intros final Hall.
  unfold thirdPass. induction Hall as [|entry rest Hentry _ IH]; cbn [fold_left];
    [reflexivity |].
  now rewrite settled_fixpoint.
Qed.

(** ** The replacement of [belongsToMany], call by call *)

Lemma suppressForThrough_cases models name o :
  suppressForThrough models name o = o \/
  (suppressForThrough models name o = suppressUniqueKey o /\
   exists m opts ixs,
     models !! toLowerCase name = Some m /\ model_options m = Some opts /\
     indexes opts = Some ixs /\ hasNonUniqueIndex ixs = true).
Proof.
  unfold suppressForThrough.
  destruct (models !! toLowerCase name) as [m|]; [| auto].
  destruct (model_options m) as [opts|] eqn:Ho; [| auto].
  destruct (indexes opts) as [ixs|] eqn:Hi; [| auto].
  destruct (hasNonUniqueIndex ixs) eqn:Hn; [| auto].
  right. split; [reflexivity |]. exists m, opts, ixs. auto.
Qed.

(** X9.  The replacement of [belongsToMany] changes nothing of the options
    it is given but [uniqueKey], and it changes [uniqueKey] only to [false]
    and only for a [through] in object form that either carries [unique:
    false] itself or names, as a non-empty string or as a named model class,
    a model of the registry whose options declare a non-unique index on
    exactly two fields.  A [through] given as a string or as a model class
    is passed on untouched; and [unique: false] on an object-form [through]
    always turns [uniqueKey] off, whatever the registry holds. *)
Theorem intercept_changes_uniqueKey_only_when_told :
  forall (models : gmap string SailsModel) (o : AssocOptions),
    (forall o',
        intercept models o = Normal o' ->
        through o' = through o /\ assoc_as o' = assoc_as o /\
        (o' = o \/
         uniqueKey o' = UkFalse /\
         exists t,
           through o = ThObject t /\
           (through_unique t = Some false \/
            exists name m opts ixs,
              (through_model t = TmString name \/ through_model t = TmClass name) /\
              name <> "" /\
              models !! toLowerCase name = Some m /\
              model_options m = Some opts /\
              indexes opts = Some ixs /\
              hasNonUniqueIndex ixs = true))) /\
    ((forall t, through o <> ThObject t) -> intercept models o = Normal o) /\
    (forall t,
        through o = ThObject t ->
        through_unique t = Some false ->
        through_model t <> TmClass "" ->
        exists o', intercept models o = Normal o' /\ uniqueKey o' = UkFalse).
Proof.
  intros models o. split; [| split].
  - intros o'. unfold intercept.
    destruct (through o) as [| | | t] eqn:Ht; try (intros [= <-]; auto).
    assert (forall o1,
               through o1 = through o -> assoc_as o1 = assoc_as o ->
               (o1 = o \/ uniqueKey o1 = UkFalse /\
                  exists name m opts ixs,
                    (through_model t = TmString name \/ through_model t = TmClass name) /\
                    name <> "" /\ models !! toLowerCase name = Some m /\
                    model_options m = Some opts /\ indexes opts = Some ixs /\
                    hasNonUniqueIndex ixs = true) ->
               Normal (if isFalse (through_unique t) then suppressUniqueKey o1 else o1)
                 = Normal o' ->
               through o' = ThObject t /\ assoc_as o' = assoc_as o /\
               (o' = o \/
                uniqueKey o' = UkFalse /\
                exists t0,
                  ThObject t = ThObject t0 /\
                  (through_unique t0 = Some false \/
                   exists name m opts ixs,
                     (through_model t0 = TmString name \/ through_model t0 = TmClass name) /\
                     name <> "" /\ models !! toLowerCase name = Some m /\
                     model_options m = Some opts /\ indexes opts = Some ixs /\
                     hasNonUniqueIndex ixs = true))) as Hlast.
    { intros o1 H1 H2 H3 [= <-].
      destruct (through_unique t) as [[]|] eqn:Hu; cbn [isFalse].
      - split; [congruence | split; [exact H2 |]].
        destruct H3 as [-> | [Hk Hex]]; [auto |].
        right. split; [exact Hk |]. exists t. auto.
      - cbn. split; [congruence | split; [exact H2 |]].
        right. split; [reflexivity |]. exists t. auto.
      - split; [congruence | split; [exact H2 |]].
        destruct H3 as [-> | [Hk Hex]]; [auto |].
        right. split; [exact Hk |]. exists t. auto. }
    assert (forall name,
               (through_model t = TmString name \/ through_model t = TmClass name) ->
               name <> "" ->
               Normal (if isFalse (through_unique t)
                       then suppressUniqueKey (suppressForThrough models name o)
                       else suppressForThrough models name o) = Normal o' ->
               through o' = ThObject t /\ assoc_as o' = assoc_as o /\
               (o' = o \/
                uniqueKey o' = UkFalse /\
                exists t0,
                  ThObject t = ThObject t0 /\
                  (through_unique t0 = Some false \/
                   exists name m opts ixs,
                     (through_model t0 = TmString name \/ through_model t0 = TmClass name) /\
                     name <> "" /\ models !! toLowerCase name = Some m /\
                     model_options m = Some opts /\ indexes opts = Some ixs /\
                     hasNonUniqueIndex ixs = true))) as Hnamed.
    { intros name Hmodel Hname. apply Hlast.
      - apply suppressForThrough_through.
      - destruct (suppressForThrough_cases models name o) as [-> | [-> _]]; reflexivity.
      - destruct (suppressForThrough_cases models name o)
          as [-> | [-> (m & opts & ixs & H1 & H2 & H3 & H4)]]; [auto |].
        right. split; [reflexivity |]. exists name, m, opts, ixs.
        split; [exact Hmodel | repeat split; assumption]. }
    destruct (through_model t) as [| name | name] eqn:Hm; cbn [mbind completion_bind].
    + apply Hlast; auto.
    + destruct (String.eqb_spec name "") as [-> | Hne]; cbn [mbind completion_bind].
      * apply Hlast; auto.
      * apply (Hnamed name); auto.
    + destruct (String.eqb_spec name "") as [-> | Hne]; cbn [mbind completion_bind];
        [discriminate |].
      apply (Hnamed name); auto.
  - intros Hno. unfold intercept. destruct (through o) as [| | | t]; try reflexivity.
    destruct (Hno t eq_refl).
  - intros t Ht Hu Hclass. unfold intercept. rewrite Ht, Hu. cbn [isFalse].
    destruct (through_model t) as [| name | name]; cbn [mbind completion_bind].
    + eauto.
    + destruct (String.eqb name ""); cbn [mbind completion_bind]; eauto.
    + destruct (String.eqb_spec name "") as [-> | Hne]; [congruence |].
      cbn [mbind completion_bind]. eauto.
Qed.

(** ** Index introspection and the filter of pending indexes *)

(** X10.  [deduplicateIndexes] issues at most one call, and that call is a
    query on the connection it was given: it never issues a structural
    call.  A non-empty answer is always made of the rows of that query, one
    entry per row and in their order.  For 'postgres' the catalog is asked
    for the lower-cased table name, so that two names that differ only in
    case get the same query and the same answer. *)
Theorem deduplicateIndexes_one_catalog_query :
  forall (db : Db) (cn : string) (tableName : TableName) (dialect : string),
    (fst (deduplicateIndexes db cn tableName dialect) = [] \/
     exists sql, fst (deduplicateIndexes db cn tableName dialect) = [CallQuery cn sql]) /\
    (forall existingIndexes,
        snd (deduplicateIndexes db cn tableName dialect) = Normal existingIndexes ->
        existingIndexes <> [] ->
        exists sql rows,
          fst (deduplicateIndexes db cn tableName dialect) = [CallQuery cn sql] /\
          db_query db cn sql = Normal rows /\
          length existingIndexes = length rows /\
          (dialect = "postgres" /\ map ex_name existingIndexes = map indexname rows \/
           dialect = "mysql" /\ map ex_name existingIndexes = map Key_name rows)) /\
    (forall a b,
        toLowerCase a = toLowerCase b ->
        deduplicateIndexes db cn (TableString a) "postgres" =
        deduplicateIndexes db cn (TableString b) "postgres").
Proof.
  intros db cn tableName dialect.
  assert (forall a b, toLowerCase a = toLowerCase b ->
                      deduplicateIndexes db cn (TableString a) "postgres" =
                      deduplicateIndexes db cn (TableString b) "postgres") as Hcase.
  { intros a b Hab. unfold deduplicateIndexes, deduplicateIndexes_try.
    change (String.eqb "postgres" "postgres") with true. cbn iota.
    unfold postgresIndexQuery. now rewrite Hab. }
  split; [| split; [| exact Hcase]].
  - unfold deduplicateIndexes, deduplicateIndexes_try.
    destruct (String.eqb dialect "postgres").
    + destruct tableName as [t | rendered]; [| left; reflexivity].
      right. exists (postgresIndexQuery t).
      destruct (db_query db cn (postgresIndexQuery t)); reflexivity.
    + destruct (String.eqb dialect "mysql"); [| left; reflexivity].
      right. exists (mysqlIndexQuery tableName).
      destruct (db_query db cn (mysqlIndexQuery tableName)); reflexivity.
  - intros existingIndexes. unfold deduplicateIndexes, deduplicateIndexes_try.
    destruct (String.eqb_spec dialect "postgres") as [-> | Hpg].
    + destruct tableName as [t | rendered]; cbn [fst snd]; [| intros [= <-]; congruence].
      destruct (db_query db cn (postgresIndexQuery t)) as [rows | e] eqn:Q;
        cbn [mbind completion_bind fst snd]; [| intros [= <-]; congruence].
      intros [= <-] _. exists (postgresIndexQuery t), rows.
      split; [reflexivity | split; [exact Q | split; [apply length_map |]]].
      left. split; [reflexivity |]. rewrite map_map. reflexivity.
    + destruct (String.eqb_spec dialect "mysql") as [-> | Hmy]; cbn [fst snd];
        [| intros [= <-]; congruence].
      destruct (db_query db cn (mysqlIndexQuery tableName)) as [rows | e] eqn:Q;
        cbn [mbind completion_bind fst snd]; [| intros [= <-]; congruence].
      intros [= <-] _. exists (mysqlIndexQuery tableName), rows.
      split; [reflexivity | split; [exact Q | split; [apply length_map |]]].
      right. split; [reflexivity |]. rewrite map_map. reflexivity.
Qed.

Lemma newIndexesOf_kept tableName existingIndexes (pending : list IndexSpec) :
  forall kept,
    newIndexesOf tableName existingIndexes pending = Normal kept ->
    kept `sublist_of` pending /\
    forall idx,
      idx ∈ kept <->
      idx ∈ pending /\
      exists name, indexNameOf tableName idx = Normal name /\
                   existsNamed existingIndexes name = false.
Proof.
  induction pending as [|i rest IH]; intros kept; cbn [newIndexesOf].
  - intros [= <-]. split; [constructor |]. intros idx. split.
    + intros H. now apply elem_of_nil in H.
    + intros [H _]. exact H.
  - destruct (indexNameOf tableName i) as [name | e] eqn:Hname;
      cbn [mbind completion_bind]; [| discriminate].
    destruct (newIndexesOf tableName existingIndexes rest) as [l | e];
      cbn [mbind completion_bind]; [| discriminate].
    destruct (IH l eq_refl) as [Hsub Hiff].
    destruct (existsNamed existingIndexes name) eqn:Hex; intros [= <-].
    + split; [now constructor |]. intros idx. rewrite Hiff, elem_of_cons. split.
      * intros [H1 H2]. auto.
      * intros [[-> | H1] (n & Hn & Hx)]; [congruence | eauto].
    + split; [now constructor |]. intros idx. rewrite !elem_of_cons, Hiff. split.
      * intros [-> | [H1 H2]]; eauto.
      * intros [[-> | H1] H2]; auto.
Qed.

Lemma newIndexesOf_throws tableName existingIndexes (pending : list IndexSpec) idx :
  idx ∈ pending ->
  truthy (idx_name idx) = false ->
  idx_fields idx = None ->
  newIndexesOf tableName existingIndexes pending =
    Throw (TypeError "Cannot read properties of undefined (reading 'join')").
Proof.
  intros Hin Hn Hf.
  assert (forall i, (exists name, indexNameOf tableName i = Normal name) \/
                    indexNameOf tableName i =
                      Throw (TypeError "Cannot read properties of undefined (reading 'join')"))
    as Hcases.
  { intros i. unfold indexNameOf. destruct (truthy (idx_name i)); [eauto |].
    destruct (idx_fields i); eauto. }
  induction pending as [|i rest IH]; [now apply elem_of_nil in Hin |].
  cbn [newIndexesOf]. apply elem_of_cons in Hin as [<- | Hin].
  - unfold indexNameOf. now rewrite Hn, Hf.
  - destruct (Hcases i) as [[name ->] | ->]; [| reflexivity].
    cbn [mbind completion_bind]. now rewrite (IH Hin).
Qed.

Lemma existsNamed_false (existingIndexes : list ExistingIndex) (name : string) :
  existsNamed existingIndexes name = false <->
  forall existing, existing ∈ existingIndexes -> ex_name existing <> Some name.
Proof.
  unfold existsNamed. induction existingIndexes as [|x l IH]; cbn [existsb].
  - split; [| reflexivity]. intros _ existing H. now apply elem_of_nil in H.
  - rewrite orb_false_iff, IH. split.
    + intros [Hx Hl] existing Hin. apply elem_of_cons in Hin as [-> | Hin]; [| auto].
      destruct (ex_name x) as [n|]; [| discriminate].
      apply String.eqb_neq in Hx. congruence.
    + intros H. split.
      * specialize (H x (list_elem_of_here _ _)).
        destruct (ex_name x) as [n|]; [| reflexivity].
        apply String.eqb_neq. congruence.
      * intros existing Hin. apply H. now apply list_elem_of_further.
Qed.

(** X11.  The filter of lines 376-396, for a model with a pending list that
    is not empty: when it completes, the new pending list is the old one
    with some entries taken out, in the same order, and an entry is kept
    exactly when its name ([name] if that is a non-empty string, else the
    table name and the fields joined by underscores) is the name of no
    existing index; it throws a TypeError when an entry has neither a name
    nor fields.  An absent or empty pending list is left as it is. *)
Theorem filterPending_keeps_new_indexes :
  forall (tableName : TableName) (existingIndexes : list ExistingIndex)
         (pending : option (list IndexSpec)),
    (pending = None \/ pending = Some [] ->
     filterPending tableName existingIndexes pending = Normal pending) /\
    (forall current kept,
        pending = Some current ->
        current <> [] ->
        filterPending tableName existingIndexes pending = Normal kept ->
        exists l,
          kept = Some l /\ l `sublist_of` current /\
          forall idx,
            idx ∈ l <->
            idx ∈ current /\
            exists name,
              (truthy (idx_name idx) = true -> idx_name idx = Some name) /\
              (truthy (idx_name idx) = false ->
               exists fields, idx_fields idx = Some fields /\
                              name = renderTableName tableName +:+ "_" +:+ join "_" fields) /\
              forall existing,
                existing ∈ existingIndexes -> ex_name existing <> Some name) /\
    (forall current idx,
        pending = Some current ->
        idx ∈ current ->
        truthy (idx_name idx) = false ->
        idx_fields idx = None ->
        filterPending tableName existingIndexes pending =
          Throw (TypeError "Cannot read properties of undefined (reading 'join')")).
Proof.
  intros tableName existingIndexes pending. split; [| split].
  - intros [-> | ->]; reflexivity.
  - intros current kept -> Hne. destruct current as [|i rest]; [congruence |].
    cbn [filterPending].
    destruct (newIndexesOf tableName existingIndexes (i :: rest)) as [l | e] eqn:Hnew;
      cbn [mbind completion_bind]; [| discriminate].
    intros [= <-]. destruct (newIndexesOf_kept _ _ _ _ Hnew) as [Hsub Hiff].
    exists l. split.
    + destruct l; reflexivity.
    + split; [exact Hsub |]. intros idx. rewrite Hiff. split.
      * intros [Hin (name & Hname & Hex)]. split; [exact Hin |]. exists name.
        pose proof (proj1 (existsNamed_false _ _) Hex) as Hno. unfold indexNameOf in Hname.
        destruct (truthy (idx_name idx)) eqn:Ht.
        -- split; [| split; [discriminate | exact Hno]]. intros _.
           destruct (idx_name idx); [| discriminate]. cbn in Hname. congruence.
        -- split; [discriminate | split; [| exact Hno]]. intros _.
           destruct (idx_fields idx) as [fields|]; [| discriminate].
           exists fields. split; [reflexivity | congruence].
      * intros [Hin (name & Hgiven & Hderived & Hex)]. split; [exact Hin |].
        exists name. split; [| exact (proj2 (existsNamed_false _ _) Hex)].
        unfold indexNameOf. destruct (truthy (idx_name idx)) eqn:Ht.
        -- now rewrite (Hgiven eq_refl).
        -- destruct (Hderived eq_refl) as (fields & -> & ->). reflexivity.
  - intros current idx -> Hin Hn Hf. destruct current as [|i rest];
      [now apply elem_of_nil in Hin |].
    cbn [filterPending].
    now rewrite (newIndexesOf_throws tableName existingIndexes (i :: rest) idx Hin Hn Hf).
Qed.

(** ** Convergence: one task for each owned connection *)

(** Outside a dry run the loop, when no entry makes it throw, pushes the
    task of each owned entry and issues the first call of each, in the
    order of the entries. *)
Lemma visitAll_tasks db cfg connections flags (ds : Datastores) :
  dryRun cfg = false ->
  Forall (fun entry =>
            exists o, ownership (snd entry) = Normal o /\
                      (o <> None -> is_Some (connections !! fst entry))) ds ->
  forall r syncTasks,
    forIn (visitConnection db cfg connections flags) (r, syncTasks) ds =
      ((mkRun (run_models r)
          (run_calls r ++ concat (map (callsFor cfg flags) (ownedEntries ds)))
          (run_reports r),
        syncTasks ++ map (taskFor db cfg flags) (ownedEntries ds))%list, None).
Proof.
  intros Hdry. induction 1 as [|[cn c] rest (o & Ho & Hc) _ IH]; intros r syncTasks.
  - cbn. rewrite !app_nil_r. now destruct r.
  - cbn [fst snd] in Ho, Hc. cbn [forIn ownedEntries].
    unfold visitConnection at 1. rewrite Ho.
    destruct o as [d|]; [| apply IH].
    rewrite Hdry. cbn [map concat].
    destruct (smartMigrate cfg && snd flags) eqn:Hs.
    + rewrite IH.
      assert (taskFor db cfg flags (cn, d) = SmartFunction cn d) as ->
        by (unfold taskFor; now rewrite Hs).
      assert (callsFor cfg flags (cn, d) = []) as -> by (unfold callsFor; now rewrite Hs).
      cbn [app]. now rewrite <- app_assoc.
    + destruct (Hc ltac:(discriminate)) as [k Hk]. rewrite Hk.
      destruct (String.eqb d "postgres") eqn:Hpg; rewrite IH;
        unfold taskFor at 2, callsFor at 2; cbn [fst snd]; rewrite Hs, Hpg;
        cbn [issue run_models run_calls run_reports]; now rewrite <- !app_assoc.
Qed.

Lemma settle_result db models flags task r :
  snd (settle db models flags task r) = settles db models flags task.
Proof.
  unfold settles. destruct task as [cn d | cn [schemas | e] | cn settled]; try reflexivity.
  cbn [settle]. unfold afterShowAllSchemas.
  assert (forall r1 r2, snd (createSchemas cn models schemas r1)
                        = snd (createSchemas cn models schemas r2)) as Hindep.
  { clear. revert schemas. induction models as [|[k d] rest IH]; intros schemas r1 r2;
      cbn [createSchemas]; [reflexivity |].
    destruct (options d) as [opts|]; [| reflexivity].
    destruct (_ && _); apply IH. }
  specialize (Hindep r (mkRun ∅ [] [])).
  destruct (createSchemas cn models schemas r) as [r1 [e|]],
           (createSchemas cn models schemas (mkRun ∅ [] [])) as [r2 [e'|]];
    cbn [snd] in *; congruence.
Qed.

Lemma promiseAll_result db models flags (syncTasks : list SyncTask) :
  forall r,
    (snd (promiseAll db models flags syncTasks r) = None <->
     Forall (fun task => exists u, settles db models flags task = Normal u) syncTasks) /\
    (forall e, snd (promiseAll db models flags syncTasks r) = Some e ->
               exists task, task ∈ syncTasks /\ settles db models flags task = Throw e).
Proof.
  induction syncTasks as [|task rest IH]; intros r; cbn [promiseAll].
  - split; [split; [constructor | reflexivity] | discriminate].
  - pose proof (settle_result db models flags task r) as Hs.
    destruct (settle db models flags task r) as [r1 c]. cbn [snd] in Hs.
    destruct (IH r1) as [Hnone Hsome].
    destruct (promiseAll db models flags rest r1) as [r2 later]. cbn [snd] in *.
    destruct c as [u | e0].
    + split.
      * rewrite Hnone. split.
        -- intros H. constructor; eauto.
        -- intros H. now apply Forall_cons in H as [_ H].
      * intros e He. destruct (Hsome e He) as (t & Hin & Ht).
        exists t. split; [now apply list_elem_of_further | exact Ht].
    + split.
      * split; [discriminate |]. intros H. apply Forall_cons in H as [[u Hu] _]. congruence.
      * intros e [= <-]. exists task. split; [apply list_elem_of_here | congruence].
Qed.

(** X12.  Outside a dry run and for a strategy other than 'safe',
    convergence on the connections that [initConnections] returned never
    throws and builds exactly one task for each owned connection, in the
    order of the configuration: the function of line 356 when smart
    migration is on and the strategy is 'alter', else the promise of the
    schema listing for the dialect 'postgres', else the promise of [sync].
    The first calls, one for each connection outside the smart-migrate path,
    are issued in that order before any callback runs. *)
Theorem migrateSchema_one_task_per_owned_connection :
  forall sails_log newSequelize (db : Db) (cfg : SailsConfig) (connections : gmap string Connection)
         (models : list (string * ModelDef)) (sailsModels : gmap string SailsModel),
    initConnections sails_log newSequelize cfg = Normal connections ->
    migrate cfg <> Some "safe" ->
    dryRun cfg = false ->
    exists ds,
      datastoresOf (configAfterInit sails_log newSequelize cfg) = Some ds /\
      syncTasks_built
        (migrateSchema db (configAfterInit sails_log newSequelize cfg) connections models
            sailsModels) =
        map (taskFor db (configAfterInit sails_log newSequelize cfg) (syncFlags (migrate cfg)))
          (ownedEntries ds) /\
      (exists later,
          run_calls (final
              (migrateSchema db (configAfterInit sails_log newSequelize cfg) connections
                              models sailsModels)) =
            (concat
                (map (callsFor (configAfterInit sails_log newSequelize cfg) (syncFlags (migrate cfg)))
                       (ownedEntries ds)) ++ later)%list) /\
      exists err,
        outcome (migrateSchema db (configAfterInit sails_log newSequelize cfg) connections models
                   sailsModels) = Next err.
Proof.
  intros sails_log newSequelize db cfg connections models sailsModels Hinit Hsafe Hdry.
  destruct (initConnections_returned sails_log newSequelize cfg connections Hinit)
    as (Hm & _ & Hd & ds & Hds & Hcl).
  exists ds. split; [exact Hds |].
  unfold migrateSchema. rewrite Hm, (isSafe_false _ Hsafe), Hds, Hd, Hdry.
  cbn [default from_option id].
  assert (dryRun (configAfterInit sails_log newSequelize cfg) = false) as Hdry' by congruence.
  rewrite (visitAll_tasks db (configAfterInit sails_log newSequelize cfg) connections
             (syncFlags (migrate cfg)) ds Hdry' Hcl (mkRun sailsModels [] []) []).
  cbn [app run_calls run_models run_reports].
  set (loop := mkRun sailsModels _ []).
  set (tasks := map _ (ownedEntries ds)).
  destruct (promiseAll_calls db models (syncFlags (migrate cfg)) tasks loop) as (_ & _ & _).
  assert (exists later, run_calls (fst (promiseAll db models (syncFlags (migrate cfg)) tasks loop))
                        = (run_calls loop ++ later)%list) as [later Hlater].
  { clear. generalize loop. induction tasks as [|task rest IH]; intros r; cbn [promiseAll].
    - exists []. cbn. now rewrite app_nil_r.
    - assert (exists l1, run_calls (fst (settle db models (syncFlags (migrate cfg)) task r))
                         = (run_calls r ++ l1)%list) as [l1 H1].
      { destruct task as [cn d | cn [schemas | e] | cn settled]; cbn [settle fst];
          try (exists []; now rewrite app_nil_r).
        unfold afterShowAllSchemas.
        destruct (createSchemas_calls cn models schemas r) as (_ & _ & created & Hc).
        destruct (createSchemas cn models schemas r) as [r1 [e|]]; cbn [fst] in *.
        - eexists. exact Hc.
        - eexists. rewrite run_calls_issue, Hc. now rewrite <- app_assoc. }
      destruct (settle db models (syncFlags (migrate cfg)) task r) as [r1 c]. cbn [fst] in H1.
      destruct (IH r1) as [l2 H2].
      destruct (promiseAll db models (syncFlags (migrate cfg)) rest r1) as [r2 e2].
      cbn [fst] in *. exists (l1 ++ l2)%list. rewrite H2, H1. now rewrite <- app_assoc. }
  destruct (promiseAll db models (syncFlags (migrate cfg)) tasks loop) as [r1 [e|]];
    cbn [fst syncTasks_built final outcome report] in *.
  - split; [reflexivity | split; [| eauto]].
    exists later. now rewrite run_calls_reportFailure.
  - split; [reflexivity | split; [| eauto]]. exists later. exact Hlater.
Qed.

Lemma migrateSchema_one_task_per_owned_connection_witness :
  exists ds,
    datastoresOf (configAfterInit sampleLog sampleSequelize dropConfig) = Some ds /\
    syncTasks_built
      (migrateSchema freshDb (configAfterInit sampleLog sampleSequelize dropConfig) mysqlConnections
         userModels userRegistry) =
      map (taskFor freshDb (configAfterInit sampleLog sampleSequelize dropConfig)
             (syncFlags (migrate dropConfig))) (ownedEntries ds) /\
    (exists later,
        run_calls (final
            (migrateSchema freshDb (configAfterInit sampleLog sampleSequelize dropConfig)
                            mysqlConnections userModels userRegistry)) =
          (concat (map (callsFor (configAfterInit sampleLog sampleSequelize dropConfig)
                          (syncFlags (migrate dropConfig))) (ownedEntries ds)) ++ later)%list) /\
    exists err,
      outcome (migrateSchema freshDb (configAfterInit sampleLog sampleSequelize dropConfig)
          mysqlConnections
                 userModels userRegistry) = Next err.
Proof.
  apply (migrateSchema_one_task_per_owned_connection sampleLog sampleSequelize freshDb dropConfig
           mysqlConnections userModels userRegistry).
  - vm_compute. reflexivity.
  - discriminate.
  - reflexivity.
Defined.

(** ** Convergence: when the run succeeds *)

Lemma createSchemas_result cn (models : list (string * ModelDef)) :
  forall schemas r,
    snd (createSchemas cn models schemas r) =
      if forallb (fun entry => bool_decide (options (snd entry) <> None)) models
      then None
      else Some (TypeError "Cannot read properties of undefined (reading 'schema')").
Proof.
  induction models as [|[k d] rest IH]; intros schemas r; cbn [createSchemas forallb snd];
    [reflexivity |].
  destruct (options d) as [opts|].
  - rewrite bool_decide_eq_true_2 by discriminate. cbn [andb].
    destruct (_ && _); apply IH.
  - rewrite bool_decide_eq_false_2 by auto. reflexivity.
Qed.

(** X13.  Outside a dry run and for a strategy other than 'safe',
    convergence on the connections that [initConnections] returned calls
    [next] without an error exactly when the task of every owned connection
    resolves, and otherwise calls it with the error that one of the tasks
    was rejected with.  A stored function counts as resolved; the promise of
    [sync] settles as [sync] does; the promise of a schema listing is
    rejected with the error of the listing, or with a TypeError when some
    model definition has no [options], and settles as [sync] does
    otherwise. *)
Theorem migrateSchema_succeeds_iff_every_task_resolves :
  forall sails_log newSequelize (db : Db) (cfg : SailsConfig) (connections : gmap string Connection)
         (models : list (string * ModelDef)) (sailsModels : gmap string SailsModel),
    initConnections sails_log newSequelize cfg = Normal connections ->
    migrate cfg <> Some "safe" ->
    dryRun cfg = false ->
    exists ds,
      datastoresOf (configAfterInit sails_log newSequelize cfg) = Some ds /\
      (outcome (migrateSchema db (configAfterInit sails_log newSequelize cfg) connections models
                  sailsModels) = Next None <->
       Forall (fun entry =>
                 exists u,
                   settles db models (syncFlags (migrate cfg))
                     (taskFor db (configAfterInit sails_log newSequelize cfg)
                         (syncFlags (migrate cfg))
                        entry) = Normal u)
         (ownedEntries ds)) /\
      (forall e,
          outcome (migrateSchema db (configAfterInit sails_log newSequelize cfg) connections models
                     sailsModels) = Next (Some e) ->
          exists entry,
            entry ∈ ownedEntries ds /\
            settles db models (syncFlags (migrate cfg))
              (taskFor db (configAfterInit sails_log newSequelize cfg) (syncFlags (migrate cfg))
                  entry)
              = Throw e) /\
      (forall flags cn d, settles db models flags (SmartFunction cn d) = Normal ()) /\
      (forall flags cn settled, settles db models flags (SyncPromise cn settled) = settled) /\
      (forall flags cn e, settles db models flags (SchemaPromise cn (Throw e)) = Throw e) /\
      (forall flags cn schemas,
          settles db models flags (SchemaPromise cn (Normal schemas)) =
            if forallb (fun entry => bool_decide (options (snd entry) <> None)) models
            then db_sync db cn (fst flags) (snd flags)
            else Throw (TypeError "Cannot read properties of undefined (reading 'schema')")).
Proof.
  intros sails_log newSequelize db cfg connections models sailsModels Hinit Hsafe Hdry.
  destruct (initConnections_returned sails_log newSequelize cfg connections Hinit)
    as (Hm & _ & Hd & ds & Hds & Hcl).
  exists ds. split; [exact Hds |].
  assert (forall flags cn schemas,
             settles db models flags (SchemaPromise cn (Normal schemas)) =
               if forallb (fun entry => bool_decide (options (snd entry) <> None)) models
               then db_sync db cn (fst flags) (snd flags)
               else Throw (TypeError "Cannot read properties of undefined (reading 'schema')"))
    as Hschema.
  { intros flags cn schemas. unfold settles. cbn [settle]. unfold afterShowAllSchemas.
    pose proof (createSchemas_result cn models schemas (mkRun ∅ [] [])) as Hr.
    destruct (createSchemas cn models schemas (mkRun ∅ [] [])) as [r1 res].
    cbn [snd] in Hr. subst res. destruct (forallb _ models); reflexivity. }
  unfold migrateSchema. rewrite Hm, (isSafe_false _ Hsafe), Hds, Hd, Hdry.
  cbn [default from_option id].
  assert (dryRun (configAfterInit sails_log newSequelize cfg) = false) as Hdry' by congruence.
  rewrite (visitAll_tasks db (configAfterInit sails_log newSequelize cfg) connections
             (syncFlags (migrate cfg)) ds Hdry' Hcl (mkRun sailsModels [] []) []).
  cbn [app run_calls run_models run_reports].
  set (loop := mkRun sailsModels _ []).
  destruct (promiseAll_result db models (syncFlags (migrate cfg))
              (map
                  (taskFor db (configAfterInit sails_log newSequelize cfg) (syncFlags (migrate cfg)))
                 (ownedEntries ds)) loop) as [Hnone Hsome].
  pose proof (List.Forall_map
                (taskFor db (configAfterInit sails_log newSequelize cfg) (syncFlags (migrate cfg)))
                (fun task => exists u,
                     settles db models (syncFlags (migrate cfg)) task = Normal u)
                (ownedEntries ds)) as Hmap.
  cbn beta in Hmap.
  destruct (promiseAll db models (syncFlags (migrate cfg)) _ loop) as [r1 [e|]];
    cbn [snd outcome] in *.
  - split; [| split; [| repeat split; auto]].
    + split; [discriminate |]. intros H. apply Hmap, Hnone in H. discriminate.
    + intros e0 [= <-]. destruct (Hsome e eq_refl) as (task & Hin & Ht).
      apply list_elem_of_fmap in Hin as (entry & -> & Hin). eauto.
  - split; [| split; [| repeat split; auto]].
    + split; [| reflexivity]. intros _. apply Hmap. now apply Hnone.
    + discriminate.
Qed.

Lemma migrateSchema_succeeds_iff_every_task_resolves_witness :
  exists ds,
    datastoresOf (configAfterInit sampleLog sampleSequelize dropConfig) = Some ds /\
    (outcome
        (migrateSchema freshDb (configAfterInit sampleLog sampleSequelize dropConfig) mysqlConnections
                userModels userRegistry) = Next None <->
     Forall (fun entry =>
               exists u,
                 settles freshDb userModels (syncFlags (migrate dropConfig))
                   (taskFor freshDb (configAfterInit sampleLog sampleSequelize dropConfig)
                      (syncFlags (migrate dropConfig)) entry) = Normal u)
       (ownedEntries ds)) /\
    (forall e,
        outcome (migrateSchema freshDb (configAfterInit sampleLog sampleSequelize dropConfig)
                   mysqlConnections userModels userRegistry) = Next (Some e) ->
        exists entry,
          entry ∈ ownedEntries ds /\
          settles freshDb userModels (syncFlags (migrate dropConfig))
            (taskFor freshDb (configAfterInit sampleLog sampleSequelize dropConfig)
               (syncFlags (migrate dropConfig)) entry) = Throw e) /\
    (forall flags cn d, settles freshDb userModels flags (SmartFunction cn d) = Normal ()) /\
    (forall flags cn settled,
        settles freshDb userModels flags (SyncPromise cn settled) = settled) /\
    (forall flags cn e,
        settles freshDb userModels flags (SchemaPromise cn (Throw e)) = Throw e) /\
    (forall flags cn schemas,
        settles freshDb userModels flags (SchemaPromise cn (Normal schemas)) =
          if forallb (fun entry => bool_decide (options (snd entry) <> None)) userModels
          then db_sync freshDb cn (fst flags) (snd flags)
          else Throw (TypeError "Cannot read properties of undefined (reading 'schema')")).
Proof.
  apply (migrateSchema_succeeds_iff_every_task_resolves sampleLog sampleSequelize freshDb dropConfig
           mysqlConnections userModels userRegistry).
  - vm_compute. reflexivity.
  - discriminate.
  - reflexivity.
Defined.

(** ** Convergence: which connections are touched *)

Lemma settle_connection db models flags task r call :
  call ∈ run_calls (fst (settle db models flags task r)) ->
  call ∈ run_calls r \/ callConnection call = taskConnection task.
Proof.
  destruct task as [cn d | cn [schemas | e] | cn settled]; cbn [settle fst]; auto.
  unfold afterShowAllSchemas.
  destruct (createSchemas_calls cn models schemas r) as (_ & _ & created & Hc).
  destruct (createSchemas cn models schemas r) as [r1 [e|]]; cbn [fst] in *.
  - rewrite Hc. intros Hin. apply elem_of_app in Hin as [Hin | Hin]; [auto |].
    apply list_elem_of_fmap in Hin as (x & -> & _). auto.
  - rewrite run_calls_issue, Hc. rewrite !elem_of_app.
    intros [[Hin | Hin] | Hin]; [auto | |].
    + apply list_elem_of_fmap in Hin as (x & -> & _). auto.
    + apply list_elem_of_singleton in Hin. subst call. auto.
Qed.

Lemma promiseAll_connection db models flags (syncTasks : list SyncTask) :
  forall r call,
    call ∈ run_calls (fst (promiseAll db models flags syncTasks r)) ->
    call ∈ run_calls r \/
    exists task, task ∈ syncTasks /\ callConnection call = taskConnection task.
Proof.
  induction syncTasks as [|task rest IH]; intros r call; cbn [promiseAll]; [auto |].
  pose proof (settle_connection db models flags task r call) as Hs.
  destruct (settle db models flags task r) as [r1 c]. cbn [fst] in Hs.
  specialize (IH r1 call).
  destruct (promiseAll db models flags rest r1) as [r2 later]. cbn [fst] in *.
  intros Hin. destruct (IH Hin) as [H1 | (t & Ht & Hc)].
  - destruct (Hs H1) as [H0 | Hc]; [auto |].
    right. exists task. split; [apply list_elem_of_here | exact Hc].
  - right. exists t. split; [now apply list_elem_of_further | exact Hc].
Qed.

Lemma visitAll_owned db cfg connections flags (ds : Datastores) r syncTasks :
  (forall call, call ∈ run_calls r -> ownedIn ds (callConnection call)) ->
  (forall task, task ∈ syncTasks -> ownedIn ds (taskConnection task)) ->
  (forall call,
      call ∈ run_calls
               (fst (fst (forIn (visitConnection db cfg connections flags) (r, syncTasks) ds))) ->
      ownedIn ds (callConnection call)) /\
  (forall task,
      task ∈ snd (fst (forIn (visitConnection db cfg connections flags) (r, syncTasks) ds)) ->
      ownedIn ds (taskConnection task)).
Proof.
  intros Hcalls Htasks.
  apply (forIn_invariant (visitConnection db cfg connections flags)
           (fun st =>
              (forall call, call ∈ run_calls (fst st) -> ownedIn ds (callConnection call)) /\
              (forall task, task ∈ snd st -> ownedIn ds (taskConnection task))));
    [| auto].
  intros [r0 ts0] [cn c] Hin [H1 H2]. cbn [fst snd] in H1, H2.
  assert (forall d, ownership c = Normal (Some d) -> ownedIn ds cn) as Howned
    by (intros d Hd; exists c, d; auto).
  assert (forall (task : SyncTask),
             taskConnection task = cn ->
             (exists d, ownership c = Normal (Some d)) ->
             forall t, t ∈ (ts0 ++ [task])%list -> ownedIn ds (taskConnection t)) as Hpush.
  { intros task Hcn [d Hd] t Ht. apply elem_of_app in Ht as [Ht | Ht]; [auto |].
    apply list_elem_of_singleton in Ht. subst t. rewrite Hcn. eauto. }
  assert (forall (call : DbCall),
             callConnection call = cn ->
             (exists d, ownership c = Normal (Some d)) ->
             forall x, x ∈ (run_calls r0 ++ [call])%list -> ownedIn ds (callConnection x))
    as Hissue.
  { intros call Hcn [d Hd] x Hx. apply elem_of_app in Hx as [Hx | Hx]; [auto |].
    apply list_elem_of_singleton in Hx. subst x. rewrite Hcn. eauto. }
  visit_cases cfg connections cn c; split; auto;
    first [ apply Hpush; [reflexivity | eauto] | apply Hissue; [reflexivity | eauto] ].
Qed.

(** X14.  Whatever the configuration, the models and the answers of the
    database, every call that convergence issues, be it a schema listing, a
    schema creation or a [sync], is issued on a connection that the
    configuration owns (no adapter marker, and a dialect): a connection of
    another data layer is never touched. *)
Theorem migrateSchema_touches_owned_connections_only :
  forall (db : Db) (cfg : SailsConfig) (connections : gmap string Connection)
         (models : list (string * ModelDef)) (sailsModels : gmap string SailsModel)
         (call : DbCall),
    call ∈ run_calls (final (migrateSchema db cfg connections models sailsModels)) ->
    exists c d,
      (callConnection call, c) ∈ default [] (datastoresOf cfg) /\
      truthy (adapter c) = false /\
      ownership c = Normal (Some d) /\
      (dialect c = Some d \/ exists o, conn_options c = Some o /\ co_dialect o = Some d).
Proof.
  intros db cfg connections models sailsModels call Hin.
  assert (ownedIn (default [] (datastoresOf cfg)) (callConnection call)) as (c & d & Hc & Ho).
  { revert Hin. unfold migrateSchema.
    destruct (isSafe (migrate cfg)); cbn [final run_calls].
    { intros H. now apply elem_of_nil in H. }
    destruct (visitAll_owned db cfg connections (syncFlags (migrate cfg))
                (default [] (datastoresOf cfg)) (mkRun sailsModels [] []) [])
      as [Hcalls Htasks].
    { cbn [run_calls]. intros ? H. now apply elem_of_nil in H. }
    { intros ? H. now apply elem_of_nil in H. }
    destruct (forIn _ _ (default [] (datastoresOf cfg))) as [[r syncTasks] [e|]];
      cbn [fst snd final] in *; [apply Hcalls |].
    destruct (dryRun cfg); cbn [final report run_calls]; [apply Hcalls |].
    rewrite run_calls_final. intros H.
    apply promiseAll_connection in H as [H | (task & Ht & ->)]; auto. }
  exists c, d. split; [exact Hc |]. unfold ownership in Ho |- *.
  destruct (truthy (adapter c)); [discriminate |].
  split; [reflexivity |]. split; [exact Ho |].
  destruct (truthy (dialect c)); [left; congruence |].
  destruct (conn_options c) as [o|]; [| discriminate].
  destruct (truthy (co_dialect o)); [| discriminate].
  right. exists o. split; [reflexivity | congruence].
Qed.

Lemma migrateSchema_touches_owned_connections_only_witness :
  exists c d,
    (callConnection (CallSync "main" true false), c) ∈ default [] (datastoresOf dropConfig) /\
    truthy (adapter c) = false /\
    ownership c = Normal (Some d) /\
    (dialect c = Some d \/ exists o, conn_options c = Some o /\ co_dialect o = Some d).
Proof.
  apply (migrateSchema_touches_owned_connections_only freshDb dropConfig mysqlConnections
           userModels userRegistry (CallSync "main" true false)).
  vm_compute. apply list_elem_of_here.
Defined.

(** X15.  With smart migration on and the strategy 'alter', a run of
    convergence is inert for every configuration and every database: each
    task it builds is the stored function of line 356, which nothing ever
    calls, so the run issues no call on any connection, leaves every
    model's [_indexes] as it was, and never calls [next] with an error. *)
Theorem migrateSchema_smart_alter_is_inert :
  forall (db : Db) (cfg : SailsConfig) (connections : gmap string Connection)
         (models : list (string * ModelDef)) (sailsModels : gmap string SailsModel),
    smartMigrate cfg = true ->
    migrate cfg = Some "alter" ->
    run_calls (final (migrateSchema db cfg connections models sailsModels)) = [] /\
    run_models (final (migrateSchema db cfg connections models sailsModels)) = sailsModels /\
    Forall (fun task => exists cn d, task = SmartFunction cn d)
      (syncTasks_built (migrateSchema db cfg connections models sailsModels)) /\
    forall e, outcome (migrateSchema db cfg connections models sailsModels) <> Next (Some e).
Proof.
  intros db cfg connections models sailsModels Hsmart Halter.
  unfold migrateSchema. rewrite Halter.
  change (isSafe (Some "alter")) with false. cbn iota.
  assert (smartMigrate cfg && snd (syncFlags (Some "alter")) = true) as Hs
    by (rewrite Hsmart; reflexivity).
  destruct (visitAll_smart db cfg connections (syncFlags (Some "alter"))
              (default [] (datastoresOf cfg)) Hs (mkRun sailsModels [] []) [] eq_refl
              (Forall_nil_2 _)) as (Hcalls & Hmodels & Htasks).
  destruct (forIn _ _ (default [] (datastoresOf cfg))) as [[r syncTasks] [e|]];
    cbn [fst snd final run_models syncTasks_built outcome] in *.
  - repeat split; auto; discriminate.
  - destruct (dryRun cfg); cbn [final report run_calls run_models syncTasks_built outcome].
    + repeat split; auto; discriminate.
    + rewrite (promiseAll_functions db models _ syncTasks Htasks r).
      cbn [final report run_calls run_models syncTasks_built outcome].
      repeat split; auto; discriminate.
Qed.

Lemma migrateSchema_smart_alter_is_inert_witness :
  run_calls (final (migrateSchema freshDb scenarioA mainConnections scenarioD
                      (sails_models scenarioD_defined))) = [] /\
  run_models (final (migrateSchema freshDb scenarioA mainConnections scenarioD
                       (sails_models scenarioD_defined))) = (sails_models scenarioD_defined) /\
  Forall (fun task => exists cn d, task = SmartFunction cn d)
    (syncTasks_built (migrateSchema freshDb scenarioA mainConnections scenarioD
                        (sails_models scenarioD_defined))) /\
  forall e, outcome (migrateSchema freshDb scenarioA mainConnections scenarioD
                       (sails_models scenarioD_defined)) <> Next (Some e).
Proof.
  apply (migrateSchema_smart_alter_is_inert freshDb scenarioA mainConnections scenarioD
           (sails_models scenarioD_defined)); reflexivity.
Defined.

(** ** Convergence: schema namespaces *)

Lemma or_default_empty (x : option string) (s : string) :
  x = Some s -> or_default x "" = s.
Proof.
  intros ->. unfold or_default, truthy.
  destruct (String.eqb_spec s "") as [-> | _]; reflexivity.
Qed.

Lemma existsb_eqb_elem (s : string) (l : list string) :
  existsb (String.eqb s) l = true <-> s ∈ l.
Proof.
  rewrite existsb_exists. split.
  - intros (x & Hin & Hx). apply String.eqb_eq in Hx. subst x. now apply list_elem_of_In.
  - intros Hin. exists s. split; [now apply list_elem_of_In | apply String.eqb_refl].
Qed.

Lemma createSchemas_created cn (models : list (string * ModelDef)) :
  forall schemas r,
    exists created,
      run_calls (fst (createSchemas cn models schemas r)) =
        (run_calls r ++ map (CallCreateSchema cn) created)%list /\
      NoDup created /\
      (forall s, s ∈ created ->
                 s <> "" /\ (s ∉ schemas) /\
                 exists key modelDef opts,
                   (key, modelDef) ∈ models /\ options modelDef = Some opts /\
                   schema opts = Some s) /\
      (snd (createSchemas cn models schemas r) = None ->
       forall key modelDef opts s,
         (key, modelDef) ∈ models -> options modelDef = Some opts ->
         schema opts = Some s -> s <> "" ->
         s ∈ schemas \/ s ∈ created).
Proof.
  induction models as [|[k d] rest IH]; intros schemas r; cbn [createSchemas].
  - exists []. cbn [map fst snd]. rewrite app_nil_r.
    split; [reflexivity | split; [constructor | split]].
    + intros s Hs. now apply elem_of_nil in Hs.
    + intros _ ? ? ? ? Hin. now apply elem_of_nil in Hin.
  - destruct (options d) as [opts|] eqn:Ho.
    + set (tableSchema := or_default (schema opts) "").
      destruct (negb (tableSchema =? "")%string &&
                negb (existsb (String.eqb tableSchema) schemas)) eqn:Hnew.
      * apply andb_true_iff in Hnew as [Hne Hfresh].
        apply negb_true_iff in Hne, Hfresh. apply String.eqb_neq in Hne.
        assert (tableSchema ∉ schemas) as Hnotin.
        { intros Hin. apply existsb_eqb_elem in Hin. congruence. }
        assert (schema opts = Some tableSchema) as Hschema.
        { subst tableSchema. unfold or_default in *.
          destruct (truthy (schema opts)) eqn:Ht; [| congruence].
          destruct (schema opts); [reflexivity | discriminate]. }
        destruct (IH (schemas ++ [tableSchema])%list
                    (issue r [CallCreateSchema cn tableSchema]))
          as (created & Hcalls & Hnd & Hprop & Hcover).
        exists (tableSchema :: created). split; [| split; [| split]].
        -- rewrite Hcalls, run_calls_issue. cbn [map]. now rewrite <- app_assoc.
        -- constructor; [| exact Hnd]. intros Hin.
           destruct (Hprop _ Hin) as (_ & Hno & _). apply Hno.
           apply elem_of_app. right. apply list_elem_of_here.
        -- intros s Hs. apply elem_of_cons in Hs as [-> | Hs].
           ++ split; [exact Hne | split; [exact Hnotin |]].
              exists k, d, opts. split; [apply list_elem_of_here | auto].
           ++ destruct (Hprop _ Hs) as (H1 & H2 & key & md & o & Hin & Hmo & Hms).
              split; [exact H1 | split].
              ** intros Hin'. apply H2. apply elem_of_app. auto.
              ** exists key, md, o. split; [now apply list_elem_of_further | auto].
        -- intros Hnone key md o s Hin Hmo Hms Hs.
           apply elem_of_cons in Hin as [[= -> ->] | Hin].
           ++ right. assert (o = opts) as -> by congruence.
              assert (s = tableSchema) as -> by congruence. apply list_elem_of_here.
           ++ destruct (Hcover Hnone key md o s Hin Hmo Hms Hs) as [H | H].
              ** apply elem_of_app in H as [H | H]; [auto |].
                 apply list_elem_of_singleton in H. subst s. right. apply list_elem_of_here.
              ** right. now apply list_elem_of_further.
      * destruct (IH schemas r) as (created & Hcalls & Hnd & Hprop & Hcover).
        exists created. split; [exact Hcalls | split; [exact Hnd | split]].
        -- intros s Hs. destruct (Hprop _ Hs) as (H1 & H2 & key & md & o & Hin & Hmo & Hms).
           split; [exact H1 | split; [exact H2 |]].
           exists key, md, o. split; [now apply list_elem_of_further | auto].
        -- intros Hnone key md o s Hin Hmo Hms Hs.
           apply elem_of_cons in Hin as [[= -> ->] | Hin]; [| eauto].
           left. assert (o = opts) as -> by congruence.
           assert (tableSchema = s) as Hts by (now apply or_default_empty).
           apply andb_false_iff in Hnew as [Hnew | Hnew]; apply negb_false_iff in Hnew.
           ++ apply String.eqb_eq in Hnew. congruence.
           ++ apply existsb_eqb_elem in Hnew. congruence.
    + exists []. cbn [map fst snd]. rewrite app_nil_r.
      split; [reflexivity | split; [constructor | split]].
      * intros s Hs. now apply elem_of_nil in Hs.
      * discriminate.
Qed.

(** X16.  The callback of the Postgres path, on a schema listing that
    resolved: it issues [createSchema] calls followed, unless a definition
    without [options] makes it throw, by exactly one [sync] as its last
    call, and nothing else.  It creates a namespace at most once, never one
    that the listing holds, and only the non-empty [options.schema] of some
    definition; and when it reaches [sync], every non-empty [options.schema]
    is in the listing or was created. *)
Theorem afterShowAllSchemas_creates_missing_namespaces_once :
  forall (db : Db) (models : list (string * ModelDef)) (flags : bool * bool)
         (cn : string) (schemas : list string) (r : Run),
    exists created,
      NoDup created /\
      (forall s, s ∈ created ->
                 s <> "" /\ (s ∉ schemas) /\
                 exists key modelDef opts,
                   (key, modelDef) ∈ models /\ options modelDef = Some opts /\
                   schema opts = Some s) /\
      ((exists e,
           snd (afterShowAllSchemas db models flags cn schemas r) = Throw e /\
           e = TypeError "Cannot read properties of undefined (reading 'schema')" /\
           (exists key modelDef, (key, modelDef) ∈ models /\ options modelDef = None) /\
           run_calls (fst (afterShowAllSchemas db models flags cn schemas r)) =
             (run_calls r ++ map (CallCreateSchema cn) created)%list) \/
       (snd (afterShowAllSchemas db models flags cn schemas r) =
          db_sync db cn (fst flags) (snd flags) /\
        run_calls (fst (afterShowAllSchemas db models flags cn schemas r)) =
          (run_calls r ++ map (CallCreateSchema cn) created
             ++ [CallSync cn (fst flags) (snd flags)])%list /\
        forall key modelDef opts s,
          (key, modelDef) ∈ models -> options modelDef = Some opts ->
          schema opts = Some s -> s <> "" ->
          s ∈ schemas \/ s ∈ created)).
Proof.
  intros db models flags cn schemas r. unfold afterShowAllSchemas.
  destruct (createSchemas_created cn models schemas r)
    as (created & Hcalls & Hnd & Hprop & Hcover).
  pose proof (createSchemas_result cn models schemas r) as Hres.
  exists created. split; [exact Hnd | split; [exact Hprop |]].
  destruct (createSchemas cn models schemas r) as [r1 res]. cbn [fst snd] in *.
  destruct (forallb _ models) eqn:Hall; subst res.
  - right. cbn [fst snd]. split; [reflexivity | split; [| now apply Hcover]].
    rewrite run_calls_issue, Hcalls. now rewrite <- app_assoc.
  - left. cbn [fst snd]. eexists. split; [reflexivity | split; [reflexivity | split]];
      [| exact Hcalls].
    clear - Hall. induction models as [|[key d] rest IH]; [discriminate |].
    cbn [forallb snd] in Hall. destruct (options d) as [opts|] eqn:Ho.
    + rewrite bool_decide_eq_true_2 in Hall by discriminate. cbn [andb] in Hall.
      destruct (IH Hall) as (key' & d' & Hin & Hd').
      exists key', d'. split; [now apply list_elem_of_further | exact Hd'].
    + exists key, d. split; [apply list_elem_of_here | exact Ho].
Qed.

(** ** The dry run, line by line, and [reload] as a whole *)

Lemma visitAll_dryRun_reports db cfg connections flags (ds : Datastores) :
  dryRun cfg = true ->
  Forall (fun entry => exists o, ownership (snd entry) = Normal o) ds ->
  forall r syncTasks,
    forIn (visitConnection db cfg connections flags) (r, syncTasks) ds =
      ((mkRun (run_models r) (run_calls r)
          (run_reports r ++ map (fun _ => dryRunLine flags) (ownedEntries ds))%list,
        syncTasks), None).
Proof.
  intros Hdry. induction 1 as [|[cn c] rest (o & Ho) _ IH]; intros r syncTasks.
  - cbn. rewrite app_nil_r. now destruct r.
  - cbn [snd] in Ho. cbn [forIn ownedEntries]. unfold visitConnection at 1.
    rewrite Ho. destruct o as [d|]; [| apply IH].
    rewrite Hdry, IH. cbn [report run_models run_calls run_reports map].
    unfold dryRunLine. now rewrite <- app_assoc.
Qed.

(** X17.  A dry run with a strategy other than 'safe', on the connections
    that [initConnections] returned, reports one line for each owned
    connection, in the order of the configuration, each giving the two flags
    that [sync] would have received, and then the line that the dry run
    completed; it reports nothing else through [sails.log.info] or
    [sails.log.error]. *)
Theorem migrateSchema_dryRun_reports_each_owned_connection :
  forall sails_log newSequelize (db : Db) (cfg : SailsConfig) (connections : gmap string Connection)
         (models : list (string * ModelDef)) (sailsModels : gmap string SailsModel),
    dryRun cfg = true ->
    migrate cfg <> Some "safe" ->
    initConnections sails_log newSequelize cfg = Normal connections ->
    exists ds,
      datastoresOf (configAfterInit sails_log newSequelize cfg) = Some ds /\
      run_reports (final (migrateSchema db (configAfterInit sails_log newSequelize cfg) connections
                            models sailsModels)) =
        (map (fun _ =>
                "DRY RUN - Would sync database with force="
                  +:+ showBool (fst (syncFlags (migrate cfg)))
                  +:+ ", alter=" +:+ showBool (snd (syncFlags (migrate cfg))))
           (ownedEntries ds)
         ++ ["DRY RUN completed - no changes made to database"])%list.
Proof.
  intros sails_log newSequelize db cfg connections models sailsModels Hdry Hsafe Hinit.
  destruct (initConnections_returned sails_log newSequelize cfg connections Hinit)
    as (Hm & _ & Hd & ds & Hds & Hcl).
  exists ds. split; [exact Hds |].
  unfold migrateSchema. rewrite Hm, (isSafe_false _ Hsafe), Hds, Hd, Hdry.
  cbn [default from_option id].
  assert (dryRun (configAfterInit sails_log newSequelize cfg) = true) as Hdry' by congruence.
  assert (Forall (fun entry => exists o, ownership (snd entry) = Normal o) ds) as Hcl'.
  { eapply Forall_impl; [exact Hcl |]. intros entry (o & Ho & _). eauto. }
  rewrite (visitAll_dryRun_reports db (configAfterInit sails_log newSequelize cfg) connections
             (syncFlags (migrate cfg)) ds Hdry' Hcl' (mkRun sailsModels [] []) []).
  reflexivity.
Qed.

Lemma migrateSchema_dryRun_reports_each_owned_connection_witness :
  exists ds,
    datastoresOf (configAfterInit sampleLog sampleSequelize scenarioB) = Some ds /\
    run_reports (final (migrateSchema freshDb (configAfterInit sampleLog sampleSequelize scenarioB)
                          mainConnections userModels userRegistry)) =
      (map (fun _ =>
              "DRY RUN - Would sync database with force="
                +:+ showBool (fst (syncFlags (migrate scenarioB)))
                +:+ ", alter=" +:+ showBool (snd (syncFlags (migrate scenarioB))))
         (ownedEntries ds)
       ++ ["DRY RUN completed - no changes made to database"])%list.
Proof.
  apply (migrateSchema_dryRun_reports_each_owned_connection sampleLog sampleSequelize freshDb
      scenarioB
           mainConnections userModels userRegistry).
  - reflexivity.
  - discriminate.
  - vm_compute. reflexivity.
Defined.

(** X18.  For [reload] as a whole: with [dryRun] set, or with the strategy
    'safe', no synchronization task is built and no call is issued on any
    connection, whatever the configuration, the loaded definitions and the
    database are, and whether or not connection building or model binding
    throws; and [next] receives an error only when the model loader
    delivered that error. *)
Theorem reload_dryRun_or_safe_never_touches_the_database :
  forall sails_log newSequelize define version (db : Db) (cfg : SailsConfig)
         (loaded : option JsError * list (string * ModelDef)) (s : Sails),
    dryRun cfg = true \/ migrate cfg = Some "safe" ->
    syncTasks_built (reload sails_log newSequelize define version db cfg loaded s) = [] /\
    run_calls (final (reload sails_log newSequelize define version db cfg loaded s)) = [] /\
    forall err,
      outcome (reload sails_log newSequelize define version db cfg loaded s) = Next (Some err) ->
      fst loaded = Some err.
Proof.
  intros sails_log newSequelize define version db cfg [lerr models] s Hquiet. unfold reload.
  destruct (initConnections sails_log newSequelize cfg) as [connections | e] eqn:Hinit;
    [| cbn; repeat split; auto; discriminate].
  destruct lerr as [lerr|]; [cbn; repeat split; auto; congruence |].
  destruct (defineModels _ _ _ models connections s) as [s' [e|]];
    [cbn; repeat split; auto; discriminate |].
  destruct (initConnections_returned sails_log newSequelize cfg connections Hinit)
    as (Hm & _ & Hd & ds & Hds & Hcl).
  unfold migrateSchema. rewrite Hm, Hds, Hd. cbn [default from_option id].
  destruct (isSafe (migrate cfg)) eqn:Hsafe; [cbn; repeat split; auto; discriminate |].
  destruct Hquiet as [Hdry | Hs]; [| rewrite Hs in Hsafe; discriminate].
  assert (dryRun (configAfterInit sails_log newSequelize cfg) = true) as Hdry' by congruence.
  assert (Forall (fun entry => exists o, ownership (snd entry) = Normal o) ds) as Hcl'.
  { eapply Forall_impl; [exact Hcl |]. intros entry (o & Ho & _). eauto. }
  rewrite (visitAll_dryRun_reports db (configAfterInit sails_log newSequelize cfg) connections
             (syncFlags (migrate cfg)) ds Hdry' Hcl' (mkRun (sails_models s') [] []) []).
  rewrite Hdry. cbn. repeat split; auto; discriminate.
Qed.

Lemma reload_dryRun_or_safe_never_touches_the_database_witness :
  syncTasks_built (reload sampleLog sampleSequelize defineVerbatim 6 missingTableDb scenarioB
                     (None, legacyModels) freshSails) = [] /\
  run_calls (final (reload sampleLog sampleSequelize defineVerbatim 6 missingTableDb scenarioB
                      (None, legacyModels) freshSails)) = [] /\
  forall err,
    outcome (reload sampleLog sampleSequelize defineVerbatim 6 missingTableDb scenarioB
               (None, legacyModels) freshSails) = Next (Some err) ->
    fst (None (A:=JsError), legacyModels) = Some err.
Proof.
  apply (reload_dryRun_or_safe_never_touches_the_database sampleLog sampleSequelize defineVerbatim 6
           missingTableDb scenarioB (None, legacyModels) freshSails).
  left. reflexivity.
Defined.

(** X19.  When the default connection name is not a key of the configured
    map, [reload] throws the configuration error that names it, whatever
    the entries of the map are: no connection was constructed, the model
    loader's definitions are not bound, the registry is as it was, no task
    exists and [next] is not called. *)
Theorem reload_without_default_connection :
  forall sails_log newSequelize define version (db : Db) (cfg : SailsConfig) (ds : Datastores)
         (loaded : option JsError * list (string * ModelDef)) (s : Sails),
    datastoresOf cfg = Some ds ->
    hasOwnProperty ds (defaultConnectionName cfg) = false ->
    reload sails_log newSequelize define version db cfg loaded s =
      mkResult
        (Threw (mkError "Error"
                  ("Default connection '" +:+ defaultConnectionName cfg
                     +:+ "' not found in config/connections") None))
        [] (mkRun (sails_models s) [] []) /\
    init_connections (initRun sails_log newSequelize cfg) = ∅ /\
    init_datastores (initRun sails_log newSequelize cfg) = ds.
Proof.
  intros sails_log newSequelize define version db cfg ds loaded s Hds Hno.
  unfold reload, initConnections, initRun. rewrite Hds, Hno. auto.
Qed.

Lemma reload_without_default_connection_witness :
  reload sampleLog sampleSequelize defineVerbatim 6 freshDb
    (mkSailsConfig None (Some [("main", postgresMain)]) None None (Some "alter") false false)
    (None, userModels) freshSails =
    mkResult
      (Threw (mkError "Error"
                ("Default connection '"
                   +:+ defaultConnectionName
                         (mkSailsConfig None (Some [("main", postgresMain)]) None None
                            (Some "alter") false false)
                   +:+ "' not found in config/connections") None))
      [] (mkRun (sails_models freshSails) [] []) /\
  init_connections
    (initRun sampleLog sampleSequelize
       (mkSailsConfig None (Some [("main", postgresMain)]) None None (Some "alter")
          false false)) = ∅ /\
  init_datastores
    (initRun sampleLog sampleSequelize
       (mkSailsConfig None (Some [("main", postgresMain)]) None None (Some "alter")
          false false)) = [("main", postgresMain)].
Proof.
  apply (reload_without_default_connection sampleLog sampleSequelize defineVerbatim 6 freshDb
           (mkSailsConfig None (Some [("main", postgresMain)]) None None (Some "alter")
              false false)
           [("main", postgresMain)] (None, userModels) freshSails); reflexivity.
Defined.

(** ** The body of the smart-migration function *)

Lemma narrowsPending_refl m : narrowsPending m m.
Proof.
  split; [now destruct m |]. destruct (_indexes m) as [pending|]; [| reflexivity].
  exists pending. split; reflexivity.
Qed.

Lemma narrowsPending_trans m1 m2 m3 :
  narrowsPending m1 m2 -> narrowsPending m2 m3 -> narrowsPending m1 m3.
Proof.
  intros [H12 N12] [H23 N23]. split.
  - unfold sameButIndexes in *. rewrite H23 at 1. rewrite H12. reflexivity.
  - destruct (_indexes m1) as [p1|].
    + destruct N12 as (p2 & E2 & S12). rewrite E2 in N23.
      destruct N23 as (p3 & E3 & S23). exists p3. split; [exact E3 |].
      now transitivity p2.
    + rewrite N12 in N23. exact N23.
Qed.

Lemma filterPending_narrows tableName existingIndexes pending pending' :
  filterPending tableName existingIndexes pending = Normal pending' ->
  match pending with
  | None => pending' = None
  | Some l => exists kept, pending' = Some kept /\ kept `sublist_of` l
  end.
Proof.
  unfold filterPending. destruct pending as [[|idx rest]|].
  - intros [= <-]. exists []. split; reflexivity.
  - destruct (newIndexesOf tableName existingIndexes (idx :: rest)) as [kept | e] eqn:Hn;
      [| discriminate].
    cbn. intros [= <-]. destruct (newIndexesOf_kept _ _ _ _ Hn) as [Hsub _].
    destruct kept as [|k kept]; cbn; eexists; (split; [reflexivity |]);
      [apply sublist_nil_l | exact Hsub].
  - now intros [= <-].
Qed.

(** The filter throws only for an entry from which no name can be derived. *)
Lemma newIndexesOf_rejection tableName existingIndexes (pending : list IndexSpec) e :
  newIndexesOf tableName existingIndexes pending = Throw e ->
  e = TypeError "Cannot read properties of undefined (reading 'join')" /\
  exists idx, idx ∈ pending /\ truthy (idx_name idx) = false /\ idx_fields idx = None.
Proof.
  induction pending as [|i l IH]; cbn [newIndexesOf]; [discriminate |].
  unfold indexNameOf at 1. destruct (truthy (idx_name i)) eqn:Ht.
  - cbn. destruct (newIndexesOf tableName existingIndexes l) as [kept | e2];
      [discriminate |]. cbn. intros [= <-].
    destruct (IH eq_refl) as (-> & idx & Hin & Hbad).
    split; [reflexivity |]. exists idx. split; [now apply list_elem_of_further | exact Hbad].
  - destruct (idx_fields i) eqn:Hf.
    + cbn. destruct (newIndexesOf tableName existingIndexes l) as [kept | e2];
        [discriminate |]. cbn. intros [= <-].
      destruct (IH eq_refl) as (-> & idx & Hin & Hbad).
      split; [reflexivity |]. exists idx.
      split; [now apply list_elem_of_further | exact Hbad].
    + cbn. intros [= <-]. split; [reflexivity |]. exists i.
      split; [apply list_elem_of_here | auto].
Qed.

Lemma filterPending_rejection tableName existingIndexes pending e :
  filterPending tableName existingIndexes pending = Throw e ->
  e = TypeError "Cannot read properties of undefined (reading 'join')" /\
  exists current idx,
    pending = Some current /\ idx ∈ current /\
    truthy (idx_name idx) = false /\ idx_fields idx = None.
Proof.
  unfold filterPending. destruct pending as [[|idx rest]|]; [discriminate | | discriminate].
  destruct (newIndexesOf tableName existingIndexes (idx :: rest)) as [kept | e'] eqn:Hn;
    [discriminate |].
  cbn. intros [= <-].
  destruct (newIndexesOf_rejection _ _ _ _ Hn) as (-> & bad & Hin & Hbad).
  split; [reflexivity |]. exists (idx :: rest), bad. auto.
Qed.

Lemma deduplicateIndexes_calls db cn tableName dialect :
  (exists existingIndexes,
     snd (deduplicateIndexes db cn tableName dialect) = Normal existingIndexes) /\
  (fst (deduplicateIndexes db cn tableName dialect) = [] \/
   exists sql, fst (deduplicateIndexes db cn tableName dialect) = [CallQuery cn sql]).
Proof.
  unfold deduplicateIndexes, deduplicateIndexes_try.
  destruct (String.eqb dialect "postgres").
  - destruct tableName as [t | o].
    + destruct (db_query db cn (postgresIndexQuery t)); cbn; eauto.
    + cbn. eauto.
  - destruct (String.eqb dialect "mysql"); [| cbn; eauto].
    destruct (db_query db cn (mysqlIndexQuery tableName)); cbn; eauto.
Qed.

(** A cause of rejection in a later state of the registry is one in an
    earlier state: pending lists only lose entries, and no entry of the
    registry comes or goes. *)
Lemma rejectsAt_earlier (models0 models1 : gmap string SailsModel) modelDef e :
  (forall key, option_Forall2 narrowsPending (models0 !! key) (models1 !! key)) ->
  rejectsAt models1 modelDef e -> rejectsAt models0 modelDef e.
Proof.
  intros Hnarrow [Hopt Hcause]. split; [exact Hopt |].
  specialize (Hnarrow (toLowerCase (globalId modelDef))).
  destruct Hcause as [(-> & m & pending & idx & Hm & Hp & Hin & Hbad)
                     | (-> & Hnone & Hinh)].
  - left. split; [reflexivity |]. rewrite Hm in Hnarrow.
    inversion Hnarrow as [m0 m1 [_ Hn] Hm0 |]; subst.
    destruct (_indexes m0) as [p0|] eqn:Hp0; [| congruence].
    destruct Hn as (kept & Hk & Hsub). rewrite Hp in Hk. injection Hk as <-.
    destruct Hbad as [Ht Hf].
    exists m0, p0, idx. repeat split; auto. eapply elem_of_sublist; eauto.
  - right. split; [reflexivity |]. split; [| exact Hinh].
    rewrite Hnone in Hnarrow. now inversion Hnarrow.
Qed.

Lemma dedupModel_effect db cn dialect r modelDef :
  run_reports (fst (dedupModel db cn dialect r modelDef)) = run_reports r /\
  (forall key, option_Forall2 narrowsPending (run_models r !! key)
                 (run_models (fst (dedupModel db cn dialect r modelDef)) !! key)) /\
  (snd (dedupModel db cn dialect r modelDef) = None \/
   exists e, snd (dedupModel db cn dialect r modelDef) = Some e /\
             rejectsAt (run_models r) modelDef e) /\
  exists queries,
    run_calls (fst (dedupModel db cn dialect r modelDef)) = (run_calls r ++ queries)%list /\
    (length queries <= 1)%nat /\
    Forall (fun call => exists sql, call = CallQuery cn sql) queries.
Proof.
  assert (forall key, option_Forall2 narrowsPending (run_models r !! key)
                        (run_models r !! key)) as Hrefl.
  { intros key. destruct (run_models r !! key); constructor. apply narrowsPending_refl. }
  assert (exists queries,
             run_calls r = (run_calls r ++ queries)%list /\ (length queries <= 1)%nat /\
             Forall (fun call => exists sql, call = CallQuery cn sql) queries) as Hnone.
  { exists []. rewrite app_nil_r. repeat split; [cbn; lia | constructor]. }
  unfold dedupModel, getProperty.
  destruct (options modelDef) as [opts|] eqn:Hopts; [| cbn; auto].
  destruct (run_models r !! toLowerCase (globalId modelDef)) as [model|] eqn:Hlook.
  2:{ destruct (inheritedName_elem (toLowerCase (globalId modelDef)))
        as [[-> Hin] | [-> _]]; cbn [fst snd]; [| auto].
      split; [reflexivity |]. split; [exact Hrefl |]. split; [| exact Hnone].
      right. eexists. split; [reflexivity |]. split; [congruence |]. right. auto. }
  destruct (deduplicateIndexes_calls db cn (getTableName model) dialect)
    as ((existingIndexes & Hanswer) & Hcalls).
  destruct (deduplicateIndexes db cn (getTableName model) dialect) as [calls answer].
  cbn [fst snd] in Hanswer, Hcalls. subst answer.
  assert (exists queries,
             run_calls (issue r calls) = (run_calls r ++ queries)%list /\
             (length queries <= 1)%nat /\
             Forall (fun call => exists sql, call = CallQuery cn sql) queries) as Hsome.
  { exists calls. split; [reflexivity |].
    destruct Hcalls as [-> | (sql & ->)]; cbn; split; try lia; repeat constructor.
    now exists sql. }
  destruct (filterPending (getTableName model) existingIndexes (_indexes model))
    as [pending | e] eqn:Hfilter; cbn [fst snd run_reports run_models run_calls issue].
  - split; [reflexivity |]. split; [| split; [now left | exact Hsome]].
    intros key. destruct (decide (toLowerCase (globalId modelDef) = key)) as [<- | Hne].
    + rewrite lookup_insert_eq, Hlook. constructor. split; [reflexivity |].
      cbn [_indexes setIndexes]. exact (filterPending_narrows _ _ _ _ Hfilter).
    + rewrite lookup_insert_ne by exact Hne. apply Hrefl.
  - split; [reflexivity |]. split; [exact Hrefl |]. split; [| exact Hsome].
    destruct (filterPending_rejection _ _ _ _ Hfilter)
      as (-> & current & idx & Hcur & Hin & Hbad).
    right. eexists. split; [reflexivity |]. split; [congruence |]. left.
    split; [reflexivity |]. exists model, current, idx. auto.
Qed.

Lemma dedupLoop_effect db cn dialect (models : list (string * ModelDef)) :
  forall r,
    run_reports (fst (forIn (fun r entry => dedupModel db cn dialect r (snd entry)) r models))
      = run_reports r /\
    (forall key,
        option_Forall2 narrowsPending (run_models r !! key)
          (run_models
             (fst (forIn (fun r entry => dedupModel db cn dialect r (snd entry)) r models))
             !! key)) /\
    (snd (forIn (fun r entry => dedupModel db cn dialect r (snd entry)) r models) = None \/
     exists e key modelDef,
       snd (forIn (fun r entry => dedupModel db cn dialect r (snd entry)) r models) = Some e /\
       (key, modelDef) ∈ models /\ rejectsAt (run_models r) modelDef e) /\
    exists queries,
      run_calls
        (fst (forIn (fun r entry => dedupModel db cn dialect r (snd entry)) r models)) =
        (run_calls r ++ queries)%list /\
      (length queries <= length models)%nat /\
      Forall (fun call => exists sql, call = CallQuery cn sql) queries.
Proof.
  induction models as [|[key0 d0] rest IH]; intros r; cbn [forIn].
  - cbn [fst snd]. split; [reflexivity |]. split.
    + intros key. destruct (run_models r !! key); constructor. apply narrowsPending_refl.
    + split; [now left |]. exists []. rewrite app_nil_r.
      repeat split; [cbn; lia | constructor].
  - cbn [snd].
    destruct (dedupModel_effect db cn dialect r d0)
      as (Hrep & Hmod & Herr & queries & Hcalls & Hlen & Hall).
    destruct (dedupModel db cn dialect r d0) as [r1 [e|]]; cbn [fst snd] in *.
    + split; [exact Hrep |]. split; [exact Hmod |]. split.
      * right. destruct Herr as [Herr | (e' & [= <-] & Hcause)]; [discriminate |].
        exists e, key0, d0. split; [reflexivity |]. split; [apply list_elem_of_here | exact Hcause].
      * exists queries. repeat split; [exact Hcalls | cbn [length]; lia | exact Hall].
    + destruct (IH r1) as (Hrep2 & Hmod2 & Herr2 & queries2 & Hcalls2 & Hlen2 & Hall2).
      assert (forall key,
                 option_Forall2 narrowsPending (run_models r !! key)
                   (run_models
                      (fst (forIn (fun r entry => dedupModel db cn dialect r (snd entry))
                              r1 rest)) !! key)) as Hboth.
      { intros key. specialize (Hmod key). specialize (Hmod2 key).
        destruct Hmod as [m1 m2 H12 |]; inversion Hmod2 as [m2' m3 H23 |]; subst;
          constructor.
        eapply narrowsPending_trans; eauto. }
      split; [congruence |]. split; [exact Hboth |]. split.
      * destruct Herr2 as [Hnone | (e & key & d & He & Hin & Hcause)]; [now left |].
        right. exists e, key, d. split; [exact He |].
        split; [now apply list_elem_of_further |].
        eapply rejectsAt_earlier; [exact Hmod | exact Hcause].
      * exists (queries ++ queries2)%list. rewrite Hcalls2, Hcalls, <- app_assoc.
        split; [reflexivity |].
        split; [rewrite length_app; cbn [length]; lia | now apply Forall_app].
Qed.

(** X20.  What a call of the smart-migration function of a known connection
    would do: it issues index-catalog queries on that connection only, at
    most one for each definition, and then either calls [sync] once, last,
    with the two flags, and settles as that call does, or rejects before any
    [sync].  It rejects only for one of two causes, each at a definition
    with [options]: a pending index of its model has neither a name nor
    fields, or its lower-cased identifier is no entry of the registry but a
    name that every object inherits.  Without such a definition [sync] is
    reached.  The function reports nothing, it adds and removes no entry of
    the registry, and it changes nothing of a model but [_indexes], out of
    which it only takes entries (an absent list stays absent). *)
Theorem smartMigrateBody_queries_then_syncs :
  forall (db : Db) (connections : gmap string Connection)
         (models : list (string * ModelDef)) (flags : bool * bool) (cn dialect : string)
         (r : Run),
    is_Some (connections !! cn) ->
    let out := smartMigrateBody db connections models flags cn dialect r in
    run_reports (fst out) = run_reports r /\
    (forall key,
        option_Forall2 narrowsPending (run_models r !! key) (run_models (fst out) !! key)) /\
    (exists queries,
        (length queries <= length models)%nat /\
        Forall (fun call => exists sql, call = CallQuery cn sql) queries /\
        ((run_calls (fst out) =
            (run_calls r ++ queries ++ [CallSync cn (fst flags) (snd flags)])%list /\
          snd out = db_sync db cn (fst flags) (snd flags)) \/
         (run_calls (fst out) = (run_calls r ++ queries)%list /\
          exists key modelDef,
            (key, modelDef) ∈ models /\
            options modelDef <> None /\
            ((snd out =
                Throw (TypeError "Cannot read properties of undefined (reading 'join')") /\
              exists m pending idx,
                run_models r !! toLowerCase (globalId modelDef) = Some m /\
                _indexes m = Some pending /\
                idx ∈ pending /\
                truthy (idx_name idx) = false /\
                idx_fields idx = None) \/
             (snd out = Throw (TypeError "model.getTableName is not a function") /\
              run_models r !! toLowerCase (globalId modelDef) = None /\
              inheritedByEveryObject (toLowerCase (globalId modelDef))))))) /\
    ((forall key modelDef,
         (key, modelDef) ∈ models ->
         options modelDef <> None ->
         (run_models r !! toLowerCase (globalId modelDef) = None ->
          ~ inheritedByEveryObject (toLowerCase (globalId modelDef))) /\
         (forall m pending idx,
             run_models r !! toLowerCase (globalId modelDef) = Some m ->
             _indexes m = Some pending ->
             idx ∈ pending ->
             truthy (idx_name idx) = true \/ idx_fields idx <> None)) ->
     last (run_calls (fst out)) = Some (CallSync cn (fst flags) (snd flags)) /\
     snd out = db_sync db cn (fst flags) (snd flags)).
Proof.
  intros db connections models flags cn dialect r [c Hc] out. subst out.
  unfold smartMigrateBody. rewrite (getProperty_own _ _ _ Hc).
  destruct (dedupLoop_effect db cn dialect models r)
    as (Hrep & Hmod & Herr & queries & Hcalls & Hlen & Hall).
  destruct (forIn _ r models) as [r1 err]. cbn [fst snd] in *.
  destruct Herr as [-> | (e & key & modelDef & -> & Hin & Hopt & Hcause)];
    cbn [fst snd run_reports run_models run_calls issue].
  - split; [exact Hrep |]. split; [exact Hmod |]. split.
    + exists queries. split; [exact Hlen |]. split; [exact Hall |]. left.
      split; [| reflexivity]. now rewrite Hcalls, <- app_assoc.
    + intros _. split; [apply last_snoc | reflexivity].
  - split; [exact Hrep |]. split; [exact Hmod |]. split.
    + exists queries. split; [exact Hlen |]. split; [exact Hall |]. right.
      split; [exact Hcalls |]. exists key, modelDef.
      split; [exact Hin |]. split; [exact Hopt |].
      destruct Hcause as [(-> & Hbad) | (-> & Hnone & Hinh)]; [left | right]; auto.
    + intros Hgood. exfalso. destruct (Hgood key modelDef Hin Hopt) as [Hreg Hnamed].
      destruct Hcause as [(_ & m & pending & idx & Hm & Hp & Hidx & Ht & Hf)
                         | (_ & Hnone & Hinh)].
      * destruct (Hnamed m pending idx Hm Hp Hidx) as [H | H]; congruence.
      * exact (Hreg Hnone Hinh).
Qed.

Lemma smartMigrateBody_queries_then_syncs_witness :
    let out := smartMigrateBody freshDb mainConnections scenarioD (false, true)
                 "main" "postgres" (mkRun scenarioD_bound [] []) in
    run_reports (fst out) = [] /\
    (forall key,
        option_Forall2 narrowsPending (scenarioD_bound !! key)
          (run_models (fst out) !! key)) /\
    (exists queries,
        (length queries <= length scenarioD)%nat /\
        Forall (fun call => exists sql, call = CallQuery "main" sql) queries /\
        ((run_calls (fst out) =
            (queries ++ [CallSync "main" false true])%list /\
          snd out = db_sync freshDb "main" false true) \/
         (run_calls (fst out) = queries /\
          exists key modelDef,
            (key, modelDef) ∈ scenarioD /\
            options modelDef <> None /\
            ((snd out =
                Throw (TypeError "Cannot read properties of undefined (reading 'join')") /\
              exists m pending idx,
                scenarioD_bound !! toLowerCase (globalId modelDef) = Some m /\
                _indexes m = Some pending /\
                idx ∈ pending /\
                truthy (idx_name idx) = false /\
                idx_fields idx = None) \/
             (snd out = Throw (TypeError "model.getTableName is not a function") /\
              scenarioD_bound !! toLowerCase (globalId modelDef) = None /\
              inheritedByEveryObject (toLowerCase (globalId modelDef))))))) /\
    ((forall key modelDef,
         (key, modelDef) ∈ scenarioD ->
         options modelDef <> None ->
         (scenarioD_bound !! toLowerCase (globalId modelDef) = None ->
          ~ inheritedByEveryObject (toLowerCase (globalId modelDef))) /\
         (forall m pending idx,
             scenarioD_bound !! toLowerCase (globalId modelDef) = Some m ->
             _indexes m = Some pending ->
             idx ∈ pending ->
             truthy (idx_name idx) = true \/ idx_fields idx <> None)) ->
     last (run_calls (fst out)) = Some (CallSync "main" false true) /\
     snd out = db_sync freshDb "main" false true).
Proof.
  apply (smartMigrateBody_queries_then_syncs freshDb mainConnections scenarioD
           (false, true) "main" "postgres" (mkRun scenarioD_bound [] [])).
  exists mainConnection. reflexivity.
Defined.
